(** * scancmdr: protocol synthesis for the Scan-Control DSP

    A shallow embedding of [scancmdr.c] / [scancmdr.h] and the properties of
    its command builder, serializer, pattern generators and coordinate
    helpers.

    Conventions of the embedding.
    - C integers are [Z].  Unsigned 16/32-bit arithmetic wraps ([u16], [u32]),
      as the C standard prescribes.  Signed [int] and [int64_t] results are
      reduced to two's complement ([s32], [s64]); C leaves signed overflow
      undefined, so statements that need exact values carry a range premise.
    - The doubly linked protocol list ([ScanProt], nodes [CmdLine]) is a
      [list CmdLine] in append order; [reassignPointers] is the snoc.
      [calloc] is taken to succeed, so every append returns 0.
    - Files are the sequences of numbers that [fscanf] reads from them, and
      are taken to open.  Past the end of a file [fscanf] assigns nothing and
      the variables keep what they held; a variable read before anything was
      assigned to it has no defined value ([None]).
    - A function that can trap (an integer division by zero) or read
      outside an array returns an [option]; [None] is the trap or the
      undefined read.
    - [calcScaling] uses only IEEE-754 basic operations and is embedded on
      binary64 primitive floats, so it computes.  [rotateCoord],
      [convertCoord] and the rotated grid call the C library's [cos], [sin]
      and [cexp]; they are embedded over the real numbers.  That is what the
      code computes at angle 0, where the cosine is 1, the sine is 0 and the
      products of integers below 2^53 are exact in binary64.  At any other
      angle the binary64 products and sums are rounded, and a coordinate the
      code returns can differ by one from the value over the reals; no
      statement here depends on a rotated value at a non-zero angle: those
      about rotated protocols are about their commands, cycles and counts. *)

From Stdlib Require Import ZArith List String Ascii Bool Lia.
From Stdlib Require Import DecimalString.
From Stdlib Require DecimalPos DecimalFacts.
From Stdlib Require Import Reals Lra.
From Stdlib Require Import Floats.
Import ListNotations.

Local Open Scope Z_scope.

(** ** Machine integers *)

Definition u16 (z : Z) : Z := z mod 2 ^ 16.
Definition u32 (z : Z) : Z := z mod 2 ^ 32.
Definition s32 (z : Z) : Z := (z + 2 ^ 31) mod 2 ^ 32 - 2 ^ 31.
Definition s64 (z : Z) : Z := (z + 2 ^ 63) mod 2 ^ 64 - 2 ^ 63.

(** ** Preprocessor constants of scancmdr.h *)

Definition CYCLES_PER_MS : Z := 100.
Definition TRIG_LEN : Z := 10.
Definition MAX_CMD_LEN : Z := 100.
Definition TIME_OFFSET : Z := 10.
Definition PROT_PERIOD : Z := 50.

Definition NUL : ascii := "000"%char.
Definition STOPCHAR : ascii := "010"%char.
Definition START : ascii := "S"%char.
Definition END : ascii := "E"%char.

(** [CLEAR] is the two-character string C, newline. *)
Definition CLEAR : string := String "C"%char (String STOPCHAR EmptyString).

(** ** Data types *)

Module Coord.
Record t : Type := mk { X : Z; Y : Z }.
End Coord.

Module gCoord.
Record t : Type := mk { X : Z; Y : Z }.
End gCoord.

Inductive Trigger : Type := T_NONE | T_IN | T_OUT.

(** The anonymous channel enum. *)
Module Chan.
Definition X : Z := 4.
Definition Y : Z := 3.
Definition TRIG : Z := 7.
Definition LOOP : Z := 9.
End Chan.

(** [enum TrigCfg] and [enum TrigIn], by value. *)
Definition TL_DL : Z := 0.
Definition TH_DL : Z := 2.
Definition TL_DH : Z := 4.
Definition TH_DH : Z := 6.
Definition RISING : Z := 1.
Definition FALLING : Z := 2.

Record CmdLine : Type := mkCmd {
  DSPCmd : ascii;
  ScanCmd : ascii;
  Cycle : Z;      (* uint32_t *)
  Channel : Z;    (* int *)
  Value : Z       (* int64_t *)
}.

Definition ScanProt : Type := list CmdLine.

(** ** Scan command functions

    Each append function allocates a zeroed node, fills it and links it at
    the end of the list; it returns 0.  [M] threads the protocol through a
    sequence of such calls. *)

Definition M (A : Type) : Type := ScanProt -> A * ScanProt.

Definition ret {A : Type} (a : A) : M A := fun p => (a, p).

Definition bind {A B : Type} (m : M A) (k : A -> M B) : M B :=
  fun p => let (a, p') := m p in k a p'.

Definition exec {A : Type} (m : M A) (p : ScanProt) : ScanProt := snd (m p).

Declare Scope prot_scope.
Delimit Scope prot_scope with prot.
Notation "m1 ;; m2" := (bind m1 (fun _ => m2))
  (at level 61, right associativity) : prot_scope.

Definition createProtocol : ScanProt := [].

Definition reassignPointers (pParentList : ScanProt) (pChildNode : CmdLine)
  : ScanProt :=
  match pParentList with
  | [] => [pChildNode]
  | _ :: _ => pParentList ++ [pChildNode]
  end.

Definition link (c : CmdLine) : M Z := fun p => (0, reassignPointers p c).

(** [clearProtocol] frees every node and leaves the list empty; each
    generator calls it once its string is made. *)
Definition clearProtocol (pProtocol : ScanProt) : ScanProt := [].

Definition appendMove (channel cycle position : Z) : M Z :=
  link (mkCmd "A" "V" (u32 cycle) channel (s64 position)).

Definition appendLoop (StartOrEnd : ascii) (cycle repetitions : Z) : M Z :=
  let pCmdLine := mkCmd "A" NUL 0 0 0 in
  let pCmdLine :=
    if Ascii.eqb StartOrEnd "S" then
      mkCmd (DSPCmd pCmdLine) START (Cycle pCmdLine) (Channel pCmdLine)
            (s64 repetitions)
    else if Ascii.eqb StartOrEnd "E" then
      mkCmd (DSPCmd pCmdLine) END (Cycle pCmdLine) (Channel pCmdLine)
            (s64 repetitions)
    else pCmdLine in
  link (mkCmd (DSPCmd pCmdLine) (ScanCmd pCmdLine) (u32 cycle) Chan.LOOP
              (Value pCmdLine)).

Definition appendTrigOut (cycle trigger : Z) : M Z :=
  link (mkCmd "A" "V" (u32 cycle) Chan.TRIG trigger).

Definition appendIncr (cycle channel increment : Z) : M Z :=
  link (mkCmd "A" "I" (u32 cycle) channel (s64 increment)).

Definition appendWait (waitTime : Z) : M Z :=
  link (mkCmd "A" "0" (u32 waitTime) 0 0).

Definition appendRel (cycle channel deltaValue : Z) : M Z :=
  link (mkCmd "A" "R" (u32 cycle) channel (s64 deltaValue)).

Definition appendOffset (cycle channel offsetValue : Z) : M Z :=
  link (mkCmd "A" "O" (u32 cycle) channel (s64 offsetValue)).

Definition appendTrigIn (cycle risingFalling : Z) : M Z :=
  let ScanCmd :=
    if risingFalling =? 1 then "U"%char
    else if risingFalling =? 2 then "D"%char
    else "U"%char in
  link (mkCmd "A" ScanCmd (u32 cycle) Chan.TRIG 0).

(** ** Serializer *)

Definition NumCmds (protocol : ScanProt) : Z := Z.of_nat (List.length protocol).

Definition dec (z : Z) : string := NilZero.string_of_int (Z.to_int z).

(** [sprintf(NextLine, FORMAT, ...)]: the characters written for one node. *)
Definition sprintf_FORMAT (c : CmdLine) : string :=
  String (DSPCmd c) (String (ScanCmd c)
    ("," ++ dec (Cycle c) ++ "," ++ dec (Channel c) ++ "," ++ dec (Value c)
     ++ String STOPCHAR EmptyString))%string.

(** What a C string function sees of a buffer: the characters before the
    first NUL. *)
Fixpoint cstr (buf : string) : string :=
  match buf with
  | EmptyString => EmptyString
  | String c rest => if Ascii.eqb c NUL then EmptyString else String c (cstr rest)
  end.

Definition strcat (dst src : string) : string := (dst ++ cstr src)%string.

Definition ProtToString (protocol : ScanProt) : string :=
  fold_left (fun StrProtocol pLoop => strcat StrProtocol (sprintf_FORMAT pLoop))
            protocol CLEAR.

(** The bytes [ProtToString] reserves: [NCmds * MAX_CMD_LEN] for the string,
    with [NCmds = NumCmds(protocol) + 1] an [int], and [MAX_CMD_LEN] for
    each line. *)
Definition StrProtocol_size (protocol : ScanProt) : Z :=
  let NCmds := s32 (NumCmds protocol + 1) in
  s32 (NCmds * MAX_CMD_LEN).

Definition NextLine_size : Z := MAX_CMD_LEN.

(** ** Helper functions *)

(** *** Doubles over the reals: [round], the cast to an integer type *)

(** C's [round]: nearest integer, halves away from zero. *)
Definition round (x : R) : R :=
  if Rle_dec 0 x then IZR (Int_part (x + / 2)) else (- IZR (Int_part (- x + / 2)))%R.

(** A cast [(int)x] or [(int64_t)x] drops the fraction. *)
Definition trunc (x : R) : Z :=
  if Rle_dec 0 x then Int_part x else - Int_part (- x).

(** [cexp(RotAngle * I)] as (real part, imaginary part). *)
Definition cexp_I (RotAngle : R) : R * R := (cos RotAngle, sin RotAngle).

Definition convertCoord (pixelCoord : Coord.t) (ScaleFactor : Z)
    (CenterOffset : Coord.t) (RotAngle : R) : gCoord.t :=
  let cCoord := (IZR (Coord.X pixelCoord), IZR (Coord.Y pixelCoord)) in
  let offset := (IZR (Coord.X CenterOffset), IZR (Coord.Y CenterOffset)) in
  (* a complex value assigned to a [long double] keeps its real part *)
  let rotTransform := (IZR ScaleFactor * fst (cexp_I RotAngle))%R in
  let cCoord := ((rotTransform * (fst cCoord - fst offset))%R,
                 (rotTransform * (snd cCoord - snd offset))%R) in
  gCoord.mk (s64 (trunc (-1 * fst cCoord))) (s64 (trunc (-1 * snd cCoord))).

(** The offset from the center is taken in [int] arithmetic; the rotation
    of the offset is computed in doubles, here over the reals (exact at
    angle 0, see the conventions). *)
Definition rotateCoord (pixelCoord axisCenter : Coord.t) (RotAngle : R)
  : Coord.t :=
  let normCoord :=
    Coord.mk (s32 (Coord.X pixelCoord - Coord.X axisCenter))
             (s32 (Coord.Y pixelCoord - Coord.Y axisCenter)) in
  let XX := IZR (Coord.X normCoord) in
  let YY := IZR (Coord.Y normCoord) in
  let rXX := (XX * cos RotAngle - YY * sin RotAngle)%R in
  let rYY := (XX * sin RotAngle + YY * cos RotAngle)%R in
  Coord.mk (s32 (trunc (round rXX))) (s32 (trunc (round rYY))).

(** *** File readers

    A file is the list of integers that successive [%d] conversions read.
    The loops test [ftell(fp) != EOF], which holds for every open file, so
    they run [NumPoints] times whatever the length of the file. *)

(** [fscanf(fp, "%d\t%d\n", &xcoord, &ycoord)]: at end of file nothing is
    assigned and the variables keep their values. *)
Definition fscanf_d_d (fp : list Z) (xcoord ycoord : Z) : Z * Z * list Z :=
  match fp with
  | [] => (xcoord, ycoord, [])
  | [a] => (a, ycoord, [])
  | a :: b :: rest => (a, b, rest)
  end.

Fixpoint getCoords_loop (n : nat) (fp : list Z) (xcoord ycoord : Z)
  : list Coord.t :=
  match n with
  | O => []
  | S n' =>
      let '(xcoord, ycoord, fp) := fscanf_d_d fp xcoord ycoord in
      Coord.mk xcoord ycoord :: getCoords_loop n' fp xcoord ycoord
  end.

Definition getCoords (CoordFile : list Z) (NumPoints : Z) : list Coord.t :=
  getCoords_loop (Z.to_nat NumPoints) CoordFile 0 0.

(** One slot of the pattern array, from the grid indices just read. *)
Definition patternCoord (StartPos Spacing : Coord.t) (xcoord ycoord : Z)
  : Coord.t :=
  Coord.mk
    (s32 (Coord.X StartPos + s32 (s32 (xcoord - 1) * Coord.X Spacing)))
    (s32 (Coord.Y StartPos - s32 (s32 (ycoord - 1) * Coord.Y Spacing))).

Fixpoint getPattern_loop (n : nat) (fp : list Z) (xcoord ycoord : Z)
    (StartPos Spacing : Coord.t) : list Coord.t :=
  match n with
  | O => []
  | S n' =>
      let '(xcoord, ycoord, fp) := fscanf_d_d fp xcoord ycoord in
      patternCoord StartPos Spacing xcoord ycoord
        :: getPattern_loop n' fp xcoord ycoord StartPos Spacing
  end.

(** The leading [fscanf(fp, "%d\n", &nPoints)] consumes one integer. *)
Definition getPattern (PatternFile : list Z) (NumPoints : Z)
    (StartPos Spacing : Coord.t) : list Coord.t :=
  getPattern_loop (Z.to_nat NumPoints) (tl PatternFile) 0 0 StartPos Spacing.

(** [fscanf(fp, "%d\t%d\t%d\n", ...)]; the first integer is returned.  An
    empty file leaves the C variable unset; the model reads 0. *)
Definition getNumPoints (PatternFile : list Z) : Z := hd 0 PatternFile.

(** [coordSum / NumPoints] is an [int] division: it truncates, and it traps
    when [NumPoints] is 0 ([None]).  [round] of the quotient is the quotient. *)
Definition getCentroid (NumPoints : Z) (CoordArr : list Coord.t)
  : option Coord.t :=
  let coordSum :=
    fold_left (fun s c => Coord.mk (s32 (Coord.X s + Coord.X c))
                                   (s32 (Coord.Y s + Coord.Y c)))
              (firstn (Z.to_nat NumPoints) CoordArr) (Coord.mk 0 0) in
  if NumPoints =? 0 then None
  else Some (Coord.mk (Z.quot (Coord.X coordSum) NumPoints)
                      (Z.quot (Coord.Y coordSum) NumPoints)).

(** *** The coordinates of a grid

    [expandGridCoords] is declared in the header and called by no
    generator.  A store or a load outside the array it allocates is
    undefined ([None]). *)

(** [pCoordArr[k] = v] *)
Definition storeCoord (pCoordArr : list Coord.t) (k : Z) (v : Coord.t)
  : option (list Coord.t) :=
  if (0 <=? k) && (k <? Z.of_nat (List.length pCoordArr))
  then Some (firstn (Z.to_nat k) pCoordArr
             ++ v :: skipn (S (Z.to_nat k)) pCoordArr)
  else None.

(** [for (i = ...; i < Dims->X; i++)], with [cnt] iterations to go. *)
Fixpoint expand_inner (cnt : nat) (Dims : Coord.t)
    (StartX StartY deltaX deltaY : Z) (j i : Z) (pCoordArr : list Coord.t)
  : option (list Coord.t) :=
  match cnt with
  | O => Some pCoordArr
  | S cnt' =>
      let k := s32 (s32 (j * Coord.X Dims) + s32 (i + 1)) in
      match storeCoord pCoordArr k
              (Coord.mk (s32 (StartX + s32 (i * deltaX)))
                        (s32 (StartY + s32 (j * deltaY)))) with
      | None => None
      | Some pCoordArr =>
          expand_inner cnt' Dims StartX StartY deltaX deltaY j (i + 1) pCoordArr
      end
  end.

(** [for (j = ...; j < Dims->Y; j++)], with [cnt] iterations to go. *)
Fixpoint expand_outer (cnt : nat) (Dims : Coord.t)
    (StartX StartY deltaX deltaY : Z) (j : Z) (pCoordArr : list Coord.t)
  : option (list Coord.t) :=
  match cnt with
  | O => Some pCoordArr
  | S cnt' =>
      match expand_inner (Z.to_nat (Coord.X Dims)) Dims StartX StartY deltaX
                         deltaY j 0 pCoordArr with
      | None => None
      | Some pCoordArr =>
          expand_outer cnt' Dims StartX StartY deltaX deltaY (j + 1) pCoordArr
      end
  end.

Definition expandGridCoords (Dims StartPos Spacing : Coord.t)
  : option Coord.t :=
  let NumPoints := u16 (s32 (Coord.X Dims * Coord.Y Dims)) in
  let pCoordArr := repeat (Coord.mk 0 0) (Z.to_nat NumPoints) in
  let StartX := Coord.X StartPos in
  let StartY := Coord.Y StartPos in
  let deltaX := Coord.X Spacing in
  let deltaY := Coord.Y Spacing in
  match expand_outer (Z.to_nat (Coord.Y Dims)) Dims StartX StartY deltaX
                     deltaY 0 pCoordArr with
  | None => None
  | Some pCoordArr => nth_error pCoordArr 0
  end.

(** ** Pattern generators *)

(** Statements shared by all six generators. *)

(** [if (ISI < TimeOn) { ISI = TimeOn; }] *)
Definition coerceISI (ISI TimeOn : Z) : Z := if ISI <? TimeOn then TimeOn else ISI.

(** [if (EpisodePeriod < Baseline + n*ISI) { EpisodePeriod = Baseline + n*ISI; }] *)
Definition coerceEpisode (EpisodePeriod Baseline n ISI : Z) : Z :=
  if EpisodePeriod <? u32 (Baseline + u32 (n * ISI))
  then u32 (Baseline + u32 (n * ISI)) else EpisodePeriod.

(** [x = x * CYCLES_PER_MS] on a [uint32_t]. *)
Definition toCycles (ms : Z) : Z := u32 (ms * CYCLES_PER_MS).

(** The [switch] on the trigger mode that precedes an episode. *)
Definition triggerAt (Trig : Trigger) (t : Z) : M Z :=
  (match Trig with
   | T_NONE => ret 0
   | T_IN => appendTrigIn t RISING
   | T_OUT => appendTrigOut t TH_DL ;; appendTrigOut (u32 (t + TRIG_LEN)) TL_DL
   end)%prot.

Local Open Scope prot_scope.

(** A single pulse, or the pulse-train loop of [buildSpot] and [buildGrid]
    whose End is placed one [ISI] after its Start.  ([buildSpot] writes the
    single pulse with [Time0 + Baseline], which is its [PulseStart].) *)
Definition pulses_single_period (PulseStart TimeOn ISI NumPulses : Z) : M Z :=
  if NumPulses =? 1 then
    appendTrigOut PulseStart TL_DH ;;
    appendTrigOut (u32 (PulseStart + TimeOn)) TL_DL
  else
    appendLoop START PulseStart NumPulses ;;
    appendTrigOut PulseStart TL_DH ;;
    appendTrigOut (u32 (PulseStart + TimeOn)) TL_DL ;;
    appendLoop END (u32 (PulseStart + ISI)) NumPulses.

(** *** Single spot *)

(** [pSpotProt] is the protocol when [buildSpot] renders it. *)
Definition pSpotProt (Baseline TimeOn NumPulses ISI EpisodePeriod Reps : Z)
    (Pos : Coord.t) (ScaleFactor : Z) (CenterOffset : Coord.t)
    (Trig : Trigger) : ScanProt :=
  let ISI := coerceISI ISI TimeOn in
  let EpisodePeriod := coerceEpisode EpisodePeriod Baseline NumPulses ISI in
  let Baseline := toCycles Baseline in
  let TimeOn := toCycles TimeOn in
  let ISI := toCycles ISI in
  let EpisodePeriod := toCycles EpisodePeriod in
  let Time0 := 0 in
  let EndTime := u32 (u32 (Time0 + u32 (EpisodePeriod * Reps)) + PROT_PERIOD) in
  let PulseStart := u32 (Time0 + Baseline) in
  let galvoCoord := convertCoord Pos ScaleFactor CenterOffset 0 in
  exec
    (appendMove Chan.X Time0 (gCoord.X galvoCoord) ;;
     appendMove Chan.Y Time0 (gCoord.Y galvoCoord) ;;
     appendLoop START Time0 Reps ;;
     triggerAt Trig Time0 ;;
     pulses_single_period PulseStart TimeOn ISI NumPulses ;;
     appendLoop END EndTime Reps)
    createProtocol.

Definition buildSpot (Baseline TimeOn NumPulses ISI EpisodePeriod Reps : Z)
    (Pos : Coord.t) (ScaleFactor : Z) (CenterOffset : Coord.t)
    (Trig : Trigger) : string :=
  ProtToString
    (pSpotProt Baseline TimeOn NumPulses ISI EpisodePeriod Reps Pos
               ScaleFactor CenterOffset Trig).

(** *** Grid *)

(** [pGridProt] is the protocol when [buildGrid] renders it.  [episode] is
    the run of appends up to the end of the episode, which both branches on
    the rotation angle share; the variables set in one branch only are bound
    there. *)
Definition pGridProt (Baseline TimeOn NumPulses ISI Iterations EpisodePeriod
    Reps : Z) (Dims StartPos Spacing : Coord.t) (ScaleFactor : Z)
    (CenterOffset : Coord.t) (Trig : Trigger) (RotAngle : R)
  : option ScanProt :=
  let ISI := coerceISI ISI TimeOn in
  let EpisodePeriod := coerceEpisode EpisodePeriod Baseline NumPulses ISI in
  let Baseline := toCycles Baseline in
  let TimeOn := toCycles TimeOn in
  let ISI := toCycles ISI in
  let EpisodePeriod := u32 (toCycles EpisodePeriod * Iterations) in
  let Time0 := 0 in
  let EpisodeStart := u32 (Time0 + TIME_OFFSET) in
  let PulseStart := u32 (EpisodeStart + Baseline) in
  let XMoveTime := u32 (EpisodeStart + EpisodePeriod) in
  let YMoveTime := u32 (EpisodeStart + u32 (Coord.X Dims * EpisodePeriod)) in
  let EndTime :=
    u32 (u32 (EpisodeStart
              + u32 (s32 (Coord.X Dims * Coord.Y Dims) * EpisodePeriod))
         + PROT_PERIOD) in
  let episode (gStartPos : gCoord.t) : M Z :=
    appendLoop START Time0 Reps ;;
    appendMove Chan.X Time0 (gCoord.X gStartPos) ;;
    appendMove Chan.Y Time0 (gCoord.Y gStartPos) ;;
    appendLoop START EpisodeStart (Coord.Y Dims) ;;
    appendLoop START EpisodeStart (Coord.X Dims) ;;
    (if 1 <? Iterations then appendLoop START EpisodeStart Iterations
     else ret 0) ;;
    triggerAt Trig EpisodeStart ;;
    pulses_single_period PulseStart TimeOn ISI NumPulses ;;
    (if 1 <? Iterations
     then appendLoop END (u32 (EpisodeStart + EpisodePeriod)) Iterations
     else ret 0) in
  if Req_dec_T RotAngle 0 then
    let gStartPos := convertCoord StartPos ScaleFactor CenterOffset 0 in
    let gSpacing :=
      gCoord.mk (s64 (Coord.X Spacing * ScaleFactor))
                (s64 (Coord.Y Spacing * ScaleFactor)) in
    Some (exec
      (episode gStartPos ;;
       appendRel XMoveTime Chan.X (s64 (-1 * gCoord.X gSpacing)) ;;
       appendLoop END XMoveTime (Coord.X Dims) ;;
       appendRel YMoveTime Chan.Y (gCoord.Y gSpacing) ;;
       appendRel YMoveTime Chan.X (s64 (gCoord.X gSpacing * Coord.X Dims)) ;;
       appendLoop END YMoveTime (Coord.Y Dims) ;;
       appendLoop END EndTime Reps)
      createProtocol)
  else
    let gb1X := s32 (Coord.X StartPos
                     + s32 (Coord.X Spacing * s32 (Coord.X Dims - 1))) in
    let gb2Y := s32 (Coord.Y StartPos
                     - s32 (Coord.Y Spacing * s32 (Coord.Y Dims - 1))) in
    let gridBounds :=
      [ StartPos;
        Coord.mk gb1X (Coord.Y StartPos);
        Coord.mk gb1X gb2Y;
        Coord.mk (Coord.X StartPos) gb2Y ] in
    match getCentroid 4 gridBounds with
    | None => None
    | Some gridCenter =>
        let rStartPos := rotateCoord StartPos gridCenter RotAngle in
        let rStartPos :=
          Coord.mk (s32 (Coord.X rStartPos + Coord.X gridCenter))
                   (s32 (Coord.Y rStartPos + Coord.Y gridCenter)) in
        let deltaX1 := (IZR (Coord.X Spacing) * cos RotAngle)%R in
        let deltaX2 := (IZR (Coord.Y Spacing) * sin RotAngle)%R in
        let deltaY1 := (IZR (Coord.X Spacing) * sin RotAngle)%R in
        let deltaY2 := (IZR (Coord.Y Spacing) * cos RotAngle)%R in
        let gStartPos := convertCoord rStartPos ScaleFactor CenterOffset 0 in
        let gDeltaX1 := s64 (trunc (round deltaX1 * IZR ScaleFactor)) in
        let gDeltaX2 := s64 (trunc (round deltaX2 * IZR ScaleFactor)) in
        let gDeltaY1 := s64 (trunc (round deltaY1 * IZR ScaleFactor)) in
        let gDeltaY2 := s64 (trunc (round deltaY2 * IZR ScaleFactor)) in
        Some (exec
          (episode gStartPos ;;
           appendRel XMoveTime Chan.X (s64 (-1 * gDeltaX1)) ;;
           appendRel XMoveTime Chan.Y (s64 (-1 * gDeltaX2)) ;;
           appendLoop END XMoveTime (Coord.X Dims) ;;
           appendRel YMoveTime Chan.X (s64 (-1 * gDeltaY1)) ;;
           appendRel YMoveTime Chan.Y gDeltaY2 ;;
           appendRel YMoveTime Chan.X (s64 (gDeltaX1 * Coord.X Dims)) ;;
           appendRel YMoveTime Chan.Y (s64 (gDeltaX2 * Coord.X Dims)) ;;
           appendLoop END YMoveTime (Coord.Y Dims) ;;
           appendLoop END EndTime Reps)
          createProtocol)
    end.

Definition buildGrid (Baseline TimeOn NumPulses ISI Iterations EpisodePeriod
    Reps : Z) (Dims StartPos Spacing : Coord.t) (ScaleFactor : Z)
    (CenterOffset : Coord.t) (Trig : Trigger) (RotAngle : R)
  : option string :=
  option_map ProtToString
    (pGridProt Baseline TimeOn NumPulses ISI Iterations EpisodePeriod Reps
               Dims StartPos Spacing ScaleFactor CenterOffset Trig RotAngle).

(** *** Target list and pattern *)

(** The rotation applied before the conversion to galvo coordinates. *)
Definition rotateAll (NumPoints : Z) (pCoordArr : list Coord.t) (RotAngle : R)
  : option (list Coord.t) :=
  if Req_dec_T RotAngle 0 then Some pCoordArr
  else
    match getCentroid NumPoints pCoordArr with
    | None => None
    | Some centroid =>
        Some (map (fun c => rotateCoord c centroid RotAngle) pCoordArr)
    end.

(** The pulse-train of [buildTarget] and [buildPattern]: the loop End is
    placed [NumPulses * ISI] after its Start. *)
Definition pulses_whole_train (NextPulse TimeOn ISI NumPulses : Z) : M Z :=
  if NumPulses =? 1 then
    appendTrigOut NextPulse TL_DH ;;
    appendTrigOut (u32 (NextPulse + TimeOn)) TL_DL
  else
    appendLoop START NextPulse NumPulses ;;
    appendTrigOut NextPulse TL_DH ;;
    appendTrigOut (u32 (NextPulse + TimeOn)) TL_DL ;;
    appendLoop END (u32 (NextPulse + u32 (NumPulses * ISI))) NumPulses.

(** The body of [for (k = 0; k < NumPoints; k++)], from index [k] on. *)
Fixpoint target_loop (gCoordArr : list gCoord.t) (k : Z)
    (EpisodeStart EpisodePeriod Baseline TimeOn ISI NumPulses Iterations : Z)
    (Trig : Trigger) : M Z :=
  match gCoordArr with
  | [] => ret 0
  | g :: rest =>
      let NextEpisode := u32 (EpisodeStart + u32 (k * EpisodePeriod)) in
      let NextPulse := u32 (NextEpisode + Baseline) in
      appendMove Chan.X NextEpisode (gCoord.X g) ;;
      appendMove Chan.Y NextEpisode (gCoord.Y g) ;;
      (if 1 <? Iterations then appendLoop START NextEpisode Iterations
       else ret 0) ;;
      triggerAt Trig NextEpisode ;;
      pulses_whole_train NextPulse TimeOn ISI NumPulses ;;
      (if 1 <? Iterations
       then appendLoop END (u32 (NextEpisode + EpisodePeriod)) Iterations
       else ret 0) ;;
      target_loop rest (k + 1) EpisodeStart EpisodePeriod Baseline TimeOn ISI
                  NumPulses Iterations Trig
  end.

(** What [buildTarget] and [buildPattern] do once [pCoordArr] is filled: the
    two functions have the same text from there on. *)
Definition targetProt (pCoordArr : list Coord.t)
    (Baseline TimeOn NumPulses ISI Iterations EpisodePeriod Reps NumPoints
     ScaleFactor : Z) (CenterOffset : Coord.t) (Trig : Trigger) (RotAngle : R)
  : option ScanProt :=
  let ISI := coerceISI ISI TimeOn in
  let EpisodePeriod := coerceEpisode EpisodePeriod Baseline NumPulses ISI in
  let Baseline := toCycles Baseline in
  let TimeOn := toCycles TimeOn in
  let ISI := toCycles ISI in
  let EpisodePeriod := u32 (toCycles EpisodePeriod * Iterations) in
  let Time0 := 0 in
  let EpisodeStart := u32 (Time0 + TIME_OFFSET) in
  let EndTime := u32 (EpisodePeriod * NumPoints) in
  match rotateAll NumPoints pCoordArr RotAngle with
  | None => None
  | Some pCoordArr =>
      let gCoordArr :=
        map (fun c => convertCoord c ScaleFactor CenterOffset 0) pCoordArr in
      Some (exec
        (appendLoop START Time0 Reps ;;
         target_loop gCoordArr 0 EpisodeStart EpisodePeriod Baseline TimeOn
                     ISI NumPulses Iterations Trig ;;
         appendLoop END EndTime Reps)
        createProtocol)
  end.

Definition pTargetProt (TargetFile : list Z)
    (Baseline TimeOn NumPulses ISI Iterations EpisodePeriod Reps NumPoints
     ScaleFactor : Z) (CenterOffset : Coord.t) (Trig : Trigger) (RotAngle : R)
  : option ScanProt :=
  targetProt (getCoords TargetFile NumPoints) Baseline TimeOn NumPulses ISI
             Iterations EpisodePeriod Reps NumPoints ScaleFactor CenterOffset
             Trig RotAngle.

Definition buildTarget (TargetFile : list Z)
    (Baseline TimeOn NumPulses ISI Iterations EpisodePeriod Reps NumPoints
     ScaleFactor : Z) (CenterOffset : Coord.t) (Trig : Trigger) (RotAngle : R)
  : option string :=
  option_map ProtToString
    (pTargetProt TargetFile Baseline TimeOn NumPulses ISI Iterations
                 EpisodePeriod Reps NumPoints ScaleFactor CenterOffset Trig
                 RotAngle).

Definition pPatternProt (PatternFile : list Z)
    (Baseline TimeOn NumPulses ISI Iterations EpisodePeriod Reps : Z)
    (StartPos Spacing : Coord.t) (ScaleFactor : Z) (CenterOffset : Coord.t)
    (Trig : Trigger) (RotAngle : R) : option ScanProt :=
  let NumPoints := u16 (getNumPoints PatternFile) in
  targetProt (getPattern PatternFile NumPoints StartPos Spacing) Baseline
             TimeOn NumPulses ISI Iterations EpisodePeriod Reps NumPoints
             ScaleFactor CenterOffset Trig RotAngle.

Definition buildPattern (PatternFile : list Z)
    (Baseline TimeOn NumPulses ISI Iterations EpisodePeriod Reps : Z)
    (StartPos Spacing : Coord.t) (ScaleFactor : Z) (CenterOffset : Coord.t)
    (Trig : Trigger) (RotAngle : R) : option string :=
  option_map ProtToString
    (pPatternProt PatternFile Baseline TimeOn NumPulses ISI Iterations
                  EpisodePeriod Reps StartPos Spacing ScaleFactor CenterOffset
                  Trig RotAngle).

(** *** Rapid grid *)

Definition pRapidGridProt (Baseline TimeOn ISI EpisodePeriod Reps : Z)
    (Dims StartPos Spacing : Coord.t) (ScaleFactor : Z)
    (CenterOffset : Coord.t) (Trig : Trigger) (RotAngle : R) : ScanProt :=
  let ISI := coerceISI ISI TimeOn in
  let EpisodePeriod :=
    coerceEpisode EpisodePeriod Baseline (s32 (Coord.X Dims * Coord.Y Dims))
                  ISI in
  let Baseline := toCycles Baseline in
  let TimeOn := toCycles TimeOn in
  let ISI := toCycles ISI in
  let EpisodePeriod := toCycles EpisodePeriod in
  let Time0 := 0 in
  let EpisodeStart := u32 (Time0 + TIME_OFFSET) in
  let PulseStart := u32 (EpisodeStart + Baseline) in
  let XMoveTime := u32 (EpisodeStart + ISI) in
  let YMoveTime := u32 (EpisodeStart + u32 (Coord.X Dims * ISI)) in
  let EndTime := u32 (u32 (EpisodeStart + EpisodePeriod) + PROT_PERIOD) in
  let gStartPos := convertCoord StartPos ScaleFactor CenterOffset 0 in
  let gSpacing :=
    gCoord.mk (s64 (s32 (-1 * Coord.X Spacing) * ScaleFactor))
              (s64 (s32 (-1 * Coord.Y Spacing) * ScaleFactor)) in
  exec
    (appendLoop START Time0 Reps ;;
     appendMove Chan.X Time0 (gCoord.X gStartPos) ;;
     appendMove Chan.Y Time0 (gCoord.Y gStartPos) ;;
     triggerAt Trig EpisodeStart ;;
     appendLoop START EpisodeStart (Coord.Y Dims) ;;
     appendLoop START EpisodeStart (Coord.X Dims) ;;
     appendTrigOut PulseStart TL_DH ;;
     appendTrigOut (u32 (PulseStart + TimeOn)) TL_DL ;;
     appendRel XMoveTime Chan.X (s64 (-1 * gCoord.X gSpacing)) ;;
     appendLoop END XMoveTime (Coord.X Dims) ;;
     appendRel YMoveTime Chan.Y (gCoord.Y gSpacing) ;;
     appendRel YMoveTime Chan.X (s64 (gCoord.X gSpacing * Coord.X Dims)) ;;
     appendLoop END YMoveTime (Coord.Y Dims) ;;
     appendLoop END EndTime Reps)
    createProtocol.

Definition buildRapidGrid (Baseline TimeOn ISI EpisodePeriod Reps : Z)
    (Dims StartPos Spacing : Coord.t) (ScaleFactor : Z)
    (CenterOffset : Coord.t) (Trig : Trigger) (RotAngle : R) : string :=
  ProtToString
    (pRapidGridProt Baseline TimeOn ISI EpisodePeriod Reps Dims StartPos
                    Spacing ScaleFactor CenterOffset Trig RotAngle).

(** *** Rapid target list *)

(** The body of [for (m = 0; m < NumPoints; m++)], from index [m] on. *)
Fixpoint rapid_loop (gCoordArr : list gCoord.t) (m : Z)
    (PulseStart TimeOn ISI : Z) : M Z :=
  match gCoordArr with
  | [] => ret 0
  | g :: rest =>
      let NextPulse := u32 (PulseStart + u32 (m * ISI)) in
      appendMove Chan.X NextPulse (gCoord.X g) ;;
      appendMove Chan.Y NextPulse (gCoord.Y g) ;;
      appendTrigOut NextPulse TL_DH ;;
      appendTrigOut (u32 (NextPulse + TimeOn)) TL_DL ;;
      rapid_loop rest (m + 1) PulseStart TimeOn ISI
  end.

Definition pRapidTargetProt (TargetFile : list Z)
    (Baseline TimeOn ISI EpisodePeriod Reps NumPoints ScaleFactor : Z)
    (CenterOffset : Coord.t) (Trig : Trigger) (RotAngle : R)
  : option ScanProt :=
  let ISI := coerceISI ISI TimeOn in
  let EpisodePeriod := coerceEpisode EpisodePeriod Baseline NumPoints ISI in
  let Baseline := toCycles Baseline in
  let TimeOn := toCycles TimeOn in
  let ISI := toCycles ISI in
  let EpisodePeriod := toCycles EpisodePeriod in
  let Time0 := 0 in
  let EpisodeStart := u32 (Time0 + TIME_OFFSET) in
  let PulseStart := u32 (EpisodeStart + Baseline) in
  let EndTime := EpisodePeriod in
  match rotateAll NumPoints (getCoords TargetFile NumPoints) RotAngle with
  | None => None
  | Some pCoordArr =>
      let gCoordArr :=
        map (fun c => convertCoord c ScaleFactor CenterOffset 0) pCoordArr in
      Some (exec
        (appendLoop START Time0 Reps ;;
         triggerAt Trig EpisodeStart ;;
         rapid_loop gCoordArr 0 PulseStart TimeOn ISI ;;
         appendLoop END EndTime Reps)
        createProtocol)
  end.

Definition buildRapidTarget (TargetFile : list Z)
    (Baseline TimeOn ISI EpisodePeriod Reps NumPoints ScaleFactor : Z)
    (CenterOffset : Coord.t) (Trig : Trigger) (RotAngle : R)
  : option string :=
  option_map ProtToString
    (pRapidTargetProt TargetFile Baseline TimeOn ISI EpisodePeriod Reps
                      NumPoints ScaleFactor CenterOffset Trig RotAngle).

Local Close Scope prot_scope.

(** ** Scale factor from calibration points *)

(** One line of the calibration file, as [SCANFORMAT] reads it. *)
Record CalPoint : Type := mkCal {
  galvoX : float; galvoY : float; pixelX : float; pixelY : float
}.

Definition zeroCal : CalPoint := mkCal 0 0 0 0.

(** C's [a != b] on doubles. *)
Definition fne (a b : float) : bool := negb (PrimFloat.eqb a b).

(** [fabs(a - b) / fabs(c - d)] *)
Definition ratio (a b c d : float) : float :=
  PrimFloat.div (PrimFloat.abs (PrimFloat.sub a b))
                (PrimFloat.abs (PrimFloat.sub c d)).

(** [(int64_t)round(x)]: nearest integer, halves away from zero; the cast is
    undefined ([None]) for infinities, NaN and values outside [int64_t]. *)
Definition round_to_int64 (x : float) : option Z :=
  match Prim2SF x with
  | S754_zero _ => Some 0
  | S754_finite s m e =>
      let mag :=
        if 0 <=? e then Z.pos m * 2 ^ e
        else (2 * Z.pos m + 2 ^ (- e)) / 2 ^ (- e + 1) in
      let v := if s then - mag else mag in
      if (- 2 ^ 63 <=? v) && (v <? 2 ^ 63) then Some v else None
  | _ => None
  end.

(** [scaleArr[N] = v]; the array has room for every ratio as long as its
    size [Nmax] fits an [int]. *)
Fixpoint store (scaleArr : list float) (N : nat) (v : float) : list float :=
  match scaleArr, N with
  | [], _ => []
  | _ :: rest, O => v :: rest
  | x :: rest, S N' => x :: store rest N' v
  end.

(** The body of the inner loop for one pair [(i, j)]. *)
Definition scale_pair (arr : list CalPoint) (i j : nat)
    (st : list float * nat) : list float * nat :=
  let a := nth i arr zeroCal in
  let b := nth j arr zeroCal in
  if Nat.eqb i j then st
  else
    let st :=
      if fne (galvoX a) (galvoX b)
      then (store (fst st) (snd st)
                  (ratio (galvoX a) (galvoX b) (pixelX a) (pixelX b)),
            S (snd st))
      else st in
    if fne (galvoY a) (galvoY b)
    then (store (fst st) (snd st)
                (ratio (galvoY a) (galvoY b) (pixelY a) (pixelY b)),
          S (snd st))
    else st.

(** [for (j = ...; j < NumPoints; j++)], with [cnt] iterations to go. *)
Fixpoint scale_inner (cnt : nat) (arr : list CalPoint) (i j : nat)
    (st : list float * nat) : list float * nat :=
  match cnt with
  | O => st
  | S cnt' => scale_inner cnt' arr i (S j) (scale_pair arr i j st)
  end.

(** [for (i = ...; i < NumPoints; i++)], with [cnt] iterations to go. *)
Fixpoint scale_outer (cnt : nat) (NumPoints : nat) (arr : list CalPoint)
    (i : nat) (st : list float * nat) : list float * nat :=
  match cnt with
  | O => st
  | S cnt' =>
      scale_outer cnt' NumPoints arr (S i)
        (scale_inner (NumPoints - S i) arr i (S i) st)
  end.

(** One step of the averaging loop. *)
Definition average_step (scalefactor x : float) : float :=
  if fne x 0 then PrimFloat.div (PrimFloat.add scalefactor x) 2
  else scalefactor.

(** [fscanf(fp, SCANFORMAT, &gX, &gY, &pX, &pY)] on the lines that are left
    of a file of complete lines: a line sets the four variables; at end of
    file nothing is assigned and they keep their values.  [vars] is [None] as
    long as nothing was assigned to the four variables, which are declared
    without a value. *)
Definition fscanf_lf4 (fp : list CalPoint) (vars : option CalPoint)
  : option CalPoint * list CalPoint :=
  match fp with
  | [] => (vars, [])
  | line :: rest => (Some line, rest)
  end.

(** The read loop, with [cnt] iterations to go: [ftell(fp) != EOF] holds for
    every open file, so it runs [NumPoints] times and stores the four
    variables in slot [n] each time, whether [fscanf] read a line or not.
    Storing the variables before any line was read has no defined value. *)
Fixpoint calRead_loop (cnt : nat) (fp : list CalPoint)
    (vars : option CalPoint) : option (list CalPoint) :=
  match cnt with
  | O => Some []
  | S cnt' =>
      let '(vars, fp) := fscanf_lf4 fp vars in
      match vars with
      | None => None
      | Some v =>
          match calRead_loop cnt' fp vars with
          | None => None
          | Some arr => Some (v :: arr)
          end
      end
  end.

(** The value of the variable [scalefactor] when [calcScaling] returns.
    [calibrationFile] holds the lines of the file; the four arrays are the
    [NumPoints] records the read loop stores.  [scaleArr] is the zeroed array
    of [Nmax] doubles.  With fewer than two points [Nmax] is 0 and
    [scaleArr[0]] is read outside the array ([None]). *)
Definition scalefactor (NumPoints : Z) (calibrationFile : list CalPoint)
  : option float :=
  let n := Z.to_nat NumPoints in
  match calRead_loop n calibrationFile None with
  | None => None
  | Some arr =>
      let Nmax := s32 (s32 (2 * NumPoints) * s32 (NumPoints - 1)) in
      let scaleArr := repeat 0%float (Z.to_nat Nmax) in
      let '(scaleArr, _) := scale_outer n n arr 0 (scaleArr, 0%nat) in
      match scaleArr with
      | [] => None
      | scalefactor :: rest => Some (fold_left average_step rest scalefactor)
      end
  end.

Definition calcScaling (NumPoints : Z) (calibrationFile : list CalPoint)
  : option Z :=
  match scalefactor NumPoints calibrationFile with
  | None => None
  | Some scalefactor => round_to_int64 scalefactor
  end.

(** ** The test driver [sctest.c] *)



(** * The vocabulary of the properties *)

Arguments u16 : simpl never.
Arguments u32 : simpl never.
Arguments s32 : simpl never.
Arguments s64 : simpl never.

(** ** What a piece of building code appends *)

(** [writes m l]: whatever the protocol, [m] appends exactly [l] to it. *)
Definition writes {A : Type} (m : M A) (l : ScanProt) : Prop :=
  forall p, exec m p = p ++ l.

(** The command each append function links. *)
Definition cmdMove (channel cycle position : Z) : CmdLine :=
  mkCmd "A" "V" (u32 cycle) channel (s64 position).
Definition cmdLoopStart (cycle repetitions : Z) : CmdLine :=
  mkCmd "A" "S" (u32 cycle) Chan.LOOP (s64 repetitions).
Definition cmdLoopEnd (cycle repetitions : Z) : CmdLine :=
  mkCmd "A" "E" (u32 cycle) Chan.LOOP (s64 repetitions).
Definition cmdTrigOut (cycle trigger : Z) : CmdLine :=
  mkCmd "A" "V" (u32 cycle) Chan.TRIG trigger.
Definition cmdTrigIn (cycle : Z) : CmdLine :=
  mkCmd "A" "U" (u32 cycle) Chan.TRIG 0.

(** The commands of the trigger switch. *)
Definition triggerCmds (Trig : Trigger) (t : Z) : ScanProt :=
  match Trig with
  | T_NONE => []
  | T_IN => [cmdTrigIn t]
  | T_OUT => [cmdTrigOut t TH_DL; cmdTrigOut (u32 (t + TRIG_LEN)) TL_DL]
  end.

(** The commands of the pulse block of [buildSpot] and [buildGrid]. *)
Definition pulseCmds_single_period (PulseStart TimeOn ISI NumPulses : Z)
  : ScanProt :=
  if NumPulses =? 1 then
    [ cmdTrigOut PulseStart TL_DH;
      cmdTrigOut (u32 (PulseStart + TimeOn)) TL_DL ]
  else
    [ cmdLoopStart PulseStart NumPulses;
      cmdTrigOut PulseStart TL_DH;
      cmdTrigOut (u32 (PulseStart + TimeOn)) TL_DL;
      cmdLoopEnd (u32 (PulseStart + ISI)) NumPulses ].

(** The commands of the pulse block of [buildTarget] and [buildPattern]. *)
Definition pulseCmds_whole_train (NextPulse TimeOn ISI NumPulses : Z)
  : ScanProt :=
  if NumPulses =? 1 then
    [ cmdTrigOut NextPulse TL_DH;
      cmdTrigOut (u32 (NextPulse + TimeOn)) TL_DL ]
  else
    [ cmdLoopStart NextPulse NumPulses;
      cmdTrigOut NextPulse TL_DH;
      cmdTrigOut (u32 (NextPulse + TimeOn)) TL_DL;
      cmdLoopEnd (u32 (NextPulse + u32 (NumPulses * ISI))) NumPulses ].

(** ** Rendering *)

(** A buffer without NUL is read back whole by C string functions. *)
Fixpoint nonul (s : string) : bool :=
  match s with
  | EmptyString => true
  | String c rest => negb (Ascii.eqb c NUL) && nonul rest
  end.

(** The control and scan characters of a command are printable by [%c]
    without cutting the line short. *)
Definition charsOK (c : CmdLine) : Prop := DSPCmd c <> NUL /\ ScanCmd c <> NUL.

(** The lines of a protocol, one per command, in append order. *)
Definition lines (p : ScanProt) : string :=
  String.concat EmptyString (map sprintf_FORMAT p).

(** [printable m]: every command that [m] appends has printable control and
    scan characters. *)
Definition printable {A : Type} (m : M A) : Prop :=
  exists l, writes m l /\ Forall charsOK l.

(** ** Triggers and loop timing *)

(** The commands that bear a trigger are those on channel 7. *)
Definition triggerBearing (c : CmdLine) : bool := Channel c =? Chan.TRIG.

(** The first command of a protocol that bears a trigger. *)
Definition firstTrigger (p : ScanProt) : option CmdLine := find triggerBearing p.

(** The timing law of the header: a loop that starts at [t0], runs [n]
    iterations of [dt] cycles each, ends at [t0 + n * dt]. *)
Definition loopLaw (start_ end_ : CmdLine) (dt : Z) : Prop :=
  Cycle end_ = u32 (Cycle start_ + Value start_ * dt).

(** The call of the test driver [sctest.c]. *)
Definition sctest_spot : ScanProt :=
  pSpotProt 400 200 5 400 2000 1 (Coord.mk 450 400) 2 (Coord.mk 716 206) T_OUT.

(** ** Pattern files *)

(** The integers of a file that holds the given index pairs, one per line. *)
Fixpoint pairLines (entries : list (Z * Z)) : list Z :=
  match entries with
  | [] => []
  | (gridX, gridY) :: rest => gridX :: gridY :: pairLines rest
  end.

(** ** Loop nesting *)

(** The nesting depth after a run of commands, from depth [d]; [None] when
    an End has no Start before it. *)
Fixpoint loopDepth (d : nat) (p : ScanProt) : option nat :=
  match p with
  | [] => Some d
  | c :: rest =>
      if Ascii.eqb (ScanCmd c) START then loopDepth (S d) rest
      else if Ascii.eqb (ScanCmd c) END then
        match d with
        | O => None
        | S d' => loopDepth d' rest
        end
      else loopDepth d rest
  end.

(** Every Start has a later End of its own, and conversely. *)
Definition loopsMatched (p : ScanProt) : Prop := loopDepth 0 p = Some 0%nat.

(** The number of commands with a given scan character. *)
Definition countScan (ch : ascii) (p : ScanProt) : nat :=
  List.length (filter (fun c => Ascii.eqb (ScanCmd c) ch) p).

(** A run of commands that leaves every depth as it found it. *)
Definition neutral (l : ScanProt) : Prop := forall d, loopDepth d l = Some d.

(** [effect m f]: the commands that [m] appends take depth [d] to [f d]. *)
Definition effect {A : Type} (m : M A) (f : nat -> option nat) : Prop :=
  exists l, writes m l /\ forall d, loopDepth d l = f d.

(** Matched loops: well nested, and as many Starts as Ends. *)
Definition loopsOK (p : ScanProt) : Prop :=
  loopsMatched p /\ countScan START p = countScan END p.

(** ** Calibration *)

(** The pairs of calibration points in the order the nested loops visit
    them: each point with every later one. *)
Fixpoint pairsOf (l : list CalPoint) : list (CalPoint * CalPoint) :=
  match l with
  | [] => []
  | a :: rest => map (pair a) rest ++ pairsOf rest
  end.

(** The ratios a pair contributes in the code: an axis counts when the
    galvo coordinates differ on it. *)
Definition ratios_galvo (ab : CalPoint * CalPoint) : list float :=
  (if fne (galvoX (fst ab)) (galvoX (snd ab))
   then [ratio (galvoX (fst ab)) (galvoX (snd ab))
               (pixelX (fst ab)) (pixelX (snd ab))]
   else [])
  ++ (if fne (galvoY (fst ab)) (galvoY (snd ab))
      then [ratio (galvoY (fst ab)) (galvoY (snd ab))
                  (pixelY (fst ab)) (pixelY (snd ab))]
      else []).

(** The ratios a pair contributes in the words of the specification: an
    axis counts when the pixel coordinates differ on it. *)
Definition ratios_pixel (ab : CalPoint * CalPoint) : list float :=
  (if fne (pixelX (fst ab)) (pixelX (snd ab))
   then [ratio (galvoX (fst ab)) (galvoX (snd ab))
               (pixelX (fst ab)) (pixelX (snd ab))]
   else [])
  ++ (if fne (pixelY (fst ab)) (pixelY (snd ab))
      then [ratio (galvoY (fst ab)) (galvoY (snd ab))
                  (pixelY (fst ab)) (pixelY (snd ab))]
      else []).

(** The running average: seeded with the first ratio, each later non-zero
    ratio averaged into the running value in order. *)
Definition runningAverage (rs : list float) : float :=
  match rs with
  | [] => 0%float
  | r0 :: rest => fold_left average_step rest r0
  end.

(** [calcScaling] in the words of the specification. *)
Definition calcScaling_spec (pts : list CalPoint) : option Z :=
  round_to_int64 (runningAverage (flat_map ratios_pixel (pairsOf pts))).

(** The array [scaleArr] of [Nmax] slots once the ratios [rs] are stored,
    with the count [N]. *)
Definition slots (Nmax : nat) (rs : list float) : list float * nat :=
  (rs ++ repeat 0%float (Nmax - List.length rs), List.length rs).

(** The [NumPoints] calibration points taken from a file: its lines in
    order and, when it has fewer, its last line again for each point that is
    missing. *)
Definition pointsRead (NumPoints : Z) (calibrationFile : list CalPoint)
  : list CalPoint :=
  let n := Z.to_nat NumPoints in
  firstn n (calibrationFile ++ repeat (last calibrationFile zeroCal) n).

(** ** Calls of the builder *)

(** A call of one of the eight append functions. *)
Inductive AppendCall : Type :=
| CallMove (channel cycle position : Z)
| CallLoop (StartOrEnd : ascii) (cycle repetitions : Z)
| CallTrigOut (cycle trigger : Z)
| CallIncr (cycle channel increment : Z)
| CallWait (waitTime : Z)
| CallRel (cycle channel deltaValue : Z)
| CallOffset (cycle channel offsetValue : Z)
| CallTrigIn (cycle risingFalling : Z).

Definition call (a : AppendCall) : M Z :=
  match a with
  | CallMove channel cycle position => appendMove channel cycle position
  | CallLoop StartOrEnd cycle repetitions => appendLoop StartOrEnd cycle repetitions
  | CallTrigOut cycle trigger => appendTrigOut cycle trigger
  | CallIncr cycle channel increment => appendIncr cycle channel increment
  | CallWait waitTime => appendWait waitTime
  | CallRel cycle channel deltaValue => appendRel cycle channel deltaValue
  | CallOffset cycle channel offsetValue => appendOffset cycle channel offsetValue
  | CallTrigIn cycle risingFalling => appendTrigIn cycle risingFalling
  end.

(** The calls made one after the other; the status of each is collected. *)
Fixpoint calls (l : list AppendCall) : M (list Z) :=
  match l with
  | [] => ret []
  | a :: rest =>
      bind (call a) (fun status =>
      bind (calls rest) (fun statuses => ret (status :: statuses)))
  end.

(** The fields of a command hold values of their C types. *)
Definition fieldsTyped (c : CmdLine) : Prop :=
  0 <= Cycle c < 2 ^ 32
  /\ - 2 ^ 31 <= Channel c < 2 ^ 31
  /\ - 2 ^ 63 <= Value c < 2 ^ 63.

(** ** The serializer's lines and buffers *)

(** What [strcat] takes of the line [sprintf] wrote for a command: all of
    it, or the part before a zero control or scan character. *)
Definition lineOf (c : CmdLine) : string :=
  if Ascii.eqb (DSPCmd c) NUL then EmptyString
  else if Ascii.eqb (ScanCmd c) NUL then String (DSPCmd c) EmptyString
  else sprintf_FORMAT c.

(** [strlen(s) + 1]: the bytes a C string occupies with its terminator. *)
Definition bytes (s : string) : Z := Z.of_nat (String.length s) + 1.

(** The clear line followed by the complete lines of a protocol. *)
Definition rendered (p : ScanProt) : string := (CLEAR ++ lines p)%string.

(** ** Points *)

(** The point a coordinate file line holds. *)
Definition coordOf (e : Z * Z) : Coord.t := Coord.mk (fst e) (snd e).

(** The sum of the X (Y) coordinates of a point list. *)
Definition sumX (l : list Coord.t) : Z := fold_right Z.add 0 (map Coord.X l).
Definition sumY (l : list Coord.t) : Z := fold_right Z.add 0 (map Coord.Y l).

(** ** The commands of the loops over points *)

Definition cmdRel (cycle channel deltaValue : Z) : CmdLine :=
  mkCmd "A" "R" (u32 cycle) channel (s64 deltaValue).

(** The commands of one episode of [buildTarget] and [buildPattern], at the
    point [g]. *)
Definition episodeCmds (g : gCoord.t)
    (NextEpisode EpisodePeriod Baseline TimeOn ISI NumPulses Iterations : Z)
    (Trig : Trigger) : ScanProt :=
  [ cmdMove Chan.X NextEpisode (gCoord.X g);
    cmdMove Chan.Y NextEpisode (gCoord.Y g) ]
  ++ (if 1 <? Iterations then [cmdLoopStart NextEpisode Iterations] else [])
  ++ triggerCmds Trig NextEpisode
  ++ pulseCmds_whole_train (u32 (NextEpisode + Baseline)) TimeOn ISI NumPulses
  ++ (if 1 <? Iterations
      then [cmdLoopEnd (u32 (NextEpisode + EpisodePeriod)) Iterations]
      else []).

(** The commands of the episodes of the points [gCoordArr], the first of
    which has index [k]. *)
Fixpoint targetCmds (gCoordArr : list gCoord.t) (k : Z)
    (EpisodeStart EpisodePeriod Baseline TimeOn ISI NumPulses Iterations : Z)
    (Trig : Trigger) : ScanProt :=
  match gCoordArr with
  | [] => []
  | g :: rest =>
      episodeCmds g (u32 (EpisodeStart + u32 (k * EpisodePeriod)))
                  EpisodePeriod Baseline TimeOn ISI NumPulses Iterations Trig
      ++ targetCmds rest (k + 1) EpisodeStart EpisodePeriod Baseline TimeOn
                    ISI NumPulses Iterations Trig
  end.

(** The commands of one point of [buildRapidTarget]. *)
Definition rapidPointCmds (g : gCoord.t) (NextPulse TimeOn : Z) : ScanProt :=
  [ cmdMove Chan.X NextPulse (gCoord.X g);
    cmdMove Chan.Y NextPulse (gCoord.Y g);
    cmdTrigOut NextPulse TL_DH;
    cmdTrigOut (u32 (NextPulse + TimeOn)) TL_DL ].

Fixpoint rapidCmds (gCoordArr : list gCoord.t) (m : Z)
    (PulseStart TimeOn ISI : Z) : ScanProt :=
  match gCoordArr with
  | [] => []
  | g :: rest =>
      rapidPointCmds g (u32 (PulseStart + u32 (m * ISI))) TimeOn
      ++ rapidCmds rest (m + 1) PulseStart TimeOn ISI
  end.

(** The command that opens the trigger of an episode at cycle [t]: the wait
    for a rising edge, or the rise of the trigger output. *)
Definition triggerOpening (Trig : Trigger) (t : Z) : CmdLine :=
  match Trig with
  | T_OUT => mkCmd "A" "V" t Chan.TRIG TH_DL
  | _ => mkCmd "A" "U" t Chan.TRIG 0
  end.

(** ** Counting and reading protocols *)

(** The number of commands of the trigger switch. *)
Definition triggerCount (Trig : Trigger) : Z :=
  match Trig with T_NONE => 0 | T_IN => 1 | T_OUT => 2 end.

(** The number of commands of a pulse block: a single pulse, or a train in
    its loop. *)
Definition pulseCount (NumPulses : Z) : Z := if NumPulses =? 1 then 2 else 4.

(** The number of commands of the loop at a spot. *)
Definition iterCount (Iterations : Z) : Z := if 1 <? Iterations then 2 else 0.

(** [sized m n]: [m] appends [n] commands, whatever the protocol. *)
Definition sized {A : Type} (m : M A) (n : Z) : Prop :=
  exists l, writes m l /\ Z.of_nat (List.length l) = n.

(** The slots of an array with their indices, from index [k] on. *)
Fixpoint indexed {A : Type} (k : Z) (l : list A) : list (Z * A) :=
  match l with
  | [] => []
  | a :: rest => (k, a) :: indexed (k + 1) rest
  end.

(** The moves of a protocol to a position: for each, the channel, the
    cycle and the value. *)
Definition moves (p : ScanProt) : list (Z * Z * Z) :=
  map (fun c => (Channel c, Cycle c, Value c))
      (filter (fun c => Ascii.eqb (ScanCmd c) "V"
                        && ((Channel c =? Chan.X) || (Channel c =? Chan.Y))) p).

(** The two moves to the point [c] at cycle [t]. *)
Definition movesTo (t : Z) (c : Coord.t) (ScaleFactor : Z)
    (CenterOffset : Coord.t) : list (Z * Z * Z) :=
  [ (Chan.X, t, gCoord.X (convertCoord c ScaleFactor CenterOffset 0));
    (Chan.Y, t, gCoord.Y (convertCoord c ScaleFactor CenterOffset 0)) ].

(** The channel and the value of the relative moves of a protocol. *)
Definition relMoves (p : ScanProt) : list (Z * Z) :=
  map (fun c => (Channel c, Value c))
      (filter (fun c => Ascii.eqb (ScanCmd c) "R") p).

(** ** What the builders append *)

(** [emits P m]: every command that [m] appends satisfies [P]. *)
Definition emits {A : Type} (P : CmdLine -> Prop) (m : M A) : Prop :=
  exists l, writes m l /\ Forall P l.

(** The serializer's two buffers are large enough for a protocol. *)
Definition fitsBuffers (p : ScanProt) : Prop :=
  Forall (fun c => bytes (sprintf_FORMAT c) <= NextLine_size) p
  /\ bytes (ProtToString p) <= StrProtocol_size p.

(** The command that switches the laser on: the trigger output with the
    digital line high. *)
Definition isPulseOn (c : CmdLine) : bool :=
  (Channel c =? Chan.TRIG) && (Value c =? TL_DH).

(** Every pulse-on command is followed at once by the command that switches
    the laser off, [TimeOn] cycles later. *)
Fixpoint pulsesPaired (TimeOn : Z) (p : ScanProt) : Prop :=
  match p with
  | [] => True
  | c :: rest =>
      if isPulseOn c then
        match rest with
        | [] => False
        | off :: rest' =>
            off = mkCmd "A" "V" (u32 (Cycle c + TimeOn)) Chan.TRIG TL_DL
            /\ pulsesPaired TimeOn rest'
        end
      else pulsesPaired TimeOn rest
  end.

(** [pairs T m]: in what [m] appends, every pulse-on has its pulse-off. *)
Definition pairs {A : Type} (TimeOn : Z) (m : M A) : Prop :=
  exists l, writes m l /\ pulsesPaired TimeOn l.

(** * Properties *)

(** ** Machine arithmetic *)

Lemma u32_range (z : Z) : 0 <= u32 z < 2 ^ 32.
Proof. unfold u32. apply Z.mod_pos_bound. lia. Qed.

Lemma u32_small (z : Z) : 0 <= z < 2 ^ 32 -> u32 z = z.
Proof. intros H. unfold u32. apply Z.mod_small. exact H. Qed.

Lemma u32_idem (z : Z) : u32 (u32 z) = u32 z.
Proof. unfold u32. apply Z.mod_mod. lia. Qed.

Lemma u32_add_l (a b : Z) : u32 (u32 a + b) = u32 (a + b).
Proof. unfold u32. apply Zplus_mod_idemp_l. Qed.

Lemma u32_add_r (a b : Z) : u32 (a + u32 b) = u32 (a + b).
Proof. unfold u32. apply Zplus_mod_idemp_r. Qed.

Lemma u32_mul_l (a b : Z) : u32 (u32 a * b) = u32 (a * b).
Proof. unfold u32. apply Zmult_mod_idemp_l. Qed.

Lemma u32_mul_r (a b : Z) : u32 (a * u32 b) = u32 (a * b).
Proof. unfold u32. apply Zmult_mod_idemp_r. Qed.

Lemma s32_small (z : Z) : - 2 ^ 31 <= z < 2 ^ 31 -> s32 z = z.
Proof. intros H. unfold s32. rewrite Z.mod_small; lia. Qed.



Lemma s32_congr (a b : Z) : (a - b) mod 2 ^ 32 = 0 -> s32 a = s32 b.
Proof.
  intros H. unfold s32. f_equal.
  apply Z.mod_divide in H; [|lia]. destruct H as [q Hq].
  replace (a + 2 ^ 31) with (b + 2 ^ 31 + q * 2 ^ 32) by lia.
  apply Z.mod_add. lia.
Qed.

Lemma s32_mod (z : Z) : (s32 z - z) mod 2 ^ 32 = 0.
Proof.
  unfold s32. apply Z.mod_divide; [lia|].
  exists (- ((z + 2 ^ 31) / 2 ^ 32)).
  pose proof (Z.div_mod (z + 2 ^ 31) (2 ^ 32)). lia.
Qed.

Lemma s32_add_r (a b : Z) : s32 (a + s32 b) = s32 (a + b).
Proof.
  apply s32_congr. replace (a + s32 b - (a + b)) with (s32 b - b) by lia.
  apply s32_mod.
Qed.

Lemma s32_sub_r (a b : Z) : s32 (a - s32 b) = s32 (a - b).
Proof.
  apply s32_congr. replace (a - s32 b - (a - b)) with (- (s32 b - b)) by lia.
  pose proof (s32_mod b) as H. apply Z.mod_divide in H; [|lia].
  apply Z.mod_divide; [lia|]. destruct H as [q Hq]. exists (- q). lia.
Qed.

Lemma s32_mul_l (a b : Z) : s32 (s32 a * b) = s32 (a * b).
Proof.
  apply s32_congr. replace (s32 a * b - a * b) with ((s32 a - a) * b) by lia.
  pose proof (s32_mod a) as H. apply Z.mod_divide in H; [|lia].
  apply Z.mod_divide; [lia|]. destruct H as [q Hq]. exists (q * b). lia.
Qed.

Lemma s64_range (z : Z) : - 2 ^ 63 <= s64 z < 2 ^ 63.
Proof.
  unfold s64. pose proof (Z.mod_pos_bound (z + 2 ^ 63) (2 ^ 64)). lia.
Qed.

Lemma s64_small (z : Z) : - 2 ^ 63 <= z < 2 ^ 63 -> s64 z = z.
Proof. intros H. unfold s64. rewrite Z.mod_small; lia. Qed.

Lemma s64_idem (z : Z) : s64 (s64 z) = s64 z.
Proof. apply s64_small, s64_range. Qed.

(** ** The command builder *)

Lemma reassignPointers_snoc (p : ScanProt) (c : CmdLine) :
  reassignPointers p c = p ++ [c].
Proof. destruct p; reflexivity. Qed.

Lemma link_spec (c : CmdLine) (p : ScanProt) : link c p = (0, p ++ [c]).
Proof. unfold link. rewrite reassignPointers_snoc. reflexivity. Qed.

Lemma writes_ret {A : Type} (a : A) : writes (ret a) [].
Proof. intros p. unfold exec, ret. simpl. now rewrite app_nil_r. Qed.

Lemma writes_link (c : CmdLine) : writes (link c) [c].
Proof. intros p. unfold exec. now rewrite link_spec. Qed.

Lemma writes_bind {A B : Type} (m : M A) (k : A -> M B) (l1 l2 : ScanProt) :
  writes m l1 -> (forall a, writes (k a) l2) -> writes (bind m k) (l1 ++ l2).
Proof.
  intros Hm Hk p. unfold exec, bind.
  specialize (Hm p). unfold exec in Hm.
  destruct (m p) as [a p'] eqn:E. simpl in Hm. subst p'.
  specialize (Hk a (p ++ l1)). unfold exec in Hk. rewrite Hk.
  now rewrite app_assoc.
Qed.

Lemma writes_exec {A : Type} (m : M A) (l : ScanProt) :
  writes m l -> exec m createProtocol = l.
Proof. intros H. apply (H []). Qed.

(** The commands of each append function. *)

Lemma writes_appendTrigOut (cy t : Z) :
  writes (appendTrigOut cy t) [cmdTrigOut cy t].
Proof. apply writes_link. Qed.

Lemma writes_appendTrigIn_RISING (cy : Z) :
  writes (appendTrigIn cy RISING) [cmdTrigIn cy].
Proof. apply writes_link. Qed.

Lemma writes_triggerAt (Trig : Trigger) (t : Z) :
  writes (triggerAt Trig t) (triggerCmds Trig t).
Proof.
  destruct Trig; simpl.
  - apply writes_ret.
  - apply writes_appendTrigIn_RISING.
  - apply (writes_bind _ _ [_] [_]).
    + apply writes_appendTrigOut.
    + intros _. apply writes_appendTrigOut.
Qed.

Lemma writes_pulses_single_period (PulseStart TimeOn ISI NumPulses : Z) :
  writes (pulses_single_period PulseStart TimeOn ISI NumPulses)
         (pulseCmds_single_period PulseStart TimeOn ISI NumPulses).
Proof.
  unfold pulses_single_period, pulseCmds_single_period.
  destruct (NumPulses =? 1).
  - apply (writes_bind _ _ [_] [_]); [apply writes_link | intros _; apply writes_link].
  - apply (writes_bind _ _ [_] [_; _; _]); [apply writes_link | intros _].
    apply (writes_bind _ _ [_] [_; _]); [apply writes_link | intros _].
    apply (writes_bind _ _ [_] [_]); [apply writes_link | intros _; apply writes_link].
Qed.

Lemma writes_pulses_whole_train (NextPulse TimeOn ISI NumPulses : Z) :
  writes (pulses_whole_train NextPulse TimeOn ISI NumPulses)
         (pulseCmds_whole_train NextPulse TimeOn ISI NumPulses).
Proof.
  unfold pulses_whole_train, pulseCmds_whole_train.
  destruct (NumPulses =? 1).
  - apply (writes_bind _ _ [_] [_]); [apply writes_link | intros _; apply writes_link].
  - apply (writes_bind _ _ [_] [_; _; _]); [apply writes_link | intros _].
    apply (writes_bind _ _ [_] [_; _]); [apply writes_link | intros _].
    apply (writes_bind _ _ [_] [_]); [apply writes_link | intros _; apply writes_link].
Qed.

(** *** The protocol of [buildSpot], command by command *)

Lemma pSpotProt_cmds (Baseline TimeOn NumPulses ISI EpisodePeriod Reps : Z)
    (Pos : Coord.t) (ScaleFactor : Z) (CenterOffset : Coord.t)
    (Trig : Trigger) :
  let ISI' := coerceISI ISI TimeOn in
  let EP := toCycles (coerceEpisode EpisodePeriod Baseline NumPulses ISI') in
  let g := convertCoord Pos ScaleFactor CenterOffset 0 in
  pSpotProt Baseline TimeOn NumPulses ISI EpisodePeriod Reps Pos ScaleFactor
            CenterOffset Trig
  = [ cmdMove Chan.X 0 (gCoord.X g);
      cmdMove Chan.Y 0 (gCoord.Y g);
      cmdLoopStart 0 Reps ]
    ++ triggerCmds Trig 0
    ++ pulseCmds_single_period (u32 (0 + toCycles Baseline)) (toCycles TimeOn)
                               (toCycles ISI') NumPulses
    ++ [ cmdLoopEnd (u32 (u32 (0 + u32 (EP * Reps)) + PROT_PERIOD)) Reps ].
Proof.
  intros ISI' EP g. unfold pSpotProt. apply writes_exec.
  apply (writes_bind _ _ [_] _); [apply writes_link | intros _].
  apply (writes_bind _ _ [_] _); [apply writes_link | intros _].
  apply (writes_bind _ _ [_] _); [apply writes_link | intros _].
  apply writes_bind; [apply writes_triggerAt | intros _].
  apply writes_bind; [apply writes_pulses_single_period | intros _].
  apply writes_link.
Qed.

(** C10.  For every cycle and every edge argument, [appendTrigIn] returns 0
    and appends exactly one command, on the trigger channel 7 with value 0,
    whose scan character is D for edge 2 and U for edge 1 and for every
    other edge value. *)
Theorem appendTrigIn_one_command :
  forall (cycle edge : Z) (p : ScanProt),
    appendTrigIn cycle edge p
    = (0, p ++ [mkCmd "A" (if edge =? 2 then "D"%char else "U"%char) (u32 cycle)
                      7 0])
    /\ appendTrigIn cycle RISING p
       = (0, p ++ [mkCmd "A" "U" (u32 cycle) Chan.TRIG 0])
    /\ appendTrigIn cycle FALLING p
       = (0, p ++ [mkCmd "A" "D" (u32 cycle) Chan.TRIG 0]).
Proof.
  intros cycle edge p. unfold appendTrigIn. rewrite !link_spec.
  split; [|split; reflexivity].
  destruct (edge =? 1) eqn:E1; destruct (edge =? 2) eqn:E2; try reflexivity.
  apply Z.eqb_eq in E1, E2. lia.
Qed.

(** ** The centroid *)

(** Over four points the division is defined. *)
Lemma getCentroid_4 (CoordArr : list Coord.t) :
  exists c, getCentroid 4 CoordArr = Some c.
Proof. unfold getCentroid. simpl. eexists. reflexivity. Qed.

(** The rotation of a point list traps only on an empty list under a
    non-zero angle. *)
Lemma rotateAll_cases (NumPoints : Z) (pCoordArr : list Coord.t) (RotAngle : R) :
  (exists arr, rotateAll NumPoints pCoordArr RotAngle = Some arr)
  \/ (rotateAll NumPoints pCoordArr RotAngle = None
      /\ NumPoints = 0 /\ RotAngle <> 0%R).
Proof.
  unfold rotateAll, getCentroid.
  destruct (Req_dec_T RotAngle 0) as [E|E]; [left; eexists; reflexivity|].
  destruct (NumPoints =? 0) eqn:E0.
  - right. apply Z.eqb_eq in E0. auto.
  - left. eexists. reflexivity.
Qed.

Lemma Some_inj {A : Type} (a b : A) : Some a = Some b -> a = b.
Proof. intros H. now injection H. Qed.

(** ** Serializer *)

Lemma cstr_nonul (s : string) : nonul s = true -> cstr s = s.
Proof.
  induction s as [|c s IH]; simpl; [reflexivity|].
  intros H. apply andb_true_iff in H. destruct H as [Hc Hs].
  apply negb_true_iff in Hc. rewrite Hc. now rewrite IH.
Qed.

Lemma nonul_app (s t : string) :
  nonul (s ++ t) = nonul s && nonul t.
Proof.
  induction s as [|c s IH]; simpl; [reflexivity|].
  now rewrite IH, andb_assoc.
Qed.

Lemma nonul_uint (d : Decimal.uint) : nonul (NilEmpty.string_of_uint d) = true.
Proof. induction d; simpl; auto. Qed.

Lemma nonul_dec (z : Z) : nonul (dec z) = true.
Proof.
  unfold dec, NilZero.string_of_int, NilZero.string_of_uint.
  destruct (Z.to_int z) as [d|d]; destruct d; simpl; auto using nonul_uint.
Qed.

Lemma nonul_sprintf (c : CmdLine) : charsOK c -> nonul (sprintf_FORMAT c) = true.
Proof.
  intros [Hd Hs]. unfold sprintf_FORMAT. simpl.
  apply Ascii.eqb_neq in Hd. apply Ascii.eqb_neq in Hs. rewrite Hd, Hs. simpl.
  repeat (rewrite ?nonul_app, ?nonul_dec; simpl). reflexivity.
Qed.

Lemma concat_empty_cons (s : string) (l : list string) :
  String.concat EmptyString (s :: l) = (s ++ String.concat EmptyString l)%string.
Proof.
  destruct l as [|t l]; simpl; [|reflexivity].
  induction s as [|c s IH]; simpl; [reflexivity|]. now rewrite <- IH.
Qed.

Lemma string_app_assoc (a b c : string) :
  ((a ++ b) ++ c)%string = (a ++ (b ++ c))%string.
Proof. induction a as [|x a IH]; simpl; [reflexivity|]. now rewrite IH. Qed.

Lemma ProtToString_from (p : ScanProt) (acc : string) :
  Forall charsOK p ->
  fold_left (fun s c => strcat s (sprintf_FORMAT c)) p acc
  = (acc ++ lines p)%string.
Proof.
  intros H. revert acc. induction H as [|c p Hc Hp IH]; intros acc.
  - simpl. unfold lines. simpl.
    induction acc as [|x acc IHa]; simpl; [reflexivity|]. now rewrite <- IHa.
  - simpl. rewrite IH. unfold strcat. rewrite cstr_nonul by now apply nonul_sprintf.
    unfold lines. rewrite map_cons, concat_empty_cons.
    apply string_app_assoc.
Qed.

(** C2.  For every protocol (whose control and scan characters are
    characters [%c] can print, as every command of the data model is),
    [ProtToString] is the clear line followed by one line per command in
    append order, each line being the control character, the scan character
    and the comma-separated cycle, channel and value, ended by a newline;
    nothing follows the last command.  A protocol holding one move at
    channel 4, cycle 10, value 5000 renders to the two lines C and
    AV,10,4,5000. *)
Theorem ProtToString_clear_then_lines :
  (forall p : ScanProt,
     Forall charsOK p ->
     ProtToString p
     = (CLEAR ++
        String.concat EmptyString
          (map (fun c =>
                  String (DSPCmd c) (String (ScanCmd c)
                    ("," ++ dec (Cycle c) ++ "," ++ dec (Channel c) ++ ","
                     ++ dec (Value c) ++ String STOPCHAR EmptyString))) p))%string)
  /\ ProtToString (exec (appendMove 4 10 5000) createProtocol)
     = (String "C" (String STOPCHAR "AV,10,4,5000") ++ String STOPCHAR EmptyString)%string.
Proof.
  split.
  - intros p Hp. unfold ProtToString. now rewrite ProtToString_from.
  - vm_compute. reflexivity.
Qed.

Lemma ProtToString_clear_then_lines_witness :
  ProtToString [mkCmd "A" "S" 0 9 3; mkCmd "A" "E" 50 9 3]
  = (CLEAR ++ "AS,0,9,3" ++ String STOPCHAR "AE,50,9,3"
     ++ String STOPCHAR EmptyString)%string.
Proof.
  rewrite (proj1 ProtToString_clear_then_lines
             [mkCmd "A" "S" 0 9 3; mkCmd "A" "E" 50 9 3]).
  - vm_compute. reflexivity.
  - repeat constructor; discriminate.
Defined.

(** A loop command appended with a designator other than S or E keeps the
    zero scan character of its fresh node, and its line is cut after the
    control character. *)
Lemma ProtToString_malformed_loop :
  ProtToString (exec (appendLoop "X" 10 3) createProtocol)
  = (CLEAR ++ "A")%string.
Proof. vm_compute. reflexivity. Qed.

(** ** Protocols the builder makes are printable *)

Lemma printable_ret {A : Type} (a : A) : printable (ret a).
Proof. exists []. split; [apply writes_ret | constructor]. Qed.

Lemma printable_link (c : CmdLine) : charsOK c -> printable (link c).
Proof. intros H. exists [c]. split; [apply writes_link | now constructor]. Qed.

Lemma printable_seq {A B : Type} (m1 : M A) (m2 : M B) :
  printable m1 -> printable m2 -> printable (bind m1 (fun _ => m2)).
Proof.
  intros [l1 [W1 F1]] [l2 [W2 F2]]. exists (l1 ++ l2). split.
  - apply writes_bind; [exact W1 | intros _; exact W2].
  - apply Forall_app. split; assumption.
Qed.

Lemma printable_exec {A : Type} (m : M A) :
  printable m -> Forall charsOK (exec m createProtocol).
Proof. intros [l [W F]]. now rewrite (writes_exec _ _ W). Qed.

(** Each append function links one printable command; [appendLoop] does so
    when its designator is S or E. *)
Lemma append_functions_printable :
  (forall ch cy pos, printable (appendMove ch cy pos))
  /\ (forall cy n, printable (appendLoop START cy n))
  /\ (forall cy n, printable (appendLoop END cy n))
  /\ (forall cy t, printable (appendTrigOut cy t))
  /\ (forall cy ch v, printable (appendIncr cy ch v))
  /\ (forall t, printable (appendWait t))
  /\ (forall cy ch v, printable (appendRel cy ch v))
  /\ (forall cy ch v, printable (appendOffset cy ch v))
  /\ (forall cy e, printable (appendTrigIn cy e)).
Proof.
  repeat split; intros; apply printable_link; split; try discriminate.
  simpl. destruct (e =? 1); [discriminate|].
  destruct (e =? 2); discriminate.
Qed.

Lemma printable_triggerAt (Trig : Trigger) (t : Z) : printable (triggerAt Trig t).
Proof.
  destruct Trig; simpl.
  - apply printable_ret.
  - apply printable_link; split; discriminate.
  - apply printable_seq; apply printable_link; split; discriminate.
Qed.

(** Walks a straight-line sequence of appends. *)
Ltac printable_step IH :=
  lazymatch goal with
  | |- printable (bind _ _) => apply printable_seq
  | |- printable (ret _) => apply printable_ret
  | |- printable (triggerAt _ _) => apply printable_triggerAt
  | |- printable (target_loop _ _ _ _ _ _ _ _ _ _) => apply IH
  | |- printable (rapid_loop _ _ _ _ _) => apply IH
  | |- printable (if true then _ else _) => cbv iota
  | |- printable (if false then _ else _) => cbv iota
  | |- printable (pulses_single_period _ _ _ _) =>
      unfold pulses_single_period;
      match goal with |- context [?n =? 1] => destruct (n =? 1) end
  | |- printable (pulses_whole_train _ _ _ _) =>
      unfold pulses_whole_train;
      match goal with |- context [?n =? 1] => destruct (n =? 1) end
  | |- printable _ => apply printable_link; split; discriminate
  end.

Lemma printable_target_loop (gCoordArr : list gCoord.t) :
  forall (k EpisodeStart EpisodePeriod Baseline TimeOn ISI NumPulses
          Iterations : Z) (Trig : Trigger),
    printable (target_loop gCoordArr k EpisodeStart EpisodePeriod Baseline
                           TimeOn ISI NumPulses Iterations Trig).
Proof.
  induction gCoordArr as [|g rest IH]; intros; cbn [target_loop].
  - apply printable_ret.
  - destruct (1 <? Iterations); repeat printable_step IH.
Qed.

Lemma printable_rapid_loop (gCoordArr : list gCoord.t) :
  forall m PulseStart TimeOn ISI : Z,
    printable (rapid_loop gCoordArr m PulseStart TimeOn ISI).
Proof.
  induction gCoordArr as [|g rest IH]; intros; cbn [rapid_loop].
  - apply printable_ret.
  - repeat printable_step IH.
Qed.

Ltac printable_generator :=
  apply printable_exec;
  repeat first [ printable_step printable_target_loop
               | printable_step printable_rapid_loop ].

(** Every protocol a generator hands to [ProtToString] is printable, so the
    string it returns is the clear line followed by the lines of its
    commands. *)
Lemma generators_printable :
  (forall Baseline TimeOn NumPulses ISI EpisodePeriod Reps Pos ScaleFactor
          CenterOffset Trig,
      Forall charsOK
        (pSpotProt Baseline TimeOn NumPulses ISI EpisodePeriod Reps Pos
                   ScaleFactor CenterOffset Trig))
  /\ (forall Baseline TimeOn NumPulses ISI Iterations EpisodePeriod Reps Dims
             StartPos Spacing ScaleFactor CenterOffset Trig RotAngle p,
        pGridProt Baseline TimeOn NumPulses ISI Iterations EpisodePeriod Reps
                  Dims StartPos Spacing ScaleFactor CenterOffset Trig RotAngle
        = Some p -> Forall charsOK p)
  /\ (forall pCoordArr Baseline TimeOn NumPulses ISI Iterations EpisodePeriod
             Reps NumPoints ScaleFactor CenterOffset Trig RotAngle p,
        targetProt pCoordArr Baseline TimeOn NumPulses ISI Iterations
                   EpisodePeriod Reps NumPoints ScaleFactor CenterOffset Trig
                   RotAngle = Some p -> Forall charsOK p)
  /\ (forall Baseline TimeOn ISI EpisodePeriod Reps Dims StartPos Spacing
             ScaleFactor CenterOffset Trig RotAngle,
        Forall charsOK
          (pRapidGridProt Baseline TimeOn ISI EpisodePeriod Reps Dims StartPos
                          Spacing ScaleFactor CenterOffset Trig RotAngle))
  /\ (forall TargetFile Baseline TimeOn ISI EpisodePeriod Reps NumPoints
             ScaleFactor CenterOffset Trig RotAngle p,
        pRapidTargetProt TargetFile Baseline TimeOn ISI EpisodePeriod Reps
                         NumPoints ScaleFactor CenterOffset Trig RotAngle
        = Some p -> Forall charsOK p).
Proof.
  repeat split; intros.
  - unfold pSpotProt. printable_generator.
  - revert H. unfold pGridProt. cbv zeta.
    destruct (Req_dec_T RotAngle 0).
    + intros H. apply Some_inj in H. subst p.
      destruct (1 <? Iterations); printable_generator.
    + match goal with |- context [getCentroid 4 ?l] =>
        destruct (getCentroid_4 l) as [c Hc]; rewrite Hc end.
      intros H. apply Some_inj in H. subst p.
      destruct (1 <? Iterations); printable_generator.
  - revert H. unfold targetProt. cbv zeta.
    destruct (rotateAll NumPoints pCoordArr RotAngle); intros H;
      [apply Some_inj in H; subst p | discriminate].
    printable_generator.
  - unfold pRapidGridProt. printable_generator.
  - revert H. unfold pRapidTargetProt. cbv zeta.
    destruct (rotateAll NumPoints _ RotAngle); intros H;
      [apply Some_inj in H; subst p | discriminate].
    printable_generator.
Qed.

Lemma buildSpot_lines (Baseline TimeOn NumPulses ISI EpisodePeriod Reps : Z)
    (Pos : Coord.t) (ScaleFactor : Z) (CenterOffset : Coord.t)
    (Trig : Trigger) :
  buildSpot Baseline TimeOn NumPulses ISI EpisodePeriod Reps Pos ScaleFactor
            CenterOffset Trig
  = (CLEAR ++ lines (pSpotProt Baseline TimeOn NumPulses ISI EpisodePeriod
                               Reps Pos ScaleFactor CenterOffset Trig))%string.
Proof.
  unfold buildSpot, ProtToString. apply ProtToString_from.
  apply (proj1 generators_printable).
Qed.

(** ** Timing coercions *)

(** C8 fails as stated: the product by 100 wraps at 32 bits.  With ISI
    42949673 ms and a pulse width of 1 ms the coerced ISI is 4 cycles and the
    pulse width 100 cycles. *)
Lemma coerced_ISI_cycles_wrap :
  toCycles (coerceISI 42949673 1) = 4 /\ toCycles 1 = 100
  /\ ~ (toCycles (coerceISI 42949673 1) >= toCycles 1).
Proof. vm_compute. repeat split; congruence. Qed.

(** C8, amended.  When the coerced ISI times 100 fits in 32 bits, the
    coerced ISI in cycles is at least the pulse width in cycles. *)
Theorem coerced_ISI_cycles_ge :
  forall ISI TimeOn : Z,
    0 <= ISI -> 0 <= TimeOn ->
    coerceISI ISI TimeOn * CYCLES_PER_MS < 2 ^ 32 ->
    toCycles (coerceISI ISI TimeOn) >= toCycles TimeOn.
Proof.
  intros ISI TimeOn HI HT Hfit. unfold toCycles, coerceISI, CYCLES_PER_MS in *.
  destruct (ISI <? TimeOn) eqn:E.
  - lia.
  - apply Z.ltb_ge in E. rewrite !u32_small; lia.
Qed.

Lemma coerced_ISI_cycles_ge_witness :
  toCycles (coerceISI 400 200) >= toCycles 200.
Proof.
  apply (coerced_ISI_cycles_ge 400 200); [lia | lia | vm_compute; reflexivity].
Defined.

(** In milliseconds the coercion always holds. *)
Lemma coerceISI_ge (ISI TimeOn : Z) : TimeOn <= coerceISI ISI TimeOn.
Proof. unfold coerceISI. destruct (ISI <? TimeOn) eqn:E; lia. Qed.

(** ** The single-spot generator *)

Lemma u32_toCycles (a : Z) : u32 (toCycles a) = toCycles a.
Proof. unfold toCycles. apply u32_idem. Qed.

Lemma toCycles_add (a b : Z) :
  u32 (toCycles a + toCycles b) = toCycles (a + b).
Proof.
  unfold toCycles. rewrite u32_add_l, u32_add_r. f_equal. lia.
Qed.

(** C1 fails as stated: the two moves come before the start of the master
    loop, not after it. *)
Lemma buildSpot_moves_precede_loop :
  map (fun c => (ScanCmd c, Channel c))
      (pSpotProt 400 200 1 400 2000 1 (Coord.mk 450 400) 2 (Coord.mk 716 206)
                 T_NONE)
  = [ ("V", 4); ("V", 3); ("S", 9); ("V", 7); ("V", 7); ("E", 9) ]%char
  /\ map (fun c => (ScanCmd c, Channel c))
         (pSpotProt 400 200 1 400 2000 1 (Coord.mk 450 400) 2
                    (Coord.mk 716 206) T_NONE)
     <> [ ("S", 9); ("V", 4); ("V", 3); ("V", 7); ("V", 7); ("E", 9) ]%char.
Proof.
  rewrite pSpotProt_cmds. split; [reflexivity | discriminate].
Qed.

(** C1, amended.  With one pulse and no trigger, [buildSpot] emits exactly
    six commands: the move in X, the move in Y, the start of the master loop,
    pulse-on at the baseline in cycles, pulse-off at baseline plus pulse
    width in cycles, and the end of the master loop. *)
Theorem buildSpot_single_pulse :
  forall (Baseline TimeOn ISI EpisodePeriod Reps : Z) (Pos : Coord.t)
         (ScaleFactor : Z) (CenterOffset : Coord.t),
    pSpotProt Baseline TimeOn 1 ISI EpisodePeriod Reps Pos ScaleFactor
              CenterOffset T_NONE
    = [ mkCmd "A" "V" 0 Chan.X
              (gCoord.X (convertCoord Pos ScaleFactor CenterOffset 0));
        mkCmd "A" "V" 0 Chan.Y
              (gCoord.Y (convertCoord Pos ScaleFactor CenterOffset 0));
        mkCmd "A" "S" 0 Chan.LOOP (s64 Reps);
        mkCmd "A" "V" (toCycles Baseline) Chan.TRIG TL_DH;
        mkCmd "A" "V" (toCycles (Baseline + TimeOn)) Chan.TRIG TL_DL;
        mkCmd "A" "E"
              (u32 (toCycles (coerceEpisode EpisodePeriod Baseline 1
                                            (coerceISI ISI TimeOn)) * Reps
                    + PROT_PERIOD))
              Chan.LOOP (s64 Reps) ].
Proof.
  intros. rewrite pSpotProt_cmds. cbv zeta.
  unfold pulseCmds_single_period, triggerCmds. rewrite Z.eqb_refl.
  unfold cmdMove, cmdLoopStart, cmdLoopEnd, cmdTrigOut. simpl app.
  rewrite !u32_idem, !u32_toCycles, toCycles_add, u32_add_l, !s64_idem.
  reflexivity.
Qed.

(** ** Triggers at cycle zero *)

(** C4 fails in [buildSpot], whatever the other parameters: with trigger-in
    the wait for the rising edge, and with trigger-out the trigger pulse, is
    the first command on channel 7 and sits at cycle 0, below
    [TIME_OFFSET]. *)
Theorem buildSpot_trigger_at_cycle_zero :
  forall (Baseline TimeOn NumPulses ISI EpisodePeriod Reps : Z)
         (Pos : Coord.t) (ScaleFactor : Z) (CenterOffset : Coord.t),
    firstTrigger (pSpotProt Baseline TimeOn NumPulses ISI EpisodePeriod Reps
                            Pos ScaleFactor CenterOffset T_IN)
    = Some (mkCmd "A" "U" 0 Chan.TRIG 0)
    /\ firstTrigger (pSpotProt Baseline TimeOn NumPulses ISI EpisodePeriod
                               Reps Pos ScaleFactor CenterOffset T_OUT)
       = Some (mkCmd "A" "V" 0 Chan.TRIG TH_DL)
    /\ 0 < TIME_OFFSET.
Proof.
  intros. rewrite !pSpotProt_cmds. repeat split.
Qed.

(** The five other generators put the trigger at [TIME_OFFSET]; here the
    rapid grid. *)
Lemma buildRapidGrid_trigger_at_offset
    (Baseline TimeOn ISI EpisodePeriod Reps : Z)
    (Dims StartPos Spacing : Coord.t) (ScaleFactor : Z)
    (CenterOffset : Coord.t) (RotAngle : R) :
  firstTrigger (pRapidGridProt Baseline TimeOn ISI EpisodePeriod Reps Dims
                               StartPos Spacing ScaleFactor CenterOffset T_IN
                               RotAngle)
  = Some (mkCmd "A" "U" TIME_OFFSET Chan.TRIG 0).
Proof. reflexivity. Qed.

(** ** Loop timing *)

(** C3 fails in [buildSpot]: the pulse-train loop of five pulses, 40000
    cycles apart, starts at cycle 40000 and its End is placed at 80000, one
    period after the Start, where the law asks for 240000. *)
Theorem buildSpot_pulse_loop_end :
  nth_error sctest_spot 5 = Some (mkCmd "A" "S" 40000 Chan.LOOP 5)
  /\ nth_error sctest_spot 8 = Some (mkCmd "A" "E" 80000 Chan.LOOP 5)
  /\ toCycles (coerceISI 400 200) = 40000
  /\ ~ loopLaw (mkCmd "A" "S" 40000 Chan.LOOP 5)
               (mkCmd "A" "E" 80000 Chan.LOOP 5) 40000.
Proof.
  unfold sctest_spot. rewrite pSpotProt_cmds.
  repeat split. unfold loopLaw. vm_compute. discriminate.
Qed.

(** For every input with a pulse train, the End of [buildSpot]'s pulse loop
    is one ISI after its Start. *)
Lemma buildSpot_pulse_loop_one_period (PulseStart TimeOn ISI NumPulses : Z) :
  (NumPulses =? 1) = false ->
  pulseCmds_single_period PulseStart TimeOn ISI NumPulses
  = [ cmdLoopStart PulseStart NumPulses;
      cmdTrigOut PulseStart TL_DH;
      cmdTrigOut (u32 (PulseStart + TimeOn)) TL_DL;
      cmdLoopEnd (u32 (PulseStart + 1 * ISI)) NumPulses ].
Proof.
  intros H. unfold pulseCmds_single_period. rewrite H, Z.mul_1_l. reflexivity.
Qed.

(** The sibling pulse loop of [buildTarget] and [buildPattern] obeys the
    law. *)
Lemma target_pulse_loop_law (NextPulse TimeOn ISI NumPulses : Z) :
  0 <= NumPulses < 2 ^ 16 ->
  loopLaw (cmdLoopStart NextPulse NumPulses)
          (cmdLoopEnd (u32 (NextPulse + u32 (NumPulses * ISI))) NumPulses)
          ISI.
Proof.
  intros H. unfold loopLaw, cmdLoopStart, cmdLoopEnd. simpl.
  rewrite s64_small by lia. now rewrite u32_idem, u32_add_l, u32_add_r.
Qed.

(** ** The pattern file *)

Lemma getPattern_loop_pairs (entries : list (Z * Z)) (rest : list Z)
    (x0 y0 : Z) (StartPos Spacing : Coord.t) :
  getPattern_loop (List.length entries) (pairLines entries ++ rest) x0 y0
                  StartPos Spacing
  = map (fun e => patternCoord StartPos Spacing (fst e) (snd e)) entries.
Proof.
  revert x0 y0. induction entries as [|[gx gy] entries IH]; intros x0 y0.
  - reflexivity.
  - simpl. f_equal. apply IH.
Qed.

(** C9 fails as stated: the Y coordinate steps down, not up.  In a file of
    two points on a 1 x 2 grid whose every index pair is (1, 2), with origin
    (0, 0) and spacing (10, 10), each point is placed at Y = -10 where the
    claim gives 0 + (2 - 1) * 10. *)
Lemma getPattern_Y_steps_down :
  getPattern [2; 1; 2; 1; 2; 1; 2] 2 (Coord.mk 0 0) (Coord.mk 10 10)
  = [Coord.mk 0 (-10); Coord.mk 0 (-10)]
  /\ -10 <> 0 + (2 - 1) * 10.
Proof. split; [vm_compute; reflexivity | discriminate]. Qed.

(** C9, amended.  For every index pair (gridX, gridY) that [getPattern]
    reads after the leading count, and every origin and spacing, the pixel
    coordinate stored for it is X = StartPos.X + (gridX - 1) * Spacing.X and
    Y = StartPos.Y - (gridY - 1) * Spacing.Y, in 32-bit [int] arithmetic. *)
Theorem getPattern_grid_coordinates :
  forall (count : Z) (entries : list (Z * Z)) (rest : list Z)
         (StartPos Spacing : Coord.t),
    getPattern (count :: pairLines entries ++ rest)
               (Z.of_nat (List.length entries)) StartPos Spacing
    = map (fun e =>
             Coord.mk
               (s32 (Coord.X StartPos + (fst e - 1) * Coord.X Spacing))
               (s32 (Coord.Y StartPos - (snd e - 1) * Coord.Y Spacing)))
          entries.
Proof.
  intros. unfold getPattern. rewrite Nat2Z.id. simpl tl.
  rewrite getPattern_loop_pairs. apply map_ext. intros [gx gy].
  unfold patternCoord. simpl. now rewrite !s32_mul_l, s32_add_r, s32_sub_r.
Qed.

(** Where the exact values fit an [int], they are the stored values. *)
Lemma patternCoord_exact (StartPos Spacing : Coord.t) (gridX gridY : Z) :
  - 2 ^ 31 <= Coord.X StartPos + (gridX - 1) * Coord.X Spacing < 2 ^ 31 ->
  - 2 ^ 31 <= Coord.Y StartPos - (gridY - 1) * Coord.Y Spacing < 2 ^ 31 ->
  patternCoord StartPos Spacing gridX gridY
  = Coord.mk (Coord.X StartPos + (gridX - 1) * Coord.X Spacing)
             (Coord.Y StartPos - (gridY - 1) * Coord.Y Spacing).
Proof.
  intros HX HY. unfold patternCoord.
  rewrite !s32_mul_l, s32_add_r, s32_sub_r. now rewrite !s32_small.
Qed.

(** With the three-number header of the pattern file format, the pair read
    first is the grid size, and the last index pair of the file is not
    read. *)
Lemma getPattern_reads_grid_size_first :
  getPattern [2; 5; 6; 1; 1; 3; 4] 2 (Coord.mk 0 0) (Coord.mk 10 10)
  = [ patternCoord (Coord.mk 0 0) (Coord.mk 10 10) 5 6;
      patternCoord (Coord.mk 0 0) (Coord.mk 10 10) 1 1 ].
Proof. reflexivity. Qed.

(** ** Loop nesting *)

Lemma loopDepth_app (d : nat) (a b : ScanProt) :
  loopDepth d (a ++ b)
  = match loopDepth d a with
    | Some d' => loopDepth d' b
    | None => None
    end.
Proof.
  revert d. induction a as [|c a IH]; intros d; simpl; [reflexivity|].
  destruct (Ascii.eqb (ScanCmd c) START); [apply IH|].
  destruct (Ascii.eqb (ScanCmd c) END); [|apply IH].
  destruct d; [reflexivity | apply IH].
Qed.

Lemma loopDepth_counts (p : ScanProt) :
  forall d d', loopDepth d p = Some d' ->
               (d + countScan START p = d' + countScan END p)%nat.
Proof.
  unfold countScan.
  induction p as [|c p IH]; intros d d' H; simpl in *.
  - injection H as <-. lia.
  - destruct (Ascii.eqb (ScanCmd c) START) eqn:ES.
    + apply Ascii.eqb_eq in ES. rewrite ES. simpl.
      apply IH in H. lia.
    + destruct (Ascii.eqb (ScanCmd c) END) eqn:EE.
      * destruct d; [discriminate|]. apply IH in H. simpl. lia.
      * apply IH in H. lia.
Qed.

Lemma loopsMatched_counts (p : ScanProt) :
  loopsMatched p -> countScan START p = countScan END p.
Proof. intros H. apply loopDepth_counts in H. lia. Qed.

Lemma neutral_triggerCmds (Trig : Trigger) (t : Z) : neutral (triggerCmds Trig t).
Proof. destruct Trig; intros d; reflexivity. Qed.

Lemma neutral_pulses_single (PulseStart TimeOn ISI NumPulses : Z) :
  neutral (pulseCmds_single_period PulseStart TimeOn ISI NumPulses).
Proof.
  unfold pulseCmds_single_period. destruct (NumPulses =? 1); intros d; reflexivity.
Qed.

Lemma neutral_pulses_whole (NextPulse TimeOn ISI NumPulses : Z) :
  neutral (pulseCmds_whole_train NextPulse TimeOn ISI NumPulses).
Proof.
  unfold pulseCmds_whole_train. destruct (NumPulses =? 1); intros d; reflexivity.
Qed.

Lemma effect_ret {A : Type} (a : A) : effect (ret a) Some.
Proof. exists []. split; [apply writes_ret | reflexivity]. Qed.

Lemma effect_link (c : CmdLine) : effect (link c) (fun d => loopDepth d [c]).
Proof. exists [c]. split; [apply writes_link | reflexivity]. Qed.

Lemma effect_seq {A B : Type} (m1 : M A) (m2 : M B)
    (f g : nat -> option nat) :
  effect m1 f -> effect m2 g ->
  effect (bind m1 (fun _ => m2))
         (fun d => match f d with Some d' => g d' | None => None end).
Proof.
  intros [l1 [W1 D1]] [l2 [W2 D2]]. exists (l1 ++ l2). split.
  - apply writes_bind; [exact W1 | intros _; exact W2].
  - intros d. rewrite loopDepth_app, D1. destruct (f d); [apply D2 | reflexivity].
Qed.

Lemma effect_neutral {A : Type} (m : M A) (l : ScanProt) :
  writes m l -> neutral l -> effect m Some.
Proof. intros W N. exists l. split; [exact W | exact N]. Qed.

Lemma effect_triggerAt (Trig : Trigger) (t : Z) : effect (triggerAt Trig t) Some.
Proof.
  eapply effect_neutral; [apply writes_triggerAt | apply neutral_triggerCmds].
Qed.

Lemma effect_pulses_single (PulseStart TimeOn ISI NumPulses : Z) :
  effect (pulses_single_period PulseStart TimeOn ISI NumPulses) Some.
Proof.
  eapply effect_neutral;
    [apply writes_pulses_single_period | apply neutral_pulses_single].
Qed.

Lemma effect_pulses_whole (NextPulse TimeOn ISI NumPulses : Z) :
  effect (pulses_whole_train NextPulse TimeOn ISI NumPulses) Some.
Proof.
  eapply effect_neutral;
    [apply writes_pulses_whole_train | apply neutral_pulses_whole].
Qed.

Lemma effect_ext {A : Type} (m : M A) (f g : nat -> option nat) :
  effect m f -> (forall d, f d = g d) -> effect m g.
Proof.
  intros [l [W D]] E. exists l. split; [exact W|]. intros d. now rewrite D.
Qed.

Lemma effect_loopsOK {A : Type} (m : M A) (f : nat -> option nat) :
  effect m f -> f 0%nat = Some 0%nat -> loopsOK (exec m createProtocol).
Proof.
  intros [l [W D]] H0. rewrite (writes_exec _ _ W).
  assert (loopsMatched l) as HM by (unfold loopsMatched; now rewrite D).
  split; [exact HM | now apply loopsMatched_counts].
Qed.

(** Composes the depth effects of a straight-line sequence of appends. *)
Ltac effect_steps :=
  repeat first
    [ apply effect_triggerAt
    | apply effect_pulses_single
    | apply effect_pulses_whole
    | apply effect_ret
    | apply effect_link
    | eapply effect_seq ].

Lemma pSpotProt_loopsOK (Baseline TimeOn NumPulses ISI EpisodePeriod Reps : Z)
    (Pos : Coord.t) (ScaleFactor : Z) (CenterOffset : Coord.t)
    (Trig : Trigger) :
  loopsOK (pSpotProt Baseline TimeOn NumPulses ISI EpisodePeriod Reps Pos
                     ScaleFactor CenterOffset Trig).
Proof.
  unfold pSpotProt. eapply effect_loopsOK; [effect_steps | reflexivity].
Qed.

Lemma pRapidGridProt_loopsOK (Baseline TimeOn ISI EpisodePeriod Reps : Z)
    (Dims StartPos Spacing : Coord.t) (ScaleFactor : Z)
    (CenterOffset : Coord.t) (Trig : Trigger) (RotAngle : R) :
  loopsOK (pRapidGridProt Baseline TimeOn ISI EpisodePeriod Reps Dims StartPos
                          Spacing ScaleFactor CenterOffset Trig RotAngle).
Proof.
  unfold pRapidGridProt. eapply effect_loopsOK; [effect_steps | reflexivity].
Qed.

Lemma pGridProt_loopsOK (Baseline TimeOn NumPulses ISI Iterations
    EpisodePeriod Reps : Z) (Dims StartPos Spacing : Coord.t)
    (ScaleFactor : Z) (CenterOffset : Coord.t) (Trig : Trigger)
    (RotAngle : R) :
  exists p,
    pGridProt Baseline TimeOn NumPulses ISI Iterations EpisodePeriod Reps Dims
              StartPos Spacing ScaleFactor CenterOffset Trig RotAngle = Some p
    /\ loopsOK p.
Proof.
  unfold pGridProt. cbv zeta.
  destruct (Req_dec_T RotAngle 0) as [E|E].
  - eexists. split; [reflexivity|].
    destruct (1 <? Iterations);
      (eapply effect_loopsOK; [effect_steps | reflexivity]).
  - match goal with |- context [getCentroid 4 ?l] =>
      destruct (getCentroid_4 l) as [c Hc]; rewrite Hc end.
    eexists. split; [reflexivity|].
    destruct (1 <? Iterations);
      (eapply effect_loopsOK; [effect_steps | reflexivity]).
Qed.

Lemma effect_target_loop (gCoordArr : list gCoord.t) :
  forall (k EpisodeStart EpisodePeriod Baseline TimeOn ISI NumPulses
          Iterations : Z) (Trig : Trigger),
    effect (target_loop gCoordArr k EpisodeStart EpisodePeriod Baseline TimeOn
                        ISI NumPulses Iterations Trig) Some.
Proof.
  induction gCoordArr as [|g rest IH]; intros; simpl.
  - apply effect_ret.
  - destruct (1 <? Iterations);
      (eapply effect_ext;
       [ repeat first
           [ apply IH | apply effect_triggerAt | apply effect_pulses_whole
           | apply effect_ret | apply effect_link | eapply effect_seq ]
       | intros d; reflexivity ]).
Qed.

Lemma effect_rapid_loop (gCoordArr : list gCoord.t) :
  forall m PulseStart TimeOn ISI : Z,
    effect (rapid_loop gCoordArr m PulseStart TimeOn ISI) Some.
Proof.
  induction gCoordArr as [|g rest IH]; intros; simpl.
  - apply effect_ret.
  - eapply effect_ext;
      [ repeat first [ apply IH | apply effect_link | eapply effect_seq ]
      | intros d; reflexivity ].
Qed.

Lemma targetProt_loopsOK (pCoordArr : list Coord.t)
    (Baseline TimeOn NumPulses ISI Iterations EpisodePeriod Reps NumPoints
     ScaleFactor : Z) (CenterOffset : Coord.t) (Trig : Trigger) (RotAngle : R) :
  (exists p,
     targetProt pCoordArr Baseline TimeOn NumPulses ISI Iterations
                EpisodePeriod Reps NumPoints ScaleFactor CenterOffset Trig
                RotAngle = Some p
     /\ loopsOK p)
  \/ (targetProt pCoordArr Baseline TimeOn NumPulses ISI Iterations
                 EpisodePeriod Reps NumPoints ScaleFactor CenterOffset Trig
                 RotAngle = None
      /\ NumPoints = 0 /\ RotAngle <> 0%R).
Proof.
  unfold targetProt. cbv zeta.
  destruct (rotateAll_cases NumPoints pCoordArr RotAngle)
    as [[arr Harr] | [Hnone Hwhy]]; [rewrite Harr | rewrite Hnone].
  - left. eexists. split; [reflexivity|].
    eapply effect_loopsOK;
      [ repeat first
          [ apply effect_target_loop | apply effect_link | eapply effect_seq ]
      | reflexivity ].
  - right. auto.
Qed.

Lemma pRapidTargetProt_loopsOK (TargetFile : list Z)
    (Baseline TimeOn ISI EpisodePeriod Reps NumPoints ScaleFactor : Z)
    (CenterOffset : Coord.t) (Trig : Trigger) (RotAngle : R) :
  (exists p,
     pRapidTargetProt TargetFile Baseline TimeOn ISI EpisodePeriod Reps
                      NumPoints ScaleFactor CenterOffset Trig RotAngle = Some p
     /\ loopsOK p)
  \/ (pRapidTargetProt TargetFile Baseline TimeOn ISI EpisodePeriod Reps
                       NumPoints ScaleFactor CenterOffset Trig RotAngle = None
      /\ NumPoints = 0 /\ RotAngle <> 0%R).
Proof.
  unfold pRapidTargetProt. cbv zeta.
  destruct (rotateAll_cases NumPoints (getCoords TargetFile NumPoints) RotAngle)
    as [[arr Harr] | [Hnone Hwhy]]; [rewrite Harr | rewrite Hnone].
  - left. eexists. split; [reflexivity|].
    eapply effect_loopsOK;
      [ repeat first
          [ apply effect_rapid_loop | apply effect_triggerAt
          | apply effect_link | eapply effect_seq ]
      | reflexivity ].
  - right. auto.
Qed.

(** C5.  Whatever the parameters, the protocol each of the six generators
    emits has as many loop Starts as loop Ends, every Start before its End
    and every End after its Start.  [buildSpot], [buildGrid] and
    [buildRapidGrid] always emit a protocol; the three generators that read
    points emit one unless they are asked to rotate an empty point list,
    where the centroid's division by the point count traps. *)
Theorem generators_loops_matched :
  (forall Baseline TimeOn NumPulses ISI EpisodePeriod Reps Pos ScaleFactor
          CenterOffset Trig,
      loopsOK (pSpotProt Baseline TimeOn NumPulses ISI EpisodePeriod Reps Pos
                         ScaleFactor CenterOffset Trig))
  /\ (forall Baseline TimeOn NumPulses ISI Iterations EpisodePeriod Reps Dims
             StartPos Spacing ScaleFactor CenterOffset Trig RotAngle,
        exists p,
          pGridProt Baseline TimeOn NumPulses ISI Iterations EpisodePeriod
                    Reps Dims StartPos Spacing ScaleFactor CenterOffset Trig
                    RotAngle = Some p
          /\ loopsOK p)
  /\ (forall TargetFile Baseline TimeOn NumPulses ISI Iterations EpisodePeriod
             Reps NumPoints ScaleFactor CenterOffset Trig RotAngle,
        (exists p,
           pTargetProt TargetFile Baseline TimeOn NumPulses ISI Iterations
                       EpisodePeriod Reps NumPoints ScaleFactor CenterOffset
                       Trig RotAngle = Some p
           /\ loopsOK p)
        \/ (pTargetProt TargetFile Baseline TimeOn NumPulses ISI Iterations
                        EpisodePeriod Reps NumPoints ScaleFactor CenterOffset
                        Trig RotAngle = None
            /\ NumPoints = 0 /\ RotAngle <> 0%R))
  /\ (forall Baseline TimeOn ISI EpisodePeriod Reps Dims StartPos Spacing
             ScaleFactor CenterOffset Trig RotAngle,
        loopsOK (pRapidGridProt Baseline TimeOn ISI EpisodePeriod Reps Dims
                                StartPos Spacing ScaleFactor CenterOffset Trig
                                RotAngle))
  /\ (forall TargetFile Baseline TimeOn ISI EpisodePeriod Reps NumPoints
             ScaleFactor CenterOffset Trig RotAngle,
        (exists p,
           pRapidTargetProt TargetFile Baseline TimeOn ISI EpisodePeriod Reps
                            NumPoints ScaleFactor CenterOffset Trig RotAngle
           = Some p
           /\ loopsOK p)
        \/ (pRapidTargetProt TargetFile Baseline TimeOn ISI EpisodePeriod Reps
                             NumPoints ScaleFactor CenterOffset Trig RotAngle
            = None
            /\ NumPoints = 0 /\ RotAngle <> 0%R))
  /\ (forall PatternFile Baseline TimeOn NumPulses ISI Iterations
             EpisodePeriod Reps StartPos Spacing ScaleFactor CenterOffset Trig
             RotAngle,
        (exists p,
           pPatternProt PatternFile Baseline TimeOn NumPulses ISI Iterations
                        EpisodePeriod Reps StartPos Spacing ScaleFactor
                        CenterOffset Trig RotAngle = Some p
           /\ loopsOK p)
        \/ (pPatternProt PatternFile Baseline TimeOn NumPulses ISI Iterations
                         EpisodePeriod Reps StartPos Spacing ScaleFactor
                         CenterOffset Trig RotAngle = None
            /\ u16 (getNumPoints PatternFile) = 0 /\ RotAngle <> 0%R)).
Proof.
  repeat split; intros.
  - apply pSpotProt_loopsOK.
  - apply pSpotProt_loopsOK.
  - apply pGridProt_loopsOK.
  - apply targetProt_loopsOK.
  - apply pRapidGridProt_loopsOK.
  - apply pRapidGridProt_loopsOK.
  - apply pRapidTargetProt_loopsOK.
  - apply targetProt_loopsOK.
Qed.

(** ** Rotation in pixel space *)

Lemma Int_part_IZR (z : Z) : Int_part (IZR z) = z.
Proof. symmetry. apply Int_part_spec. lra. Qed.



Lemma trunc_IZR (z : Z) : trunc (IZR z) = z.
Proof.
  unfold trunc. destruct (Rle_dec 0 (IZR z)) as [H|H].
  - apply Int_part_IZR.
  - replace (- IZR z)%R with (IZR (- z)) by apply opp_IZR.
    rewrite Int_part_IZR. lia.
Qed.


(** In binary64 the same products and sums are exact: with cos 0 = 1 and
    sin 0 = 0 the two rotated components of the offset (4, 4) are 4. *)
Lemma rotateCoord_angle_0_binary64 :
  round_to_int64 (PrimFloat.sub (PrimFloat.mul 4 1) (PrimFloat.mul 4 0)) = Some 4
  /\ round_to_int64 (PrimFloat.add (PrimFloat.mul 4 0) (PrimFloat.mul 4 1))
     = Some 4.
Proof. split; vm_compute; reflexivity. Qed.


(** ** The scale factor *)

Lemma store_at_length (rs tl : list float) (x v : float) :
  store (rs ++ x :: tl) (List.length rs) v = rs ++ v :: tl.
Proof. induction rs as [|r rs IH]; simpl; [reflexivity | now rewrite IH]. Qed.

Lemma ratios_galvo_length (ab : CalPoint * CalPoint) :
  (List.length (ratios_galvo ab) <= 2)%nat.
Proof.
  unfold ratios_galvo.
  destruct (fne _ _); destruct (fne _ _); simpl; lia.
Qed.

Lemma flat_map_ratios_length (l : list (CalPoint * CalPoint)) :
  (List.length (flat_map ratios_galvo l) <= 2 * List.length l)%nat.
Proof.
  induction l as [|ab l IH]; simpl; [lia|].
  rewrite length_app. pose proof (ratios_galvo_length ab). lia.
Qed.

Lemma pairsOf_length (l : list CalPoint) :
  (2 * List.length (pairsOf l) = List.length l * (List.length l - 1))%nat.
Proof.
  induction l as [|a l IH]; simpl; [reflexivity|].
  rewrite length_app, length_map. nia.
Qed.

Lemma firstn_skipn_S {A : Type} (d : A) (l : list A) (j cnt : nat) :
  (j < List.length l)%nat ->
  firstn (S cnt) (skipn j l) = nth j l d :: firstn cnt (skipn (S j) l).
Proof.
  revert j. induction l as [|x l IH]; intros j H; simpl in H; [lia|].
  destruct j as [|j]; [reflexivity|].
  simpl skipn. simpl nth. apply IH. lia.
Qed.

Lemma skipn_nth_cons {A : Type} (d : A) (l : list A) (i : nat) :
  (i < List.length l)%nat -> skipn i l = nth i l d :: skipn (S i) l.
Proof.
  revert i. induction l as [|x l IH]; intros i H; simpl in H; [lia|].
  destruct i as [|i]; [reflexivity|]. simpl. apply IH. lia.
Qed.

(** The loops over an array [scaleArr] of [Nmax] slots, for the calibration
    arrays [arr]: as long as there is room, they store the galvo-guarded
    ratios of the pairs they visit, in order, behind those already there. *)
Section ScaleArray.

Variable Nmax : nat.
Variable arr : list CalPoint.

Lemma store_slots (rs : list float) (v : float) :
  (List.length rs < Nmax)%nat ->
  (store (fst (slots Nmax rs)) (snd (slots Nmax rs)) v,
   S (snd (slots Nmax rs)))
  = slots Nmax (rs ++ [v]).
Proof.
  intros H. unfold slots. cbn [fst snd].
  rewrite length_app. cbn [List.length].
  replace (List.length rs + 1)%nat with (S (List.length rs)) by lia.
  replace (Nmax - List.length rs)%nat with (S (Nmax - S (List.length rs))) by lia.
  cbn [repeat]. rewrite store_at_length, <- app_assoc. reflexivity.
Qed.

Lemma scale_pair_slots (i j : nat) (rs : list float) :
  i <> j -> (List.length rs + 2 <= Nmax)%nat ->
  scale_pair arr i j (slots Nmax rs)
  = slots Nmax (rs ++ ratios_galvo (nth i arr zeroCal, nth j arr zeroCal)).
Proof.
  intros Hij Hfit. unfold scale_pair, ratios_galvo.
  apply Nat.eqb_neq in Hij. rewrite Hij. cbn [fst snd].
  destruct (fne (galvoX (nth i arr zeroCal)) (galvoX (nth j arr zeroCal))).
  - rewrite store_slots by lia.
    destruct (fne (galvoY (nth i arr zeroCal)) (galvoY (nth j arr zeroCal))).
    + rewrite store_slots by (rewrite length_app; simpl; lia).
      now rewrite <- app_assoc.
    + reflexivity.
  - destruct (fne (galvoY (nth i arr zeroCal)) (galvoY (nth j arr zeroCal))).
    + rewrite store_slots by lia. reflexivity.
    + simpl. now rewrite app_nil_r.
Qed.

Lemma scale_inner_slots (i : nat) :
  forall (cnt j : nat) (rs : list float),
    (i < j)%nat -> (j + cnt <= List.length arr)%nat ->
    (List.length rs + 2 * cnt <= Nmax)%nat ->
    scale_inner cnt arr i j (slots Nmax rs)
    = slots Nmax
        (rs ++ flat_map ratios_galvo
                 (map (pair (nth i arr zeroCal)) (firstn cnt (skipn j arr)))).
Proof.
  induction cnt as [|cnt IH]; intros j rs Hij Hlen Hfit.
  - simpl. now rewrite app_nil_r.
  - simpl scale_inner. rewrite scale_pair_slots by lia.
    rewrite IH.
    + rewrite (firstn_skipn_S zeroCal) by lia. simpl. now rewrite <- app_assoc.
    + lia.
    + lia.
    + rewrite length_app.
      pose proof (ratios_galvo_length (nth i arr zeroCal, nth j arr zeroCal)).
      lia.
Qed.

Lemma scale_outer_slots :
  forall (cnt i : nat) (rs : list float),
    (i + cnt = List.length arr)%nat ->
    (List.length rs + 2 * List.length (pairsOf (skipn i arr)) <= Nmax)%nat ->
    scale_outer cnt (List.length arr) arr i (slots Nmax rs)
    = slots Nmax (rs ++ flat_map ratios_galvo (pairsOf (skipn i arr))).
Proof.
  induction cnt as [|cnt IH]; intros i rs Hlen Hfit.
  - simpl. rewrite skipn_all2 by lia. simpl. now rewrite app_nil_r.
  - simpl scale_outer.
    rewrite (skipn_nth_cons zeroCal) in Hfit |- * by lia.
    assert (List.length (skipn (S i) arr) = List.length arr - S i)%nat as HL
      by apply length_skipn.
    pose proof (flat_map_ratios_length
                  (map (pair (nth i arr zeroCal)) (skipn (S i) arr))) as HF.
    rewrite length_map in HF.
    rewrite scale_inner_slots; [| lia | lia | ].
    + rewrite firstn_all2 by lia.
      rewrite IH; [| lia | ].
      * remember (skipn (S i) arr) as rest. cbn [pairsOf].
        now rewrite flat_map_app, app_assoc.
      * remember (skipn (S i) arr) as rest. cbn [pairsOf] in Hfit.
        rewrite length_app, length_map in Hfit. rewrite length_app. lia.
    + remember (skipn (S i) arr) as rest. cbn [pairsOf] in Hfit.
      rewrite length_app, length_map in Hfit. lia.
Qed.

(** The averaging loop skips the zeros behind the stored ratios. *)
Lemma fold_average_zeros (k : nat) (s : float) :
  fold_left average_step (repeat 0%float k) s = s.
Proof. induction k as [|k IH]; simpl; [reflexivity | exact IH]. Qed.

Lemma average_slots (rs : list float) :
  (0 < Nmax)%nat ->
  match fst (slots Nmax rs) with
  | [] => None
  | scalefactor :: rest => Some (fold_left average_step rest scalefactor)
  end
  = Some (runningAverage rs).
Proof.
  intros HN. unfold slots. cbn [fst]. destruct rs as [|r0 rest].
  - cbn [app List.length runningAverage].
    destruct (Nmax - 0)%nat as [|k] eqn:E; [lia|].
    cbn [repeat]. now rewrite fold_average_zeros.
  - cbn [app runningAverage]. now rewrite fold_left_app, fold_average_zeros.
Qed.

End ScaleArray.

(** Up to 32768 points the array size is computed without overflow. *)
Lemma Nmax_nat (n : nat) :
  Z.of_nat n <= 32768 ->
  Z.to_nat (s32 (s32 (2 * Z.of_nat n) * s32 (Z.of_nat n - 1)))
  = (2 * n * (n - 1))%nat.
Proof.
  intros H. destruct n as [|n]; [reflexivity|].
  rewrite (s32_small (2 * _)) by lia.
  rewrite (s32_small (_ - 1)) by lia.
  rewrite s32_small by nia.
  replace (Z.of_nat (S n) - 1) with (Z.of_nat n) by lia.
  replace (S n - 1)%nat with n by lia.
  rewrite <- Nat2Z.inj_mul with (n := 2%nat), <- Nat2Z.inj_mul.
  apply Nat2Z.id.
Qed.

(** *** The read loop *)

Lemma last_cons_cons (l v : CalPoint) (rest : list CalPoint) :
  last (l :: rest) v = last rest l.
Proof.
  revert l v. induction rest as [|x rest IH]; intros l v; [reflexivity|].
  change (last (l :: x :: rest) v) with (last (x :: rest) v).
  now rewrite !IH.
Qed.

Lemma firstn_app_repeat_S (cnt : nat) (fp : list CalPoint) (x : CalPoint) :
  firstn cnt (fp ++ repeat x (S cnt)) = firstn cnt (fp ++ repeat x cnt).
Proof.
  change (repeat x (S cnt)) with (x :: repeat x cnt).
  rewrite repeat_cons, app_assoc, firstn_app.
  replace (cnt - List.length (fp ++ repeat x cnt))%nat with 0%nat
    by (rewrite length_app, repeat_length; lia).
  cbn [firstn]. now rewrite app_nil_r.
Qed.

(** Once the variables hold a line, the loop stores the lines that are left
    and then the last one read, again and again. *)
Lemma calRead_loop_vars :
  forall (cnt : nat) (fp : list CalPoint) (v : CalPoint),
    calRead_loop cnt fp (Some v)
    = Some (firstn cnt (fp ++ repeat (last fp v) cnt)).
Proof.
  induction cnt as [|cnt IH]; intros fp v; [reflexivity|].
  destruct fp as [|l rest]; cbn [calRead_loop fscanf_lf4]; rewrite IH.
  - reflexivity.
  - rewrite last_cons_cons.
    change ((l :: rest) ++ repeat (last rest l) (S cnt))
      with (l :: (rest ++ repeat (last rest l) (S cnt))).
    cbn [firstn]. now rewrite firstn_app_repeat_S.
Qed.

Lemma calRead_loop_file (NumPoints : Z) (calibrationFile : list CalPoint) :
  calibrationFile <> [] ->
  calRead_loop (Z.to_nat NumPoints) calibrationFile None
  = Some (pointsRead NumPoints calibrationFile).
Proof.
  intros Hfile. unfold pointsRead. cbv zeta.
  destruct calibrationFile as [|l rest]; [contradiction|].
  rewrite <- (calRead_loop_vars _ _ zeroCal).
  destruct (Z.to_nat NumPoints); reflexivity.
Qed.

(** From an empty file the first slot is filled from variables that were
    never assigned. *)
Lemma calRead_loop_empty (cnt : nat) :
  calRead_loop (S cnt) [] None = None.
Proof. reflexivity. Qed.

Lemma pointsRead_length (NumPoints : Z) (calibrationFile : list CalPoint) :
  List.length (pointsRead NumPoints calibrationFile) = Z.to_nat NumPoints.
Proof.
  unfold pointsRead. cbv zeta.
  rewrite length_firstn, length_app, repeat_length. lia.
Qed.

(** A file with a line for every point is read as it is. *)
Lemma pointsRead_enough (NumPoints : Z) (calibrationFile : list CalPoint) :
  NumPoints <= Z.of_nat (List.length calibrationFile) ->
  pointsRead NumPoints calibrationFile
  = firstn (Z.to_nat NumPoints) calibrationFile.
Proof.
  intros H. unfold pointsRead. cbv zeta. rewrite firstn_app.
  replace (Z.to_nat NumPoints - List.length calibrationFile)%nat with 0%nat
    by lia.
  cbn [firstn]. apply app_nil_r.
Qed.

(** The array code computes the running average of the galvo-guarded
    ratios of the points it read. *)
Lemma scalefactor_fold (NumPoints : Z) (calibrationFile : list CalPoint) :
  2 <= NumPoints <= 32768 ->
  calibrationFile <> [] ->
  scalefactor NumPoints calibrationFile
  = Some (runningAverage
            (flat_map ratios_galvo
               (pairsOf (pointsRead NumPoints calibrationFile)))).
Proof.
  intros HN Hfile. unfold scalefactor. cbv zeta.
  rewrite calRead_loop_file by exact Hfile.
  set (pts := pointsRead NumPoints calibrationFile).
  assert (List.length pts = Z.to_nat NumPoints) as HL
    by apply pointsRead_length.
  rewrite <- HL.
  replace NumPoints with (Z.of_nat (List.length pts)) at 1 2 by lia.
  rewrite Nmax_nat by lia.
  set (Nmax := (2 * List.length pts * (List.length pts - 1))%nat).
  assert (0 < Nmax)%nat as Hpos by (unfold Nmax; nia).
  assert ((repeat 0%float Nmax, 0%nat) = slots Nmax []) as ->
    by (unfold slots; simpl; now rewrite Nat.sub_0_r).
  rewrite scale_outer_slots.
  - simpl skipn. simpl app.
    destruct (slots Nmax (flat_map ratios_galvo (pairsOf pts))) as [arr N] eqn:E.
    replace arr with (fst (slots Nmax (flat_map ratios_galvo (pairsOf pts))))
      by now rewrite E.
    apply average_slots. exact Hpos.
  - simpl. lia.
  - simpl skipn. simpl List.length. rewrite pairsOf_length. unfold Nmax. nia.
Qed.

(** With fewer than two points the array of ratios is empty and its first
    slot is read all the same; from an empty file the points are never
    assigned. *)
Lemma scalefactor_undefined (NumPoints : Z) (calibrationFile : list CalPoint) :
  0 <= NumPoints ->
  NumPoints < 2 \/ calibrationFile = [] ->
  scalefactor NumPoints calibrationFile = None.
Proof.
  intros H0 H. unfold scalefactor. cbv zeta.
  destruct (Z.to_nat NumPoints) as [|[|n]] eqn:En.
  - assert (NumPoints = 0) as -> by lia. reflexivity.
  - destruct calibrationFile as [|l rest]; [reflexivity|].
    assert (NumPoints = 1) as -> by lia. reflexivity.
  - destruct H as [H | E]; [lia | subst calibrationFile; reflexivity].
Qed.

(** C7 fails as stated: the code asks whether the galvo coordinates of a
    pair differ, not the pixel coordinates.  For the points
    (galvo (0,0), pixel (0,0)) and (galvo (0,100), pixel (50,50)) the code
    records the single ratio 100/50 and returns 2; read by pixel coordinates
    the X axis counts too, its ratio 0/50 seeds the average, and the result
    is 1.  For the points (galvo (0,0), pixel (0,0)) and
    (galvo (100,100), pixel (0,50)) the code divides 100 by 0 on the X axis
    and averages infinity in; read by pixel coordinates the X axis is left
    out and the result is 2. *)
Lemma calcScaling_guards_on_galvo :
  calcScaling 2 [mkCal 0 0 0 0; mkCal 0 100 50 50] = Some 2
  /\ calcScaling_spec [mkCal 0 0 0 0; mkCal 0 100 50 50] = Some 1
  /\ scalefactor 2 [mkCal 0 0 0 0; mkCal 100 100 0 50] = Some infinity
  /\ calcScaling 2 [mkCal 0 0 0 0; mkCal 100 100 0 50] = None
  /\ calcScaling_spec [mkCal 0 0 0 0; mkCal 100 100 0 50] = Some 2.
Proof. repeat split; vm_compute; reflexivity. Qed.

(** C7, amended.  For every calibration input of 2 to 32768 points (the
    bound up to which the array size fits an [int]) read from a file that is
    not empty, where a file with fewer lines than points gives its last line
    again for each missing point, [calcScaling] takes, for every unordered
    pair of points whose galvo X (respectively Y) coordinates differ, the
    ratio of the absolute galvo difference to the absolute pixel difference
    on that axis, folds the ratios by the running average seeded with the
    first one, averaging each later non-zero ratio in, and rounds to the
    nearest integer.  With fewer than two points, or from an empty file, the
    result is not defined.  On the three calibration points of the
    specification it returns 2. *)
Theorem calcScaling_running_average :
  (forall (NumPoints : Z) (calibrationFile : list CalPoint),
     2 <= NumPoints <= 32768 -> calibrationFile <> [] ->
     calcScaling NumPoints calibrationFile
     = round_to_int64
         (runningAverage
            (flat_map ratios_galvo
               (pairsOf (pointsRead NumPoints calibrationFile)))))
  /\ (forall (NumPoints : Z) (calibrationFile : list CalPoint),
        0 <= NumPoints -> NumPoints < 2 \/ calibrationFile = [] ->
        calcScaling NumPoints calibrationFile = None)
  /\ calcScaling 3 [mkCal 0 0 0 0; mkCal 100 0 50 0; mkCal 0 100 0 50]
     = Some 2.
Proof.
  split; [|split].
  - intros NumPoints calibrationFile HN Hfile. unfold calcScaling.
    now rewrite scalefactor_fold.
  - intros NumPoints calibrationFile H0 H. unfold calcScaling.
    now rewrite scalefactor_undefined.
  - vm_compute. reflexivity.
Qed.

Lemma calcScaling_running_average_witness :
  calcScaling 8 [mkCal 10 10 10 10; mkCal 30 30 20 20]
  = round_to_int64
      (runningAverage
         (flat_map ratios_galvo
            (pairsOf
               (pointsRead 8 [mkCal 10 10 10 10; mkCal 30 30 20 20]))))
  /\ pointsRead 8 [mkCal 10 10 10 10; mkCal 30 30 20 20]
     = mkCal 10 10 10 10 :: repeat (mkCal 30 30 20 20) 7
  /\ calcScaling 8 [mkCal 10 10 10 10; mkCal 30 30 20 20] = Some 2.
Proof.
  split; [|split].
  - apply (proj1 calcScaling_running_average 8
             [mkCal 10 10 10 10; mkCal 30 30 20 20]).
    + lia.
    + discriminate.
  - reflexivity.
  - vm_compute. reflexivity.
Defined.

(** ** Sequences of appends *)

Lemma call_links (a : AppendCall) :
  exists c, call a = link c /\ DSPCmd c = "A"%char /\ 0 <= Cycle c < 2 ^ 32.
Proof.
  destruct a; cbn [call]; unfold appendLoop;
    try (destruct (Ascii.eqb StartOrEnd "S");
         [|destruct (Ascii.eqb StartOrEnd "E")]);
    eexists; (split; [reflexivity|]);
    (split; [reflexivity | apply u32_range]).
Qed.

(** X1.  Whatever the calls and their arguments, each append function reports
    success, adds one command behind those already in the protocol and
    leaves those as they were; the new commands carry the control character
    A and a cycle within 32 bits. *)
Theorem append_calls_extend :
  forall (l : list AppendCall) (p : ScanProt),
  exists q : ScanProt,
    calls l p = (repeat 0 (List.length l), p ++ q)
    /\ List.length q = List.length l
    /\ NumCmds (p ++ q) = NumCmds p + Z.of_nat (List.length l)
    /\ Forall (fun c => DSPCmd c = "A"%char /\ 0 <= Cycle c < 2 ^ 32) q.
Proof.
  induction l as [|a l IH]; intros p.
  - exists []. unfold calls, ret. rewrite app_nil_r. unfold NumCmds. simpl.
    repeat split; [lia | constructor].
  - destruct (call_links a) as [c [Hc [HA HC]]].
    destruct (IH (p ++ [c])) as [q [Hq [Hlen [_ Hall]]]].
    exists (c :: q). cbn [calls]. unfold bind at 1. rewrite Hc, link_spec.
    unfold bind at 1. rewrite Hq. unfold ret. rewrite <- app_assoc. simpl.
    repeat split.
    + now rewrite Hlen.
    + unfold NumCmds. rewrite length_app. simpl. lia.
    + constructor; [split; assumption | exact Hall].
Qed.

(** ** The loop designator *)

(** X2.  [appendLoop] reports success for every designator.  With S or E the
    command carries the designator and the repetitions; with any other
    character the node keeps the zero scan character and the zero value of
    its allocation, and its line in the protocol string is the single
    character A, without a newline. *)
Theorem appendLoop_designator :
  forall (StartOrEnd : ascii) (cycle repetitions : Z) (p : ScanProt),
    appendLoop START cycle repetitions p
    = (0, p ++ [mkCmd "A" "S" (u32 cycle) Chan.LOOP (s64 repetitions)])
    /\ appendLoop END cycle repetitions p
       = (0, p ++ [mkCmd "A" "E" (u32 cycle) Chan.LOOP (s64 repetitions)])
    /\ (StartOrEnd <> START -> StartOrEnd <> END ->
        appendLoop StartOrEnd cycle repetitions p
        = (0, p ++ [mkCmd "A" NUL (u32 cycle) Chan.LOOP 0])
        /\ ProtToString (exec (appendLoop StartOrEnd cycle repetitions) p)
           = (ProtToString p ++ "A")%string).
Proof.
  intros d cycle repetitions p. unfold appendLoop.
  split; [|split].
  - simpl. now rewrite link_spec.
  - simpl. now rewrite link_spec.
  - intros HS HE.
    apply Ascii.eqb_neq in HS, HE. unfold START, END in HS, HE.
    rewrite HS, HE. cbn [DSPCmd ScanCmd Cycle Channel Value].
    unfold exec. rewrite link_spec. split; [reflexivity|].
    cbn [snd]. unfold ProtToString. rewrite fold_left_app. reflexivity.
Qed.

Lemma appendLoop_designator_witness :
  appendLoop "X" 10 3 [] = (0, [mkCmd "A" NUL 10 Chan.LOOP 0])
  /\ ProtToString (exec (appendLoop "X" 10 3) []) = (ProtToString [] ++ "A")%string.
Proof.
  apply (proj2 (proj2 (appendLoop_designator "X" 10 3 []))); discriminate.
Defined.

(** ** The length of a decimal *)

Lemma usize_nb_digits (d : Decimal.uint) :
  DecimalPos.Unsigned.usize d = N.of_nat (Decimal.nb_digits d).
Proof. induction d; simpl DecimalPos.Unsigned.usize; simpl Decimal.nb_digits; rewrite ?IHd; lia. Qed.

Lemma to_uint_unorm (p : positive) :
  Decimal.unorm (Pos.to_uint p) = Pos.to_uint p.
Proof.
  rewrite <- (DecimalPos.Unsigned.to_of (Pos.to_uint p)), DecimalPos.Unsigned.of_to. reflexivity.
Qed.

Lemma of_uint_lower (d : Decimal.uint) :
  Decimal.unorm d = d -> d <> Decimal.zero ->
  (10 ^ (DecimalPos.Unsigned.usize d - 1) <= Pos.of_uint d)%N.
Proof.
  intros Hn Hz. rewrite DecimalPos.Unsigned.of_uint_alt.
  destruct d as [|d|d|d|d|d|d|d|d|d|d];
    try (unfold Decimal.rev; cbn [Decimal.revapp]; rewrite DecimalPos.Unsigned.of_lu_revapp;
         cbn [DecimalPos.Unsigned.usize DecimalPos.Unsigned.of_lu];
         replace (N.succ (DecimalPos.Unsigned.usize d) - 1)%N with (DecimalPos.Unsigned.usize d) by lia;
         cbn [DecimalPos.Unsigned.of_lu]; nia).
  - discriminate Hn.
  - exfalso. unfold Decimal.unorm in Hn. cbn [Decimal.nzhead] in Hn.
    destruct (Decimal.nzhead d) eqn:E; try discriminate.
    + injection Hn as <-. now apply Hz.
    + exact (DecimalFacts.nzhead_nonzero _ _ E).
Qed.

Lemma nb_digits_to_uint (p : positive) (m : N) :
  (N.pos p < 10 ^ m)%N -> (Decimal.nb_digits (Pos.to_uint p) <= N.to_nat m)%nat.
Proof.
  intros H.
  pose proof (of_uint_lower (Pos.to_uint p) (to_uint_unorm p)
                            (DecimalPos.Unsigned.to_uint_nonzero p)) as L.
  rewrite DecimalPos.Unsigned.of_to in L.
  assert (10 ^ (DecimalPos.Unsigned.usize (Pos.to_uint p) - 1) < 10 ^ m)%N as Hlt by lia.
  apply N.pow_lt_mono_r_iff in Hlt; [|lia].
  rewrite usize_nb_digits in Hlt. lia.
Qed.

Lemma length_string_of_uint (d : Decimal.uint) :
  String.length (NilEmpty.string_of_uint d) = Decimal.nb_digits d.
Proof. induction d; simpl; congruence. Qed.

Lemma length_dec (z : Z) (m : N) :
  (0 < m)%N -> Z.abs z < 10 ^ Z.of_N m ->
  (String.length (dec z) <= N.to_nat m + (if (z <? 0)%Z then 1 else 0))%nat.
Proof.
  intros Hm H. unfold dec.
  assert (forall p, Z.pos p < 10 ^ Z.of_N m ->
            (String.length (NilZero.string_of_uint (Pos.to_uint p))
             <= N.to_nat m)%nat) as K.
  { intros p Hp. unfold NilZero.string_of_uint.
    assert (N.pos p < 10 ^ m)%N as Hp'.
    { apply N2Z.inj_lt. rewrite N2Z.inj_pow. exact Hp. }
    apply nb_digits_to_uint in Hp'.
    rewrite <- length_string_of_uint in Hp'.
    destruct (Pos.to_uint p); simpl in *; lia. }
  destruct z as [|p|p]; simpl Z.to_int; simpl NilZero.string_of_int.
  - simpl. lia.
  - specialize (K p H). simpl (Z.pos p <? 0). lia.
  - specialize (K p H). simpl. lia.
Qed.

(** ** The protocol string of any protocol *)

Lemma cstr_sprintf (c : CmdLine) : cstr (sprintf_FORMAT c) = lineOf c.
Proof.
  unfold lineOf, sprintf_FORMAT. cbn [cstr].
  destruct (Ascii.eqb (DSPCmd c) NUL) eqn:ED; [reflexivity|].
  destruct (Ascii.eqb (ScanCmd c) NUL) eqn:ES; [reflexivity|].
  do 2 f_equal. apply cstr_nonul.
  simpl. repeat (rewrite ?nonul_app, ?nonul_dec; simpl). reflexivity.
Qed.

Lemma ProtToString_fold (p : ScanProt) (acc : string) :
  fold_left (fun s c => strcat s (sprintf_FORMAT c)) p acc
  = (acc ++ String.concat EmptyString (map lineOf p))%string.
Proof.
  revert acc. induction p as [|c p IH]; intros acc.
  - simpl. induction acc as [|x acc IHa]; simpl; [reflexivity|].
    now rewrite <- IHa.
  - simpl fold_left. rewrite IH. unfold strcat. rewrite cstr_sprintf.
    rewrite map_cons, concat_empty_cons. apply string_app_assoc.
Qed.

(** X3.  For every protocol, whatever its characters: the protocol string is the
    clear line followed, command by command in append order, by the line of
    the command, cut short before a zero control or scan character.
    Appending a command adds its line to the string and changes nothing
    before it; a cleared protocol renders to the clear line alone. *)
Theorem ProtToString_any_protocol :
  forall (p : ScanProt) (c : CmdLine),
    ProtToString p = (CLEAR ++ String.concat EmptyString (map lineOf p))%string
    /\ ProtToString (exec (link c) p) = (ProtToString p ++ lineOf c)%string
    /\ ProtToString (clearProtocol p) = CLEAR.
Proof.
  intros p c. split; [|split; [|reflexivity]].
  - apply ProtToString_fold.
  - unfold exec. rewrite link_spec. cbn [snd]. unfold ProtToString.
    rewrite fold_left_app. simpl. unfold strcat. now rewrite cstr_sprintf.
Qed.

(** ** The buffers of the serializer *)

Lemma length_string_app (s t : string) :
  String.length (s ++ t) = (String.length s + String.length t)%nat.
Proof. induction s as [|c s IH]; simpl; [reflexivity | now rewrite IH]. Qed.

Lemma length_cstr (s : string) : (String.length (cstr s) <= String.length s)%nat.
Proof.
  induction s as [|c s IH]; simpl; [lia|].
  destruct (Ascii.eqb c NUL); simpl; lia.
Qed.

Lemma length_sprintf (c : CmdLine) :
  fieldsTyped c -> (String.length (sprintf_FORMAT c) <= 47)%nat.
Proof.
  intros [HC [HCh HV]]. unfold sprintf_FORMAT. cbn [String.length].
  rewrite !length_string_app. cbn [String.length].
  pose proof (length_dec (Cycle c) 10 ltac:(lia) ltac:(simpl; lia)) as L1.
  pose proof (length_dec (Channel c) 10 ltac:(lia) ltac:(simpl; lia)) as L2.
  pose proof (length_dec (Value c) 19 ltac:(lia) ltac:(simpl; lia)) as L3.
  assert ((Cycle c <? 0) = false) as E by (apply Z.ltb_ge; lia).
  rewrite E in L1.
  destruct (Channel c <? 0); destruct (Value c <? 0); simpl in *; lia.
Qed.

Lemma length_ProtToString_from (p : ScanProt) :
  Forall fieldsTyped p ->
  forall acc,
    (String.length (fold_left (fun s c => strcat s (sprintf_FORMAT c)) p acc)
     <= String.length acc + 47 * List.length p)%nat.
Proof.
  induction 1 as [|c p Hc Hp IH]; intros acc; simpl fold_left.
  - simpl. lia.
  - specialize (IH (strcat acc (sprintf_FORMAT c))).
    assert (String.length (strcat acc (sprintf_FORMAT c))
            = (String.length acc + String.length (cstr (sprintf_FORMAT c)))%nat)
      as E by apply length_string_app.
    rewrite E in IH.
    pose proof (length_cstr (sprintf_FORMAT c)).
    pose proof (length_sprintf c Hc). simpl List.length. lia.
Qed.

Lemma lines_within_NextLine (p : ScanProt) :
  Forall fieldsTyped p ->
  Forall (fun c => bytes (sprintf_FORMAT c) <= 48 <= NextLine_size) p.
Proof.
  intros Hp. apply Forall_forall. intros c Hin.
  rewrite Forall_forall in Hp. pose proof (length_sprintf c (Hp c Hin)).
  unfold bytes, NextLine_size, MAX_CMD_LEN. lia.
Qed.

Lemma string_within_StrProtocol (p : ScanProt) :
  Forall fieldsTyped p ->
  (NumCmds p + 1) * MAX_CMD_LEN < 2 ^ 31 ->
  bytes (ProtToString p) <= StrProtocol_size p.
Proof.
  intros Hp Hfit.
  unfold StrProtocol_size, bytes, ProtToString, MAX_CMD_LEN, NumCmds in *.
  pose proof (length_ProtToString_from p Hp CLEAR) as H. simpl in H.
  rewrite (s32_small (_ + 1)) by lia. rewrite s32_small by lia. lia.
Qed.

(** X4.  For every protocol whose fields hold values of their C types, and whose
    size [NCmds * MAX_CMD_LEN] fits an [int]: the line [sprintf] writes for
    each command, with its terminator, takes at most 48 of the
    [MAX_CMD_LEN] bytes of [NextLine], and the whole string with its
    terminator fits the bytes reserved for [StrProtocol]. *)
Theorem ProtToString_within_buffers :
  forall p : ScanProt,
    Forall fieldsTyped p ->
    (NumCmds p + 1) * MAX_CMD_LEN < 2 ^ 31 ->
    Forall (fun c => bytes (sprintf_FORMAT c) <= 48 <= NextLine_size) p
    /\ bytes (ProtToString p) <= StrProtocol_size p.
Proof.
  intros p Hp Hfit. split.
  - now apply lines_within_NextLine.
  - now apply string_within_StrProtocol.
Qed.

Lemma ProtToString_within_buffers_witness :
  Forall (fun c => bytes (sprintf_FORMAT c) <= 48 <= NextLine_size)
         [mkCmd "A" "V" (2 ^ 32 - 1) (- 2 ^ 31) (- 2 ^ 63)]
  /\ bytes (ProtToString [mkCmd "A" "V" (2 ^ 32 - 1) (- 2 ^ 31) (- 2 ^ 63)])
     <= StrProtocol_size [mkCmd "A" "V" (2 ^ 32 - 1) (- 2 ^ 31) (- 2 ^ 63)].
Proof.
  apply (ProtToString_within_buffers
           [mkCmd "A" "V" (2 ^ 32 - 1) (- 2 ^ 31) (- 2 ^ 63)]).
  - repeat constructor; simpl; lia.
  - vm_compute. reflexivity.
Defined.

(** The bound on a line is reached: the largest cycle, the smallest channel
    and the smallest value give 47 characters. *)
Lemma sprintf_FORMAT_longest :
  bytes (sprintf_FORMAT (mkCmd "A" "V" (2 ^ 32 - 1) (- 2 ^ 31) (- 2 ^ 63))) = 48.
Proof. vm_compute. reflexivity. Qed.

(** ** The strings of the generators *)

Lemma ProtToString_rendered (p : ScanProt) :
  Forall charsOK p -> ProtToString p = rendered p.
Proof. intros H. unfold ProtToString, rendered. now apply ProtToString_from. Qed.

(** X5.  Whatever the parameters, the string each of the six generators returns
    is the clear line followed by the complete line of every command of its
    protocol, in order: no generator emits a command whose line is cut
    short. *)
Theorem generators_strings_complete :
  (forall Baseline TimeOn NumPulses ISI EpisodePeriod Reps Pos ScaleFactor
          CenterOffset Trig,
      buildSpot Baseline TimeOn NumPulses ISI EpisodePeriod Reps Pos
                ScaleFactor CenterOffset Trig
      = rendered (pSpotProt Baseline TimeOn NumPulses ISI EpisodePeriod Reps
                            Pos ScaleFactor CenterOffset Trig))
  /\ (forall Baseline TimeOn NumPulses ISI Iterations EpisodePeriod Reps Dims
             StartPos Spacing ScaleFactor CenterOffset Trig RotAngle,
        buildGrid Baseline TimeOn NumPulses ISI Iterations EpisodePeriod Reps
                  Dims StartPos Spacing ScaleFactor CenterOffset Trig RotAngle
        = option_map rendered
            (pGridProt Baseline TimeOn NumPulses ISI Iterations EpisodePeriod
                       Reps Dims StartPos Spacing ScaleFactor CenterOffset
                       Trig RotAngle))
  /\ (forall TargetFile Baseline TimeOn NumPulses ISI Iterations EpisodePeriod
             Reps NumPoints ScaleFactor CenterOffset Trig RotAngle,
        buildTarget TargetFile Baseline TimeOn NumPulses ISI Iterations
                    EpisodePeriod Reps NumPoints ScaleFactor CenterOffset Trig
                    RotAngle
        = option_map rendered
            (pTargetProt TargetFile Baseline TimeOn NumPulses ISI Iterations
                         EpisodePeriod Reps NumPoints ScaleFactor CenterOffset
                         Trig RotAngle))
  /\ (forall Baseline TimeOn ISI EpisodePeriod Reps Dims StartPos Spacing
             ScaleFactor CenterOffset Trig RotAngle,
        buildRapidGrid Baseline TimeOn ISI EpisodePeriod Reps Dims StartPos
                       Spacing ScaleFactor CenterOffset Trig RotAngle
        = rendered (pRapidGridProt Baseline TimeOn ISI EpisodePeriod Reps Dims
                                   StartPos Spacing ScaleFactor CenterOffset
                                   Trig RotAngle))
  /\ (forall TargetFile Baseline TimeOn ISI EpisodePeriod Reps NumPoints
             ScaleFactor CenterOffset Trig RotAngle,
        buildRapidTarget TargetFile Baseline TimeOn ISI EpisodePeriod Reps
                         NumPoints ScaleFactor CenterOffset Trig RotAngle
        = option_map rendered
            (pRapidTargetProt TargetFile Baseline TimeOn ISI EpisodePeriod
                              Reps NumPoints ScaleFactor CenterOffset Trig
                              RotAngle))
  /\ (forall PatternFile Baseline TimeOn NumPulses ISI Iterations
             EpisodePeriod Reps StartPos Spacing ScaleFactor CenterOffset Trig
             RotAngle,
        buildPattern PatternFile Baseline TimeOn NumPulses ISI Iterations
                     EpisodePeriod Reps StartPos Spacing ScaleFactor
                     CenterOffset Trig RotAngle
        = option_map rendered
            (pPatternProt PatternFile Baseline TimeOn NumPulses ISI Iterations
                          EpisodePeriod Reps StartPos Spacing ScaleFactor
                          CenterOffset Trig RotAngle)).
Proof.
  destruct generators_printable as [HS [HG [HT [HRG HRT]]]].
  repeat split; intros.
  - apply ProtToString_rendered, HS.
  - unfold buildGrid.
    destruct (pGridProt _ _ _ _ _ _ _ _ _ _ _ _ _ _) as [p|] eqn:E;
      [|reflexivity].
    simpl. f_equal. apply ProtToString_rendered. eapply HG, E.
  - unfold buildTarget, pTargetProt.
    destruct (targetProt _ _ _ _ _ _ _ _ _ _ _ _ _) as [p|] eqn:E;
      [|reflexivity].
    simpl. f_equal. apply ProtToString_rendered. eapply HT, E.
  - apply ProtToString_rendered, HRG.
  - unfold buildRapidTarget.
    destruct (pRapidTargetProt _ _ _ _ _ _ _ _ _ _ _) as [p|] eqn:E;
      [|reflexivity].
    simpl. f_equal. apply ProtToString_rendered. eapply HRT, E.
  - unfold buildPattern, pPatternProt.
    destruct (targetProt _ _ _ _ _ _ _ _ _ _ _ _ _) as [p|] eqn:E;
      [|reflexivity].
    simpl. f_equal. apply ProtToString_rendered. eapply HT, E.
Qed.

(** ** The coordinate file *)

Lemma getCoords_loop_length (n : nat) :
  forall fp x y, List.length (getCoords_loop n fp x y) = n.
Proof.
  induction n as [|n IH]; intros fp x y; [reflexivity|].
  cbn [getCoords_loop]. destruct (fscanf_d_d fp x y) as [[x' y'] fp'].
  simpl. now rewrite IH.
Qed.

Lemma last_cons_default {A : Type} (a d : A) (l : list A) :
  last (a :: l) d = last l a.
Proof.
  revert a d. induction l as [|b l IH]; intros a d; [reflexivity|].
  change (last (a :: b :: l) d) with (last (b :: l) d).
  now rewrite !IH.
Qed.

Lemma getCoords_loop_pairs (entries : list (Z * Z)) (rest : list Z) :
  forall (k : nat) (x y : Z),
    getCoords_loop (List.length entries + k) (pairLines entries ++ rest) x y
    = map coordOf entries
      ++ getCoords_loop k rest (fst (last entries (x, y)))
                        (snd (last entries (x, y))).
Proof.
  induction entries as [|[a b] entries IH]; intros k x y.
  - reflexivity.
  - rewrite last_cons_default. simpl. f_equal. apply IH.
Qed.

Lemma getCoords_loop_eof (k : nat) (x y : Z) :
  getCoords_loop k [] x y = repeat (Coord.mk x y) k.
Proof. induction k as [|k IH]; simpl; [reflexivity | now rewrite IH]. Qed.

(** X6.  [getCoords] fills exactly [NumPoints] slots, whatever the file holds;
    from a file with at least [NumPoints] lines it takes the first
    [NumPoints] points, in order. *)
Theorem getCoords_reads_points_in_order :
  forall (CoordFile : list Z) (NumPoints : Z) (entries : list (Z * Z))
         (rest : list Z),
    List.length (getCoords CoordFile NumPoints) = Z.to_nat NumPoints
    /\ getCoords (pairLines entries ++ rest) (Z.of_nat (List.length entries))
       = map coordOf entries.
Proof.
  intros. split.
  - apply getCoords_loop_length.
  - unfold getCoords. rewrite Nat2Z.id.
    rewrite <- (Nat.add_0_r (List.length entries)).
    rewrite getCoords_loop_pairs. simpl. apply app_nil_r.
Qed.

(** X7.  The end of the file does not stop the reading loop: from a file with
    fewer lines than [NumPoints], the slots past the last line are filled
    with the last point read, and with the point (0, 0) if the file is
    empty. *)
Theorem getCoords_short_file :
  forall (entries : list (Z * Z)) (missing : nat),
    getCoords (pairLines entries)
              (Z.of_nat (List.length entries + missing))
    = map coordOf entries ++ repeat (coordOf (last entries (0, 0))) missing.
Proof.
  intros. unfold getCoords. rewrite Nat2Z.id.
  rewrite <- (app_nil_r (pairLines entries)).
  rewrite getCoords_loop_pairs, getCoords_loop_eof. reflexivity.
Qed.

(** ** The header of the pattern file *)

Lemma pairLines_app (a b : list (Z * Z)) :
  pairLines (a ++ b) = pairLines a ++ pairLines b.
Proof.
  induction a as [|[x y] a IH]; simpl; [reflexivity | now rewrite IH].
Qed.

(** X8.  [getNumPoints] reads the three numbers of the header line and returns
    the first; [getPattern] skips one number only.  On a file with that
    header, [getPattern] takes the grid size for the first index pair, every
    point is the index pair of the line before its own, and the last line is
    not read. *)
Theorem getPattern_header_of_three_numbers :
  forall (count xDims yDims : Z) (entries : list (Z * Z)) (e : Z * Z)
         (StartPos Spacing : Coord.t),
    getNumPoints (count :: xDims :: yDims :: pairLines (entries ++ [e]))
    = count
    /\ getPattern (count :: xDims :: yDims :: pairLines (entries ++ [e]))
                  (Z.of_nat (List.length (entries ++ [e]))) StartPos Spacing
       = map (fun e => patternCoord StartPos Spacing (fst e) (snd e))
             ((xDims, yDims) :: entries).
Proof.
  intros. split; [reflexivity|].
  unfold getPattern. rewrite Nat2Z.id. cbn [tl].
  rewrite pairLines_app, length_app, Nat.add_comm.
  apply (getPattern_loop_pairs ((xDims, yDims) :: entries)).
Qed.

(** ** The centroid of a point list *)

Lemma s32_add_l (a b : Z) : s32 (s32 a + b) = s32 (a + b).
Proof. rewrite (Z.add_comm (s32 a)), s32_add_r. f_equal. lia. Qed.

Lemma coordSum_fold (l : list Coord.t) :
  forall a b : Z,
    fold_left (fun s c => Coord.mk (s32 (Coord.X s + Coord.X c))
                                   (s32 (Coord.Y s + Coord.Y c)))
              l (Coord.mk (s32 a) (s32 b))
    = Coord.mk (s32 (a + sumX l)) (s32 (b + sumY l)).
Proof.
  induction l as [|c l IH]; intros a b.
  - unfold sumX, sumY. simpl. now rewrite !Z.add_0_r.
  - simpl fold_left. cbn [Coord.X Coord.Y]. rewrite !s32_add_l, IH.
    unfold sumX, sumY. simpl. now rewrite !Z.add_assoc.
Qed.

(** X9.  The centroid of an empty point list is a division by zero.  Of a list of
    one point or more it is, on each axis, the sum of the coordinates (as an
    [int]) divided by the number of points with the quotient truncated
    toward zero: the call of [round] comes after the integer division and
    changes nothing. *)
Theorem getCentroid_truncated_mean :
  forall (c : Coord.t) (rest CoordArr : list Coord.t),
    getCentroid 0 CoordArr = None
    /\ getCentroid (Z.of_nat (List.length (c :: rest))) (c :: rest)
       = Some (Coord.mk
                 (Z.quot (s32 (sumX (c :: rest)))
                         (Z.of_nat (List.length (c :: rest))))
                 (Z.quot (s32 (sumY (c :: rest)))
                         (Z.of_nat (List.length (c :: rest)))))
    /\ getCentroid 2 [Coord.mk 0 0; Coord.mk 3 (-3)] = Some (Coord.mk 1 (-1)).
Proof.
  intros c rest CoordArr. split; [reflexivity|]. split; [|reflexivity].
  unfold getCentroid. rewrite Nat2Z.id, firstn_all.
  change (Coord.mk 0 0) with (Coord.mk (s32 0) (s32 0)).
  rewrite coordSum_fold. cbn [Coord.X Coord.Y].
  destruct (Z.of_nat (List.length (c :: rest)) =? 0) eqn:E.
  - apply Z.eqb_eq in E. simpl in E. lia.
  - reflexivity.
Qed.

(** ** The conversion to galvo coordinates *)

(** X10.  Every generator converts with angle 0.  There, where the products are
    exact in a double, the galvo coordinate is the offset of the pixel from
    the center offset, scaled and with its sign changed, on each axis. *)
Theorem convertCoord_angle_0 :
  forall (pixelCoord : Coord.t) (ScaleFactor : Z) (CenterOffset : Coord.t),
    Z.abs (ScaleFactor * (Coord.X pixelCoord - Coord.X CenterOffset)) <= 2 ^ 53 ->
    Z.abs (ScaleFactor * (Coord.Y pixelCoord - Coord.Y CenterOffset)) <= 2 ^ 53 ->
    convertCoord pixelCoord ScaleFactor CenterOffset 0
    = gCoord.mk (- (ScaleFactor * (Coord.X pixelCoord - Coord.X CenterOffset)))
                (- (ScaleFactor * (Coord.Y pixelCoord - Coord.Y CenterOffset))).
Proof.
  intros p S c HX HY. unfold convertCoord, cexp_I. cbn [fst snd].
  rewrite cos_0.
  replace (-1 * (IZR S * 1 * (IZR (Coord.X p) - IZR (Coord.X c))))%R
    with (IZR (- (S * (Coord.X p - Coord.X c))))
    by (rewrite opp_IZR, mult_IZR, minus_IZR; lra).
  replace (-1 * (IZR S * 1 * (IZR (Coord.Y p) - IZR (Coord.Y c))))%R
    with (IZR (- (S * (Coord.Y p - Coord.Y c))))
    by (rewrite opp_IZR, mult_IZR, minus_IZR; lra).
  rewrite !trunc_IZR, !s64_small by lia. reflexivity.
Qed.

Lemma convertCoord_angle_0_witness :
  convertCoord (Coord.mk 450 400) 2 (Coord.mk 716 206) 0 = gCoord.mk 532 (-388).
Proof.
  apply (convertCoord_angle_0 (Coord.mk 450 400) 2 (Coord.mk 716 206));
    simpl; lia.
Defined.

(** ** The episode holds the pulse train *)

Lemma coerced_episode_cycles (EpisodePeriod Baseline n ISI : Z) :
  0 <= EpisodePeriod -> 0 <= Baseline -> 0 <= n -> 0 <= ISI ->
  EpisodePeriod * CYCLES_PER_MS < 2 ^ 32 ->
  (Baseline + n * ISI) * CYCLES_PER_MS < 2 ^ 32 ->
  toCycles Baseline + n * toCycles ISI = (Baseline + n * ISI) * CYCLES_PER_MS
  /\ toCycles (coerceEpisode EpisodePeriod Baseline n ISI)
     = Z.max EpisodePeriod (Baseline + n * ISI) * CYCLES_PER_MS.
Proof.
  intros HEP HB Hn HI HfitE Hfit.
  unfold coerceEpisode, toCycles, CYCLES_PER_MS in *.
  assert (0 <= n * ISI) as Hprod by nia.
  rewrite (u32_small (n * ISI)) by lia.
  rewrite (u32_small (Baseline + n * ISI)) by lia.
  rewrite (u32_small (Baseline * 100)) by lia.
  split.
  - destruct (Z.eq_dec n 0) as [->|Hn0]; [lia|].
    rewrite u32_small; [lia|]. nia.
  - destruct (EpisodePeriod <? Baseline + n * ISI) eqn:E.
    + apply Z.ltb_lt in E. rewrite u32_small by lia. lia.
    + apply Z.ltb_ge in E. rewrite u32_small by lia. lia.
Qed.

(** X12.  Where the times in cycles fit 32 bits, the coerced episode period in
    cycles, which is the episode period of [buildSpot], [buildRapidGrid] and
    [buildRapidTarget], is at least the baseline plus [n] inter-stimulus
    intervals, in cycles; [n] is the number of pulses, or of points in the
    rapid generators.  [buildGrid], [buildTarget] and [buildPattern] multiply
    it by [Iterations]: where the product fits 32 bits too, their episode
    period is that many times the coerced period, so it holds the pulse
    train of every iteration, and it is 0 when [Iterations] is 0. *)
Theorem coerced_episode_holds_train :
  forall EpisodePeriod Baseline n ISI : Z,
    0 <= EpisodePeriod -> 0 <= Baseline -> 0 <= n -> 0 <= ISI ->
    EpisodePeriod * CYCLES_PER_MS < 2 ^ 32 ->
    (Baseline + n * ISI) * CYCLES_PER_MS < 2 ^ 32 ->
    let train := toCycles Baseline + n * toCycles ISI in
    let coerced := toCycles (coerceEpisode EpisodePeriod Baseline n ISI) in
    coerced >= train
    /\ forall Iterations : Z,
         0 <= Iterations -> coerced * Iterations < 2 ^ 32 ->
         u32 (coerced * Iterations) = Iterations * coerced
         /\ u32 (coerced * Iterations) >= Iterations * train
         /\ (1 <= Iterations -> u32 (coerced * Iterations) >= train)
         /\ (Iterations = 0 -> u32 (coerced * Iterations) = 0).
Proof.
  intros EP B n ISI HEP HB Hn HI HfitE Hfit train coerced.
  destruct (coerced_episode_cycles EP B n ISI HEP HB Hn HI HfitE Hfit)
    as [Et Ec].
  fold train in Et. fold coerced in Ec.
  assert (0 <= n * ISI) as Hprod by nia.
  assert (0 <= train <= coerced) as Hle
    by (rewrite Et, Ec; unfold CYCLES_PER_MS; lia).
  split; [lia|].
  intros Iterations HI0 Hfits.
  assert (0 <= coerced * Iterations) as Hpos by nia.
  rewrite u32_small by lia.
  repeat split; intros; subst; nia.
Qed.

Lemma coerced_episode_holds_train_witness :
  toCycles (coerceEpisode 2000 400 5 400) >= toCycles 400 + 5 * toCycles 400
  /\ forall Iterations : Z,
       0 <= Iterations ->
       toCycles (coerceEpisode 2000 400 5 400) * Iterations < 2 ^ 32 ->
       u32 (toCycles (coerceEpisode 2000 400 5 400) * Iterations)
       = Iterations * toCycles (coerceEpisode 2000 400 5 400)
       /\ u32 (toCycles (coerceEpisode 2000 400 5 400) * Iterations)
          >= Iterations * (toCycles 400 + 5 * toCycles 400)
       /\ (1 <= Iterations ->
           u32 (toCycles (coerceEpisode 2000 400 5 400) * Iterations)
           >= toCycles 400 + 5 * toCycles 400)
       /\ (Iterations = 0 ->
           u32 (toCycles (coerceEpisode 2000 400 5 400) * Iterations) = 0).
Proof.
  apply (coerced_episode_holds_train 2000 400 5 400);
    try lia; vm_compute; reflexivity.
Defined.

Lemma firstTrigger_app_none (a b : ScanProt) :
  firstTrigger a = None -> firstTrigger (a ++ b) = firstTrigger b.
Proof.
  unfold firstTrigger. induction a as [|c a IH]; simpl; [reflexivity|].
  destruct (triggerBearing c); [discriminate | exact IH].
Qed.

Lemma rotateAll_length (NumPoints : Z) (pCoordArr arr : list Coord.t)
    (RotAngle : R) :
  rotateAll NumPoints pCoordArr RotAngle = Some arr ->
  List.length arr = List.length pCoordArr.
Proof.
  unfold rotateAll. destruct (Req_dec_T RotAngle 0).
  - intros H. apply Some_inj in H. now subst arr.
  - destruct (getCentroid NumPoints pCoordArr); [|discriminate].
    intros H. apply Some_inj in H. subst arr. apply length_map.
Qed.


(** ** The commands of the point loops *)

Lemma writes_seq {A B : Type} (m1 : M A) (m2 : M B) (l1 l2 : ScanProt) :
  writes m1 l1 -> writes m2 l2 -> writes (bind m1 (fun _ => m2)) (l1 ++ l2).
Proof. intros H1 H2. apply writes_bind; [exact H1 | intros _; exact H2]. Qed.

Lemma writes_cons {B : Type} (c : CmdLine) (m2 : M B) (l2 : ScanProt) :
  writes m2 l2 -> writes (bind (link c) (fun _ => m2)) (c :: l2).
Proof. intros H. apply (writes_seq _ _ [c] l2); [apply writes_link | exact H]. Qed.

Lemma writes_appendLoop_START (cy n : Z) :
  writes (appendLoop START cy n) [cmdLoopStart cy n].
Proof. apply writes_link. Qed.

Lemma writes_appendLoop_END (cy n : Z) :
  writes (appendLoop END cy n) [cmdLoopEnd cy n].
Proof. apply writes_link. Qed.

Lemma writes_iter_start (Iterations t : Z) :
  writes (if 1 <? Iterations then appendLoop START t Iterations else ret 0)
         (if 1 <? Iterations then [cmdLoopStart t Iterations] else []).
Proof.
  destruct (1 <? Iterations); [apply writes_link | apply writes_ret].
Qed.

Lemma writes_iter_end (Iterations t : Z) :
  writes (if 1 <? Iterations then appendLoop END t Iterations else ret 0)
         (if 1 <? Iterations then [cmdLoopEnd t Iterations] else []).
Proof.
  destruct (1 <? Iterations); [apply writes_link | apply writes_ret].
Qed.

Lemma writes_target_loop (gCoordArr : list gCoord.t) :
  forall (k EpisodeStart EpisodePeriod Baseline TimeOn ISI NumPulses
          Iterations : Z) (Trig : Trigger),
    writes (target_loop gCoordArr k EpisodeStart EpisodePeriod Baseline TimeOn
                        ISI NumPulses Iterations Trig)
           (targetCmds gCoordArr k EpisodeStart EpisodePeriod Baseline TimeOn
                       ISI NumPulses Iterations Trig).
Proof.
  induction gCoordArr as [|g rest IH]; intros; cbn [target_loop targetCmds].
  - apply writes_ret.
  - unfold episodeCmds. rewrite <- !app_assoc. cbn [app].
    apply writes_cons. apply writes_cons.
    apply writes_seq; [apply writes_iter_start|].
    apply writes_seq; [apply writes_triggerAt|].
    apply writes_seq; [apply writes_pulses_whole_train|].
    apply writes_seq; [apply writes_iter_end|].
    apply IH.
Qed.

Lemma writes_rapid_loop (gCoordArr : list gCoord.t) :
  forall m PulseStart TimeOn ISI : Z,
    writes (rapid_loop gCoordArr m PulseStart TimeOn ISI)
           (rapidCmds gCoordArr m PulseStart TimeOn ISI).
Proof.
  induction gCoordArr as [|g rest IH]; intros; cbn [rapid_loop rapidCmds].
  - apply writes_ret.
  - unfold rapidPointCmds. cbn [app].
    do 4 apply writes_cons. apply IH.
Qed.

(** ** The protocols of the point generators, command by command *)

Lemma targetProt_cmds (pCoordArr arr : list Coord.t)
    (Baseline TimeOn NumPulses ISI Iterations EpisodePeriod Reps NumPoints
     ScaleFactor : Z) (CenterOffset : Coord.t) (Trig : Trigger) (RotAngle : R) :
  rotateAll NumPoints pCoordArr RotAngle = Some arr ->
  let ISI' := coerceISI ISI TimeOn in
  let EP :=
    u32 (toCycles (coerceEpisode EpisodePeriod Baseline NumPulses ISI')
         * Iterations) in
  targetProt pCoordArr Baseline TimeOn NumPulses ISI Iterations EpisodePeriod
             Reps NumPoints ScaleFactor CenterOffset Trig RotAngle
  = Some ([cmdLoopStart 0 Reps]
          ++ targetCmds
               (map (fun c => convertCoord c ScaleFactor CenterOffset 0) arr)
               0 (u32 (0 + TIME_OFFSET)) EP (toCycles Baseline)
               (toCycles TimeOn) (toCycles ISI') NumPulses Iterations Trig
          ++ [cmdLoopEnd (u32 (EP * NumPoints)) Reps]).
Proof.
  intros Harr ISI' EP. unfold targetProt. cbv zeta. rewrite Harr. f_equal.
  apply writes_exec.
  apply writes_seq; [apply writes_appendLoop_START|].
  apply writes_seq; [apply writes_target_loop | apply writes_appendLoop_END].
Qed.

Lemma pRapidTargetProt_cmds (TargetFile : list Z) (arr : list Coord.t)
    (Baseline TimeOn ISI EpisodePeriod Reps NumPoints ScaleFactor : Z)
    (CenterOffset : Coord.t) (Trig : Trigger) (RotAngle : R) :
  rotateAll NumPoints (getCoords TargetFile NumPoints) RotAngle = Some arr ->
  let ISI' := coerceISI ISI TimeOn in
  pRapidTargetProt TargetFile Baseline TimeOn ISI EpisodePeriod Reps NumPoints
                   ScaleFactor CenterOffset Trig RotAngle
  = Some ([cmdLoopStart 0 Reps]
          ++ triggerCmds Trig (u32 (0 + TIME_OFFSET))
          ++ rapidCmds
               (map (fun c => convertCoord c ScaleFactor CenterOffset 0) arr)
               0 (u32 (u32 (0 + TIME_OFFSET) + toCycles Baseline))
               (toCycles TimeOn) (toCycles ISI')
          ++ [cmdLoopEnd
                (toCycles (coerceEpisode EpisodePeriod Baseline NumPoints ISI'))
                Reps]).
Proof.
  intros Harr ISI'. unfold pRapidTargetProt. cbv zeta. rewrite Harr. f_equal.
  apply writes_exec.
  apply writes_seq; [apply writes_appendLoop_START|].
  apply writes_seq; [apply writes_triggerAt|].
  apply writes_seq; [apply writes_rapid_loop | apply writes_appendLoop_END].
Qed.

(** ** The protocols of the grid generators, command by command *)

Lemma pRapidGridProt_cmds (Baseline TimeOn ISI EpisodePeriod Reps : Z)
    (Dims StartPos Spacing : Coord.t) (ScaleFactor : Z)
    (CenterOffset : Coord.t) (Trig : Trigger) (RotAngle : R) :
  let ISI' := toCycles (coerceISI ISI TimeOn) in
  let EP :=
    toCycles (coerceEpisode EpisodePeriod Baseline
                            (s32 (Coord.X Dims * Coord.Y Dims))
                            (coerceISI ISI TimeOn)) in
  let EpisodeStart := u32 (0 + TIME_OFFSET) in
  let PulseStart := u32 (EpisodeStart + toCycles Baseline) in
  let XMoveTime := u32 (EpisodeStart + ISI') in
  let YMoveTime := u32 (EpisodeStart + u32 (Coord.X Dims * ISI')) in
  let g := convertCoord StartPos ScaleFactor CenterOffset 0 in
  let gSpacingX := s64 (s32 (-1 * Coord.X Spacing) * ScaleFactor) in
  let gSpacingY := s64 (s32 (-1 * Coord.Y Spacing) * ScaleFactor) in
  pRapidGridProt Baseline TimeOn ISI EpisodePeriod Reps Dims StartPos Spacing
                 ScaleFactor CenterOffset Trig RotAngle
  = [ cmdLoopStart 0 Reps;
      cmdMove Chan.X 0 (gCoord.X g);
      cmdMove Chan.Y 0 (gCoord.Y g) ]
    ++ triggerCmds Trig EpisodeStart
    ++ [ cmdLoopStart EpisodeStart (Coord.Y Dims);
         cmdLoopStart EpisodeStart (Coord.X Dims);
         cmdTrigOut PulseStart TL_DH;
         cmdTrigOut (u32 (PulseStart + toCycles TimeOn)) TL_DL;
         cmdRel XMoveTime Chan.X (s64 (-1 * gSpacingX));
         cmdLoopEnd XMoveTime (Coord.X Dims);
         cmdRel YMoveTime Chan.Y gSpacingY;
         cmdRel YMoveTime Chan.X (s64 (gSpacingX * Coord.X Dims));
         cmdLoopEnd YMoveTime (Coord.Y Dims);
         cmdLoopEnd (u32 (u32 (EpisodeStart + EP) + PROT_PERIOD)) Reps ].
Proof.
  intros. unfold pRapidGridProt. apply writes_exec.
  do 3 apply writes_cons.
  apply writes_seq; [apply writes_triggerAt|].
  do 9 apply writes_cons. apply writes_link.
Qed.

Local Open Scope prot_scope.

(** The run of appends of [buildGrid] up to the end of the episode. *)
Lemma writes_grid_episode (g : gCoord.t)
    (Reps EpisodeStart Iterations PulseStart TimeOn ISI NumPulses IterEnd : Z)
    (Dims : Coord.t) (Trig : Trigger) :
  writes
    (appendLoop START 0 Reps ;;
     appendMove Chan.X 0 (gCoord.X g) ;;
     appendMove Chan.Y 0 (gCoord.Y g) ;;
     appendLoop START EpisodeStart (Coord.Y Dims) ;;
     appendLoop START EpisodeStart (Coord.X Dims) ;;
     (if 1 <? Iterations then appendLoop START EpisodeStart Iterations
      else ret 0) ;;
     triggerAt Trig EpisodeStart ;;
     pulses_single_period PulseStart TimeOn ISI NumPulses ;;
     (if 1 <? Iterations then appendLoop END IterEnd Iterations else ret 0))
    ([ cmdLoopStart 0 Reps;
       cmdMove Chan.X 0 (gCoord.X g);
       cmdMove Chan.Y 0 (gCoord.Y g);
       cmdLoopStart EpisodeStart (Coord.Y Dims);
       cmdLoopStart EpisodeStart (Coord.X Dims) ]
     ++ (if 1 <? Iterations then [cmdLoopStart EpisodeStart Iterations] else [])
     ++ triggerCmds Trig EpisodeStart
     ++ pulseCmds_single_period PulseStart TimeOn ISI NumPulses
     ++ (if 1 <? Iterations then [cmdLoopEnd IterEnd Iterations] else [])).
Proof.
  cbn [app]. do 5 apply writes_cons.
  apply writes_seq; [apply writes_iter_start|].
  apply writes_seq; [apply writes_triggerAt|].
  apply writes_seq; [apply writes_pulses_single_period | apply writes_iter_end].
Qed.

Local Close Scope prot_scope.

(** The protocol of [buildGrid] when the angle is 0. *)
Lemma pGridProt_cmds_angle_0 (Baseline TimeOn NumPulses ISI Iterations
    EpisodePeriod Reps : Z) (Dims StartPos Spacing : Coord.t)
    (ScaleFactor : Z) (CenterOffset : Coord.t) (Trig : Trigger) :
  let ISI' := toCycles (coerceISI ISI TimeOn) in
  let EP :=
    u32 (toCycles (coerceEpisode EpisodePeriod Baseline NumPulses
                                 (coerceISI ISI TimeOn)) * Iterations) in
  let EpisodeStart := u32 (0 + TIME_OFFSET) in
  let PulseStart := u32 (EpisodeStart + toCycles Baseline) in
  let XMoveTime := u32 (EpisodeStart + EP) in
  let YMoveTime := u32 (EpisodeStart + u32 (Coord.X Dims * EP)) in
  let EndTime :=
    u32 (u32 (EpisodeStart + u32 (s32 (Coord.X Dims * Coord.Y Dims) * EP))
         + PROT_PERIOD) in
  let g := convertCoord StartPos ScaleFactor CenterOffset 0 in
  let gSpacingX := s64 (Coord.X Spacing * ScaleFactor) in
  let gSpacingY := s64 (Coord.Y Spacing * ScaleFactor) in
  pGridProt Baseline TimeOn NumPulses ISI Iterations EpisodePeriod Reps Dims
            StartPos Spacing ScaleFactor CenterOffset Trig 0
  = Some (([ cmdLoopStart 0 Reps;
             cmdMove Chan.X 0 (gCoord.X g);
             cmdMove Chan.Y 0 (gCoord.Y g);
             cmdLoopStart EpisodeStart (Coord.Y Dims);
             cmdLoopStart EpisodeStart (Coord.X Dims) ]
           ++ (if 1 <? Iterations
               then [cmdLoopStart EpisodeStart Iterations] else [])
           ++ triggerCmds Trig EpisodeStart
           ++ pulseCmds_single_period PulseStart (toCycles TimeOn) ISI'
                                      NumPulses
           ++ (if 1 <? Iterations
               then [cmdLoopEnd (u32 (EpisodeStart + EP)) Iterations] else []))
          ++ [ cmdRel XMoveTime Chan.X (s64 (-1 * gSpacingX));
               cmdLoopEnd XMoveTime (Coord.X Dims);
               cmdRel YMoveTime Chan.Y gSpacingY;
               cmdRel YMoveTime Chan.X (s64 (gSpacingX * Coord.X Dims));
               cmdLoopEnd YMoveTime (Coord.Y Dims);
               cmdLoopEnd EndTime Reps ]).
Proof.
  intros. unfold pGridProt. cbv zeta.
  destruct (Req_dec_T 0 0) as [_|E]; [|contradiction].
  f_equal. apply writes_exec.
  apply writes_seq; [apply writes_grid_episode|].
  do 5 apply writes_cons. apply writes_link.
Qed.

(** The commands of [buildGrid] up to the trigger are the same for every
    angle. *)
Lemma pGridProt_head (Baseline TimeOn NumPulses ISI Iterations EpisodePeriod
    Reps : Z) (Dims StartPos Spacing : Coord.t) (ScaleFactor : Z)
    (CenterOffset : Coord.t) (Trig : Trigger) (RotAngle : R) :
  exists (g : gCoord.t) (tail : ScanProt),
    pGridProt Baseline TimeOn NumPulses ISI Iterations EpisodePeriod Reps Dims
              StartPos Spacing ScaleFactor CenterOffset Trig RotAngle
    = Some ([ cmdLoopStart 0 Reps;
              cmdMove Chan.X 0 (gCoord.X g);
              cmdMove Chan.Y 0 (gCoord.Y g);
              cmdLoopStart (u32 (0 + TIME_OFFSET)) (Coord.Y Dims);
              cmdLoopStart (u32 (0 + TIME_OFFSET)) (Coord.X Dims) ]
            ++ (if 1 <? Iterations
                then [cmdLoopStart (u32 (0 + TIME_OFFSET)) Iterations] else [])
            ++ triggerCmds Trig (u32 (0 + TIME_OFFSET))
            ++ tail).
Proof.
  assert (forall (e t : M Z) (l1 l2 l3 l4 : ScanProt),
            writes e (l1 ++ l2 ++ l3 ++ l4) -> (exists tl, writes t tl) ->
            exists tail,
              Some (exec (bind e (fun _ => t)) createProtocol)
              = Some (l1 ++ l2 ++ l3 ++ tail)) as K.
  { intros e t l1 l2 l3 l4 We [tl Wt]. exists (l4 ++ tl). f_equal.
    rewrite (writes_exec _ _ (writes_seq _ _ _ _ We Wt)).
    now rewrite <- !app_assoc. }
  unfold pGridProt. cbv zeta.
  destruct (Req_dec_T RotAngle 0) as [E|E].
  - eexists. eapply K.
    + apply writes_grid_episode.
    + eexists. do 5 apply writes_cons. apply writes_link.
  - match goal with |- context [getCentroid 4 ?l] =>
      destruct (getCentroid_4 l) as [c Hc]; rewrite Hc end.
    eexists. eapply K.
    + apply writes_grid_episode.
    + eexists. do 8 apply writes_cons. apply writes_link.
Qed.

(** ** The trigger of the generators that start at [TIME_OFFSET] *)

Lemma firstTrigger_triggerCmds (Trig : Trigger) (t : Z) (tail : ScanProt) :
  Trig <> T_NONE ->
  firstTrigger (triggerCmds Trig t ++ tail) = Some (triggerOpening Trig (u32 t)).
Proof. intros H. destruct Trig; [congruence | reflexivity | reflexivity]. Qed.

Lemma getPattern_loop_length (n : nat) :
  forall fp x y StartPos Spacing,
    List.length (getPattern_loop n fp x y StartPos Spacing) = n.
Proof.
  induction n as [|n IH]; intros; [reflexivity|].
  cbn [getPattern_loop]. destruct (fscanf_d_d fp x y) as [[x' y'] fp'].
  simpl. now rewrite IH.
Qed.

Lemma rotateAll_nonempty (NumPoints : Z) (pCoordArr : list Coord.t)
    (RotAngle : R) :
  NumPoints <> 0 ->
  exists arr,
    rotateAll NumPoints pCoordArr RotAngle = Some arr
    /\ List.length arr = List.length pCoordArr.
Proof.
  intros H. destruct (rotateAll_cases NumPoints pCoordArr RotAngle)
    as [[arr Harr] | [_ [H0 _]]]; [|contradiction].
  exists arr. split; [exact Harr | now apply rotateAll_length in Harr].
Qed.

Lemma targetProt_first_trigger (pCoordArr : list Coord.t)
    (Baseline TimeOn NumPulses ISI Iterations EpisodePeriod Reps NumPoints
     ScaleFactor : Z) (CenterOffset : Coord.t) (Trig : Trigger) (RotAngle : R) :
  Trig <> T_NONE -> NumPoints <> 0 -> pCoordArr <> [] ->
  exists p,
    targetProt pCoordArr Baseline TimeOn NumPulses ISI Iterations
               EpisodePeriod Reps NumPoints ScaleFactor CenterOffset Trig
               RotAngle = Some p
    /\ firstTrigger p = Some (triggerOpening Trig TIME_OFFSET).
Proof.
  intros HT HN Hne.
  destruct (rotateAll_nonempty NumPoints pCoordArr RotAngle HN)
    as [arr [Harr Hlen]].
  eexists. split; [apply targetProt_cmds; exact Harr|].
  destruct arr as [|a arr];
    [destruct pCoordArr; [congruence | discriminate]|].
  cbn [map targetCmds]. unfold episodeCmds. rewrite Z.mul_0_l.
  rewrite <- !app_assoc.
  rewrite firstTrigger_app_none by reflexivity.
  rewrite firstTrigger_app_none by reflexivity.
  rewrite firstTrigger_app_none by (destruct (1 <? Iterations); reflexivity).
  now rewrite firstTrigger_triggerCmds.
Qed.

(** X13.  With trigger-in or trigger-out, the first command on the trigger channel
    that [buildGrid], [buildRapidGrid], [buildTarget], [buildRapidTarget]
    and [buildPattern] emit is the one that opens the trigger, at cycle
    [TIME_OFFSET]; for the generators that put the trigger inside the
    episode of a point, as soon as there is a point. *)
Theorem triggers_open_at_TIME_OFFSET :
  forall Trig : Trigger,
    Trig <> T_NONE ->
    (forall Baseline TimeOn NumPulses ISI Iterations EpisodePeriod Reps Dims
            StartPos Spacing ScaleFactor CenterOffset RotAngle,
        exists p,
          pGridProt Baseline TimeOn NumPulses ISI Iterations EpisodePeriod
                    Reps Dims StartPos Spacing ScaleFactor CenterOffset Trig
                    RotAngle = Some p
          /\ firstTrigger p = Some (triggerOpening Trig TIME_OFFSET))
    /\ (forall Baseline TimeOn ISI EpisodePeriod Reps Dims StartPos Spacing
               ScaleFactor CenterOffset RotAngle,
          firstTrigger
            (pRapidGridProt Baseline TimeOn ISI EpisodePeriod Reps Dims
                            StartPos Spacing ScaleFactor CenterOffset Trig
                            RotAngle)
          = Some (triggerOpening Trig TIME_OFFSET))
    /\ (forall TargetFile Baseline TimeOn NumPulses ISI Iterations
               EpisodePeriod Reps NumPoints ScaleFactor CenterOffset RotAngle,
          1 <= NumPoints ->
          exists p,
            pTargetProt TargetFile Baseline TimeOn NumPulses ISI Iterations
                        EpisodePeriod Reps NumPoints ScaleFactor CenterOffset
                        Trig RotAngle = Some p
            /\ firstTrigger p = Some (triggerOpening Trig TIME_OFFSET))
    /\ (forall TargetFile Baseline TimeOn ISI EpisodePeriod Reps NumPoints
               ScaleFactor CenterOffset RotAngle,
          (exists p,
             pRapidTargetProt TargetFile Baseline TimeOn ISI EpisodePeriod
                              Reps NumPoints ScaleFactor CenterOffset Trig
                              RotAngle = Some p
             /\ firstTrigger p = Some (triggerOpening Trig TIME_OFFSET))
          \/ (pRapidTargetProt TargetFile Baseline TimeOn ISI EpisodePeriod
                               Reps NumPoints ScaleFactor CenterOffset Trig
                               RotAngle = None
              /\ NumPoints = 0 /\ RotAngle <> 0%R))
    /\ (forall PatternFile Baseline TimeOn NumPulses ISI Iterations
               EpisodePeriod Reps StartPos Spacing ScaleFactor CenterOffset
               RotAngle,
          1 <= u16 (getNumPoints PatternFile) ->
          exists p,
            pPatternProt PatternFile Baseline TimeOn NumPulses ISI Iterations
                         EpisodePeriod Reps StartPos Spacing ScaleFactor
                         CenterOffset Trig RotAngle = Some p
            /\ firstTrigger p = Some (triggerOpening Trig TIME_OFFSET))
    /\ Cycle (triggerOpening Trig TIME_OFFSET) = TIME_OFFSET
    /\ Channel (triggerOpening Trig TIME_OFFSET) = Chan.TRIG.
Proof.
  intros Trig HT. repeat split; intros.
  - destruct (pGridProt_head Baseline TimeOn NumPulses ISI Iterations
                EpisodePeriod Reps Dims StartPos Spacing ScaleFactor
                CenterOffset Trig RotAngle) as [g [tail H]].
    eexists. split; [exact H|].
    rewrite firstTrigger_app_none by reflexivity.
    rewrite firstTrigger_app_none by (destruct (1 <? Iterations); reflexivity).
    now rewrite firstTrigger_triggerCmds.
  - rewrite pRapidGridProt_cmds.
    rewrite firstTrigger_app_none by reflexivity.
    now rewrite firstTrigger_triggerCmds.
  - unfold pTargetProt. apply targetProt_first_trigger; [exact HT | lia |].
    intros E. apply (f_equal (@List.length _)) in E.
    unfold getCoords in E. rewrite getCoords_loop_length in E. simpl in E. lia.
  - destruct (rotateAll_cases NumPoints (getCoords TargetFile NumPoints)
                              RotAngle) as [[arr Harr] | [Hnone Hwhy]].
    + left. eexists. split; [apply pRapidTargetProt_cmds; exact Harr|].
      rewrite firstTrigger_app_none by reflexivity.
      now rewrite firstTrigger_triggerCmds.
    + right. split; [|exact Hwhy].
      unfold pRapidTargetProt. cbv zeta. now rewrite Hnone.
  - unfold pPatternProt. apply targetProt_first_trigger; [exact HT | lia |].
    intros E. apply (f_equal (@List.length _)) in E.
    unfold getPattern in E. rewrite getPattern_loop_length in E.
    simpl in E. lia.
  - destruct Trig; reflexivity.
  - destruct Trig; reflexivity.
Qed.

Lemma triggers_open_at_TIME_OFFSET_witness :
  firstTrigger
    (pRapidGridProt 400 200 400 2000 1 (Coord.mk 5 5) (Coord.mk 40 320)
                    (Coord.mk 50 50) 2 (Coord.mk 716 206) T_OUT 0)
  = Some (mkCmd "A" "V" 10 7 2)
  /\ exists p,
       pTargetProt [100; 200] 400 200 5 400 10 2000 1 1 2 (Coord.mk 716 206)
                   T_OUT 0 = Some p
       /\ firstTrigger p = Some (mkCmd "A" "V" 10 7 2).
Proof.
  pose proof (triggers_open_at_TIME_OFFSET T_OUT ltac:(discriminate))
    as [_ [HRG [HT _]]].
  split.
  - apply HRG.
  - apply HT. lia.
Defined.

(** ** The pulse train of [buildTarget] and [buildPattern] *)

(** X14.  For a train of [NumPulses] pulses (not 1), the pulse block of
    [buildTarget] and [buildPattern] is a loop Start, the pulse on, the
    pulse off one pulse width later and the loop End, and the End is
    [NumPulses] inter-stimulus intervals after the Start: the timing law of
    the header. *)
Theorem target_pulse_train_obeys_loop_law :
  forall NextPulse TimeOn ISI NumPulses : Z,
    0 <= NumPulses < 2 ^ 16 -> NumPulses <> 1 ->
    let start_ := mkCmd "A" "S" (u32 NextPulse) Chan.LOOP NumPulses in
    let end_ :=
      mkCmd "A" "E" (u32 (NextPulse + NumPulses * ISI)) Chan.LOOP NumPulses in
    writes (pulses_whole_train NextPulse TimeOn ISI NumPulses)
           [ start_;
             mkCmd "A" "V" (u32 NextPulse) Chan.TRIG TL_DH;
             mkCmd "A" "V" (u32 (NextPulse + TimeOn)) Chan.TRIG TL_DL;
             end_ ]
    /\ loopLaw start_ end_ ISI.
Proof.
  intros NextPulse TimeOn ISI NumPulses HN H1 start_ end_. split.
  - pose proof (writes_pulses_whole_train NextPulse TimeOn ISI NumPulses) as W.
    unfold pulseCmds_whole_train in W.
    apply Z.eqb_neq in H1. rewrite H1 in W.
    unfold cmdLoopStart, cmdLoopEnd, cmdTrigOut in W.
    rewrite !u32_idem, u32_add_r, s64_small in W by lia. exact W.
  - unfold loopLaw, start_, end_. cbn [Cycle Value].
    now rewrite u32_add_l.
Qed.

Lemma target_pulse_train_obeys_loop_law_witness :
  writes (pulses_whole_train 40010 20000 40000 5)
         [ mkCmd "A" "S" 40010 Chan.LOOP 5;
           mkCmd "A" "V" 40010 Chan.TRIG TL_DH;
           mkCmd "A" "V" 60010 Chan.TRIG TL_DL;
           mkCmd "A" "E" 240010 Chan.LOOP 5 ]
  /\ loopLaw (mkCmd "A" "S" 40010 Chan.LOOP 5)
             (mkCmd "A" "E" 240010 Chan.LOOP 5) 40000.
Proof.
  apply (target_pulse_train_obeys_loop_law 40010 20000 40000 5); lia.
Defined.

(** ** The size of the protocols *)

Lemma sized_ret {A : Type} (a : A) : sized (ret a) 0.
Proof. exists []. split; [apply writes_ret | reflexivity]. Qed.

Lemma sized_link (c : CmdLine) : sized (link c) 1.
Proof. exists [c]. split; [apply writes_link | reflexivity]. Qed.

Lemma sized_seq {A B : Type} (m1 : M A) (m2 : M B) (n1 n2 : Z) :
  sized m1 n1 -> sized m2 n2 -> sized (bind m1 (fun _ => m2)) (n1 + n2).
Proof.
  intros [l1 [W1 L1]] [l2 [W2 L2]]. exists (l1 ++ l2). split.
  - now apply writes_seq.
  - rewrite length_app. lia.
Qed.

Lemma sized_triggerAt (Trig : Trigger) (t : Z) :
  sized (triggerAt Trig t) (triggerCount Trig).
Proof.
  exists (triggerCmds Trig t). split; [apply writes_triggerAt|].
  destruct Trig; reflexivity.
Qed.

Lemma sized_pulses_single (PulseStart TimeOn ISI NumPulses : Z) :
  sized (pulses_single_period PulseStart TimeOn ISI NumPulses)
        (pulseCount NumPulses).
Proof.
  exists (pulseCmds_single_period PulseStart TimeOn ISI NumPulses).
  split; [apply writes_pulses_single_period|].
  unfold pulseCmds_single_period, pulseCount.
  destruct (NumPulses =? 1); reflexivity.
Qed.

Lemma sized_pulses_whole (NextPulse TimeOn ISI NumPulses : Z) :
  sized (pulses_whole_train NextPulse TimeOn ISI NumPulses)
        (pulseCount NumPulses).
Proof.
  exists (pulseCmds_whole_train NextPulse TimeOn ISI NumPulses).
  split; [apply writes_pulses_whole_train|].
  unfold pulseCmds_whole_train, pulseCount.
  destruct (NumPulses =? 1); reflexivity.
Qed.

Lemma sized_eq {A : Type} (m : M A) (n n' : Z) :
  sized m n -> n = n' -> sized m n'.
Proof. intros H <-. exact H. Qed.

Lemma sized_target_loop (gCoordArr : list gCoord.t) :
  forall (k EpisodeStart EpisodePeriod Baseline TimeOn ISI NumPulses
          Iterations : Z) (Trig : Trigger),
    sized (target_loop gCoordArr k EpisodeStart EpisodePeriod Baseline TimeOn
                       ISI NumPulses Iterations Trig)
          (Z.of_nat (List.length gCoordArr)
           * (2 + iterCount Iterations + triggerCount Trig
              + pulseCount NumPulses)).
Proof.
  induction gCoordArr as [|g rest IH]; intros.
  - apply sized_ret.
  - cbn [target_loop]. unfold iterCount at 1.
    destruct (1 <? Iterations) eqn:E;
      (eapply sized_eq;
       [ eapply sized_seq; [apply sized_link|];
         eapply sized_seq; [apply sized_link|];
         eapply sized_seq; [first [apply sized_link | apply sized_ret]|];
         eapply sized_seq; [apply sized_triggerAt|];
         eapply sized_seq; [apply sized_pulses_whole|];
         eapply sized_seq; [first [apply sized_link | apply sized_ret]|];
         apply IH
       | cbn [List.length]; rewrite Nat2Z.inj_succ; unfold iterCount;
         rewrite E; ring ]).
Qed.

Lemma sized_rapid_loop (gCoordArr : list gCoord.t) :
  forall m PulseStart TimeOn ISI : Z,
    sized (rapid_loop gCoordArr m PulseStart TimeOn ISI)
          (Z.of_nat (List.length gCoordArr) * 4).
Proof.
  induction gCoordArr as [|g rest IH]; intros; cbn [rapid_loop].
  - apply sized_ret.
  - destruct (IH (m + 1) PulseStart TimeOn ISI) as [l [W L]].
    eexists. split.
    + do 4 apply writes_cons. exact W.
    + cbn [List.length]. lia.
Qed.

Lemma sized_exec {A : Type} (m : M A) (n n' : Z) :
  sized m n -> n = n' -> NumCmds (exec m createProtocol) = n'.
Proof.
  intros [l [W L]] <-. rewrite (writes_exec _ _ W). exact L.
Qed.

(** Walks a sequence of appends, adding up what each appends. *)
Ltac sized_step :=
  lazymatch goal with
  | |- sized (bind _ _) _ => eapply sized_seq
  | |- sized (ret _) _ => apply sized_ret
  | |- sized (triggerAt _ _) _ => apply sized_triggerAt
  | |- sized (pulses_single_period _ _ _ _) _ => apply sized_pulses_single
  | |- sized (pulses_whole_train _ _ _ _) _ => apply sized_pulses_whole
  | |- sized (target_loop _ _ _ _ _ _ _ _ _ _) _ => apply sized_target_loop
  | |- sized (rapid_loop _ _ _ _ _) _ => apply sized_rapid_loop
  | |- sized (if true then _ else _) _ => cbv iota
  | |- sized (if false then _ else _) _ => cbv iota
  | |- sized _ _ => apply sized_link
  end.

Lemma targetProt_size (pCoordArr : list Coord.t)
    (Baseline TimeOn NumPulses ISI Iterations EpisodePeriod Reps NumPoints
     ScaleFactor : Z) (CenterOffset : Coord.t) (Trig : Trigger) (RotAngle : R) :
  (exists p,
     targetProt pCoordArr Baseline TimeOn NumPulses ISI Iterations
                EpisodePeriod Reps NumPoints ScaleFactor CenterOffset Trig
                RotAngle = Some p
     /\ NumCmds p
        = 2 + Z.of_nat (List.length pCoordArr)
              * (2 + iterCount Iterations + triggerCount Trig
                 + pulseCount NumPulses))
  \/ (targetProt pCoordArr Baseline TimeOn NumPulses ISI Iterations
                 EpisodePeriod Reps NumPoints ScaleFactor CenterOffset Trig
                 RotAngle = None
      /\ NumPoints = 0 /\ RotAngle <> 0%R).
Proof.
  unfold targetProt. cbv zeta.
  destruct (rotateAll_cases NumPoints pCoordArr RotAngle)
    as [[arr Harr] | [Hnone Hwhy]]; [rewrite Harr | rewrite Hnone].
  - left. eexists. split; [reflexivity|].
    apply rotateAll_length in Harr.
    eapply sized_exec; [repeat sized_step|].
    rewrite length_map, Harr. ring.
  - right. auto.
Qed.

Lemma pGridProt_size (Baseline TimeOn NumPulses ISI Iterations EpisodePeriod
    Reps : Z) (Dims StartPos Spacing : Coord.t) (ScaleFactor : Z)
    (CenterOffset : Coord.t) (Trig : Trigger) (RotAngle : R) :
  exists p,
    pGridProt Baseline TimeOn NumPulses ISI Iterations EpisodePeriod Reps Dims
              StartPos Spacing ScaleFactor CenterOffset Trig RotAngle = Some p
    /\ NumCmds p
       = 11 + iterCount Iterations + triggerCount Trig + pulseCount NumPulses
         + (if Req_dec_T RotAngle 0 then 0 else 3).
Proof.
  unfold pGridProt. cbv zeta. unfold iterCount.
  destruct (Req_dec_T RotAngle 0) as [E|E].
  - eexists. split; [reflexivity|].
    destruct (1 <? Iterations);
      (eapply sized_exec; [repeat sized_step | ring]).
  - match goal with |- context [getCentroid 4 ?l] =>
      destruct (getCentroid_4 l) as [c Hc]; rewrite Hc end.
    eexists. split; [reflexivity|].
    destruct (1 <? Iterations);
      (eapply sized_exec; [repeat sized_step | ring]).
Qed.

Lemma pSpotProt_size (Baseline TimeOn NumPulses ISI EpisodePeriod Reps : Z)
    (Pos : Coord.t) (ScaleFactor : Z) (CenterOffset : Coord.t)
    (Trig : Trigger) :
  NumCmds (pSpotProt Baseline TimeOn NumPulses ISI EpisodePeriod Reps Pos
                     ScaleFactor CenterOffset Trig)
  = 4 + triggerCount Trig + pulseCount NumPulses.
Proof.
  unfold pSpotProt. eapply sized_exec; [repeat sized_step | ring].
Qed.

Lemma pRapidGridProt_size (Baseline TimeOn ISI EpisodePeriod Reps : Z)
    (Dims StartPos Spacing : Coord.t) (ScaleFactor : Z)
    (CenterOffset : Coord.t) (Trig : Trigger) (RotAngle : R) :
  NumCmds (pRapidGridProt Baseline TimeOn ISI EpisodePeriod Reps Dims StartPos
                          Spacing ScaleFactor CenterOffset Trig RotAngle)
  = 13 + triggerCount Trig.
Proof.
  unfold pRapidGridProt. eapply sized_exec; [repeat sized_step | ring].
Qed.

Lemma pRapidTargetProt_size (TargetFile : list Z)
    (Baseline TimeOn ISI EpisodePeriod Reps NumPoints ScaleFactor : Z)
    (CenterOffset : Coord.t) (Trig : Trigger) (RotAngle : R) :
  (exists p,
     pRapidTargetProt TargetFile Baseline TimeOn ISI EpisodePeriod Reps
                      NumPoints ScaleFactor CenterOffset Trig RotAngle = Some p
     /\ NumCmds p = 2 + triggerCount Trig + Z.max 0 NumPoints * 4)
  \/ (pRapidTargetProt TargetFile Baseline TimeOn ISI EpisodePeriod Reps
                       NumPoints ScaleFactor CenterOffset Trig RotAngle = None
      /\ NumPoints = 0 /\ RotAngle <> 0%R).
Proof.
  unfold pRapidTargetProt. cbv zeta.
  destruct (rotateAll_cases NumPoints (getCoords TargetFile NumPoints)
                            RotAngle)
    as [[arr Harr] | [Hnone Hwhy]]; [rewrite Harr | rewrite Hnone].
  - left. eexists. split; [reflexivity|].
    apply rotateAll_length in Harr.
    eapply sized_exec; [repeat sized_step|].
    rewrite length_map, Harr. unfold getCoords.
    rewrite getCoords_loop_length.
    replace (Z.of_nat (Z.to_nat NumPoints)) with (Z.max 0 NumPoints) by lia.
    ring.
  - right. auto.
Qed.

Lemma pTargetProt_size (TargetFile : list Z)
    (Baseline TimeOn NumPulses ISI Iterations EpisodePeriod Reps NumPoints
     ScaleFactor : Z) (CenterOffset : Coord.t) (Trig : Trigger) (RotAngle : R) :
  (exists p,
     pTargetProt TargetFile Baseline TimeOn NumPulses ISI Iterations
                 EpisodePeriod Reps NumPoints ScaleFactor CenterOffset Trig
                 RotAngle = Some p
     /\ NumCmds p
        = 2 + Z.max 0 NumPoints
              * (2 + iterCount Iterations + triggerCount Trig
                 + pulseCount NumPulses))
  \/ (pTargetProt TargetFile Baseline TimeOn NumPulses ISI Iterations
                  EpisodePeriod Reps NumPoints ScaleFactor CenterOffset Trig
                  RotAngle = None
      /\ NumPoints = 0 /\ RotAngle <> 0%R).
Proof.
  unfold pTargetProt.
  replace (Z.max 0 NumPoints)
    with (Z.of_nat (List.length (getCoords TargetFile NumPoints)))
    by (unfold getCoords; rewrite getCoords_loop_length; lia).
  apply targetProt_size.
Qed.

Lemma pPatternProt_size (PatternFile : list Z)
    (Baseline TimeOn NumPulses ISI Iterations EpisodePeriod Reps : Z)
    (StartPos Spacing : Coord.t) (ScaleFactor : Z) (CenterOffset : Coord.t)
    (Trig : Trigger) (RotAngle : R) :
  (exists p,
     pPatternProt PatternFile Baseline TimeOn NumPulses ISI Iterations
                  EpisodePeriod Reps StartPos Spacing ScaleFactor CenterOffset
                  Trig RotAngle = Some p
     /\ NumCmds p
        = 2 + u16 (getNumPoints PatternFile)
              * (2 + iterCount Iterations + triggerCount Trig
                 + pulseCount NumPulses))
  \/ (pPatternProt PatternFile Baseline TimeOn NumPulses ISI Iterations
                   EpisodePeriod Reps StartPos Spacing ScaleFactor
                   CenterOffset Trig RotAngle = None
      /\ u16 (getNumPoints PatternFile) = 0 /\ RotAngle <> 0%R).
Proof.
  unfold pPatternProt.
  pose proof (targetProt_size
                (getPattern PatternFile (u16 (getNumPoints PatternFile))
                            StartPos Spacing)
                Baseline TimeOn NumPulses ISI Iterations EpisodePeriod Reps
                (u16 (getNumPoints PatternFile)) ScaleFactor CenterOffset
                Trig RotAngle) as H.
  unfold getPattern in H at 2. rewrite getPattern_loop_length in H.
  rewrite Z2Nat.id in H by (unfold u16; apply Z.mod_pos_bound; lia).
  exact H.
Qed.

(** X15.  The number of commands of each protocol.  The single spot and the two
    grids take a fixed number of commands, whatever the repetitions, the
    number of pulses (beyond one) and the size of the grid; a rotated grid
    takes three more.  The point generators take a fixed number of commands
    per point. *)
Theorem protocol_sizes :
  (forall Baseline TimeOn NumPulses ISI EpisodePeriod Reps Pos ScaleFactor
          CenterOffset Trig,
      NumCmds (pSpotProt Baseline TimeOn NumPulses ISI EpisodePeriod Reps Pos
                         ScaleFactor CenterOffset Trig)
      = 4 + triggerCount Trig + pulseCount NumPulses)
  /\ (forall Baseline TimeOn NumPulses ISI Iterations EpisodePeriod Reps Dims
             StartPos Spacing ScaleFactor CenterOffset Trig RotAngle,
        exists p,
          pGridProt Baseline TimeOn NumPulses ISI Iterations EpisodePeriod
                    Reps Dims StartPos Spacing ScaleFactor CenterOffset Trig
                    RotAngle = Some p
          /\ NumCmds p
             = 11 + iterCount Iterations + triggerCount Trig
               + pulseCount NumPulses
               + (if Req_dec_T RotAngle 0 then 0 else 3))
  /\ (forall TargetFile Baseline TimeOn NumPulses ISI Iterations EpisodePeriod
             Reps NumPoints ScaleFactor CenterOffset Trig RotAngle,
        (exists p,
           pTargetProt TargetFile Baseline TimeOn NumPulses ISI Iterations
                       EpisodePeriod Reps NumPoints ScaleFactor CenterOffset
                       Trig RotAngle = Some p
           /\ NumCmds p
              = 2 + Z.max 0 NumPoints
                    * (2 + iterCount Iterations + triggerCount Trig
                       + pulseCount NumPulses))
        \/ (pTargetProt TargetFile Baseline TimeOn NumPulses ISI Iterations
                        EpisodePeriod Reps NumPoints ScaleFactor CenterOffset
                        Trig RotAngle = None
            /\ NumPoints = 0 /\ RotAngle <> 0%R))
  /\ (forall Baseline TimeOn ISI EpisodePeriod Reps Dims StartPos Spacing
             ScaleFactor CenterOffset Trig RotAngle,
        NumCmds (pRapidGridProt Baseline TimeOn ISI EpisodePeriod Reps Dims
                                StartPos Spacing ScaleFactor CenterOffset Trig
                                RotAngle)
        = 13 + triggerCount Trig)
  /\ (forall TargetFile Baseline TimeOn ISI EpisodePeriod Reps NumPoints
             ScaleFactor CenterOffset Trig RotAngle,
        (exists p,
           pRapidTargetProt TargetFile Baseline TimeOn ISI EpisodePeriod Reps
                            NumPoints ScaleFactor CenterOffset Trig RotAngle
           = Some p
           /\ NumCmds p = 2 + triggerCount Trig + Z.max 0 NumPoints * 4)
        \/ (pRapidTargetProt TargetFile Baseline TimeOn ISI EpisodePeriod Reps
                             NumPoints ScaleFactor CenterOffset Trig RotAngle
            = None
            /\ NumPoints = 0 /\ RotAngle <> 0%R))
  /\ (forall PatternFile Baseline TimeOn NumPulses ISI Iterations
             EpisodePeriod Reps StartPos Spacing ScaleFactor CenterOffset Trig
             RotAngle,
        (exists p,
           pPatternProt PatternFile Baseline TimeOn NumPulses ISI Iterations
                        EpisodePeriod Reps StartPos Spacing ScaleFactor
                        CenterOffset Trig RotAngle = Some p
           /\ NumCmds p
              = 2 + u16 (getNumPoints PatternFile)
                    * (2 + iterCount Iterations + triggerCount Trig
                       + pulseCount NumPulses))
        \/ (pPatternProt PatternFile Baseline TimeOn NumPulses ISI Iterations
                         EpisodePeriod Reps StartPos Spacing ScaleFactor
                         CenterOffset Trig RotAngle = None
            /\ u16 (getNumPoints PatternFile) = 0 /\ RotAngle <> 0%R)).
Proof.
  repeat split; intros.
  - apply pSpotProt_size.
  - apply pGridProt_size.
  - apply pTargetProt_size.
  - apply pRapidGridProt_size.
  - apply pRapidTargetProt_size.
  - apply pPatternProt_size.
Qed.

(** ** The points of a file, in order and in time *)

Lemma rotateAll_angle_0 (NumPoints : Z) (pCoordArr : list Coord.t) :
  rotateAll NumPoints pCoordArr 0 = Some pCoordArr.
Proof.
  unfold rotateAll. destruct (Req_dec_T 0 0) as [_|E]; [reflexivity|].
  contradiction.
Qed.

Lemma moves_app (a b : ScanProt) : moves (a ++ b) = moves a ++ moves b.
Proof. unfold moves. now rewrite filter_app, map_app. Qed.

Lemma moves_triggerCmds (Trig : Trigger) (t : Z) : moves (triggerCmds Trig t) = [].
Proof. destruct Trig; reflexivity. Qed.

Lemma moves_pulses_whole (NextPulse TimeOn ISI NumPulses : Z) :
  moves (pulseCmds_whole_train NextPulse TimeOn ISI NumPulses) = [].
Proof.
  unfold pulseCmds_whole_train. destruct (NumPulses =? 1); reflexivity.
Qed.

Lemma moves_move_X (t v : Z) (l : ScanProt) :
  moves (cmdMove Chan.X t v :: l) = (Chan.X, u32 t, s64 v) :: moves l.
Proof. reflexivity. Qed.

Lemma moves_move_Y (t v : Z) (l : ScanProt) :
  moves (cmdMove Chan.Y t v :: l) = (Chan.Y, u32 t, s64 v) :: moves l.
Proof. reflexivity. Qed.

Lemma moves_trigOut (t v : Z) (l : ScanProt) :
  moves (cmdTrigOut t v :: l) = moves l.
Proof. reflexivity. Qed.

Lemma moves_iter (Iterations : Z) (c : CmdLine) :
  Channel c = Chan.LOOP -> moves (if 1 <? Iterations then [c] else []) = [].
Proof.
  intros H. destruct (1 <? Iterations); [|reflexivity].
  unfold moves. simpl. rewrite H. now rewrite andb_false_r.
Qed.

Lemma gCoord_s64 (c : Coord.t) (ScaleFactor : Z) (CenterOffset : Coord.t) :
  s64 (gCoord.X (convertCoord c ScaleFactor CenterOffset 0))
  = gCoord.X (convertCoord c ScaleFactor CenterOffset 0)
  /\ s64 (gCoord.Y (convertCoord c ScaleFactor CenterOffset 0))
     = gCoord.Y (convertCoord c ScaleFactor CenterOffset 0).
Proof. unfold convertCoord. cbn [gCoord.X gCoord.Y]. split; apply s64_idem. Qed.

Lemma moves_rapidCmds (arr : list Coord.t) (ScaleFactor : Z)
    (CenterOffset : Coord.t) :
  forall m PulseStart TimeOn ISI : Z,
    moves
      (rapidCmds (map (fun c => convertCoord c ScaleFactor CenterOffset 0) arr)
                 m PulseStart TimeOn ISI)
    = flat_map (fun kc => movesTo (u32 (PulseStart + fst kc * ISI)) (snd kc)
                                  ScaleFactor CenterOffset)
               (indexed m arr).
Proof.
  induction arr as [|c arr IH]; intros; [reflexivity|].
  cbn [map rapidCmds indexed flat_map fst snd].
  unfold rapidPointCmds, movesTo. cbn [app].
  rewrite moves_move_X, moves_move_Y, !moves_trigOut, IH.
  destruct (gCoord_s64 c ScaleFactor CenterOffset) as [-> ->].
  now rewrite u32_idem, u32_add_r.
Qed.

Lemma moves_targetCmds (arr : list Coord.t) (ScaleFactor : Z)
    (CenterOffset : Coord.t) :
  forall (k EpisodeStart EpisodePeriod Baseline TimeOn ISI NumPulses
          Iterations : Z) (Trig : Trigger),
    moves
      (targetCmds (map (fun c => convertCoord c ScaleFactor CenterOffset 0) arr)
                  k EpisodeStart EpisodePeriod Baseline TimeOn ISI NumPulses
                  Iterations Trig)
    = flat_map (fun kc =>
                  movesTo (u32 (EpisodeStart + fst kc * EpisodePeriod))
                          (snd kc) ScaleFactor CenterOffset)
               (indexed k arr).
Proof.
  induction arr as [|c arr IH]; intros; [reflexivity|].
  cbn [map targetCmds indexed flat_map fst snd]. rewrite moves_app, IH.
  unfold episodeCmds, movesTo. cbn [app].
  rewrite moves_move_X, moves_move_Y, !moves_app.
  rewrite moves_triggerCmds, moves_pulses_whole.
  rewrite !moves_iter by reflexivity. cbn [app].
  destruct (gCoord_s64 c ScaleFactor CenterOffset) as [-> ->].
  now rewrite u32_idem, u32_add_r.
Qed.

Lemma targetProt_moves (pCoordArr : list Coord.t)
    (Baseline TimeOn NumPulses ISI Iterations EpisodePeriod Reps NumPoints
     ScaleFactor : Z) (CenterOffset : Coord.t) (Trig : Trigger) :
  exists p,
    targetProt pCoordArr Baseline TimeOn NumPulses ISI Iterations
               EpisodePeriod Reps NumPoints ScaleFactor CenterOffset Trig 0
    = Some p
    /\ moves p
       = flat_map
           (fun kc =>
              movesTo
                (u32 (TIME_OFFSET
                      + fst kc
                        * u32 (toCycles
                                 (coerceEpisode EpisodePeriod Baseline
                                    NumPulses (coerceISI ISI TimeOn))
                               * Iterations)))
                (snd kc) ScaleFactor CenterOffset)
           (indexed 0 pCoordArr).
Proof.
  eexists. split; [apply targetProt_cmds, rotateAll_angle_0|].
  rewrite !moves_app, moves_targetCmds.
  change (moves [cmdLoopStart 0 Reps]) with (@nil (Z * Z * Z)).
  match goal with |- context [moves [cmdLoopEnd ?t ?n]] =>
    change (moves [cmdLoopEnd t n]) with (@nil (Z * Z * Z)) end.
  cbn [app]. rewrite app_nil_r. reflexivity.
Qed.

(** X16.  Without rotation, the moves to a position that [buildTarget],
    [buildPattern] and [buildRapidTarget] emit are, for each point in the
    order of the file, a move of X and a move of Y to the galvo coordinate
    of the point.  The point of index k (from 0) is reached at cycle
    [TIME_OFFSET] plus k episode periods by [buildTarget] and [buildPattern]
    (an episode period counting its iterations), and at cycle [TIME_OFFSET]
    plus the baseline plus k inter-stimulus intervals by
    [buildRapidTarget], modulo 2^32. *)
Theorem points_visited_in_file_order :
  (forall TargetFile Baseline TimeOn NumPulses ISI Iterations EpisodePeriod
          Reps NumPoints ScaleFactor CenterOffset Trig,
      exists p,
        pTargetProt TargetFile Baseline TimeOn NumPulses ISI Iterations
                    EpisodePeriod Reps NumPoints ScaleFactor CenterOffset Trig
                    0 = Some p
        /\ moves p
           = flat_map
               (fun kc =>
                  movesTo
                    (u32 (TIME_OFFSET
                          + fst kc
                            * u32 (toCycles
                                     (coerceEpisode EpisodePeriod Baseline
                                        NumPulses (coerceISI ISI TimeOn))
                                   * Iterations)))
                    (snd kc) ScaleFactor CenterOffset)
               (indexed 0 (getCoords TargetFile NumPoints)))
  /\ (forall PatternFile Baseline TimeOn NumPulses ISI Iterations
             EpisodePeriod Reps StartPos Spacing ScaleFactor CenterOffset Trig,
        exists p,
          pPatternProt PatternFile Baseline TimeOn NumPulses ISI Iterations
                       EpisodePeriod Reps StartPos Spacing ScaleFactor
                       CenterOffset Trig 0 = Some p
          /\ moves p
             = flat_map
                 (fun kc =>
                    movesTo
                      (u32 (TIME_OFFSET
                            + fst kc
                              * u32 (toCycles
                                       (coerceEpisode EpisodePeriod Baseline
                                          NumPulses (coerceISI ISI TimeOn))
                                     * Iterations)))
                      (snd kc) ScaleFactor CenterOffset)
                 (indexed 0
                    (getPattern PatternFile (u16 (getNumPoints PatternFile))
                                StartPos Spacing)))
  /\ (forall TargetFile Baseline TimeOn ISI EpisodePeriod Reps NumPoints
             ScaleFactor CenterOffset Trig,
        exists p,
          pRapidTargetProt TargetFile Baseline TimeOn ISI EpisodePeriod Reps
                           NumPoints ScaleFactor CenterOffset Trig 0 = Some p
          /\ moves p
             = flat_map
                 (fun kc =>
                    movesTo
                      (u32 (TIME_OFFSET + toCycles Baseline
                            + fst kc * toCycles (coerceISI ISI TimeOn)))
                      (snd kc) ScaleFactor CenterOffset)
                 (indexed 0 (getCoords TargetFile NumPoints))).
Proof.
  repeat split; intros.
  - apply targetProt_moves.
  - apply targetProt_moves.
  - eexists. split; [apply pRapidTargetProt_cmds, rotateAll_angle_0|].
    rewrite !moves_app, moves_triggerCmds, moves_rapidCmds.
    change (moves [cmdLoopStart 0 Reps]) with (@nil (Z * Z * Z)).
    match goal with |- context [moves [cmdLoopEnd ?t ?n]] =>
      change (moves [cmdLoopEnd t n]) with (@nil (Z * Z * Z)) end.
    cbn [app]. rewrite app_nil_r.
    change (u32 (0 + TIME_OFFSET)) with TIME_OFFSET.
    apply flat_map_ext. intros [k c]. cbn [fst snd].
    unfold movesTo. now rewrite u32_add_l.
Qed.

(** ** The raster of the grids *)

Lemma relMoves_app (a b : ScanProt) :
  relMoves (a ++ b) = relMoves a ++ relMoves b.
Proof. unfold relMoves. now rewrite filter_app, map_app. Qed.

Lemma relMoves_triggerCmds (Trig : Trigger) (t : Z) :
  relMoves (triggerCmds Trig t) = [].
Proof. destruct Trig; reflexivity. Qed.

Lemma relMoves_pulses_single (PulseStart TimeOn ISI NumPulses : Z) :
  relMoves (pulseCmds_single_period PulseStart TimeOn ISI NumPulses) = [].
Proof.
  unfold pulseCmds_single_period. destruct (NumPulses =? 1); reflexivity.
Qed.

Lemma relMoves_iter (Iterations : Z) (c : CmdLine) :
  ScanCmd c <> "R"%char ->
  relMoves (if 1 <? Iterations then [c] else []) = [].
Proof.
  intros H. destruct (1 <? Iterations); [|reflexivity].
  unfold relMoves. simpl. apply Ascii.eqb_neq in H. now rewrite H.
Qed.

Lemma relMoves_rel (t ch v : Z) (l : ScanProt) :
  relMoves (cmdRel t ch v :: l) = (ch, s64 v) :: relMoves l.
Proof. reflexivity. Qed.

Lemma relMoves_other (c : CmdLine) (l : ScanProt) :
  Ascii.eqb (ScanCmd c) "R" = false -> relMoves (c :: l) = relMoves l.
Proof. intros H. unfold relMoves. simpl filter. now rewrite H. Qed.

(** X17.  The relative moves of [buildGrid] at angle 0, where the products fit
    their types: after each spot X steps by minus the scaled spacing; at the
    end of a row of [Dims.X] spots Y steps by the scaled spacing and X goes
    back by [Dims.X] steps, which cancels the steps of the row.  With
    galvo = - scale * pixel, the grid is scanned toward larger pixel X and
    smaller pixel Y. *)
Theorem buildGrid_raster :
  forall Baseline TimeOn NumPulses ISI Iterations EpisodePeriod Reps
         (Dims StartPos Spacing : Coord.t) (ScaleFactor : Z)
         (CenterOffset : Coord.t) (Trig : Trigger),
    - 2 ^ 63 < Coord.X Spacing * ScaleFactor < 2 ^ 63 ->
    - 2 ^ 63 < Coord.Y Spacing * ScaleFactor < 2 ^ 63 ->
    - 2 ^ 63 <= Coord.X Spacing * ScaleFactor * Coord.X Dims < 2 ^ 63 ->
    exists p,
      pGridProt Baseline TimeOn NumPulses ISI Iterations EpisodePeriod Reps
                Dims StartPos Spacing ScaleFactor CenterOffset Trig 0 = Some p
      /\ relMoves p
         = [ (Chan.X, - (Coord.X Spacing * ScaleFactor));
             (Chan.Y, Coord.Y Spacing * ScaleFactor);
             (Chan.X, Coord.X Spacing * ScaleFactor * Coord.X Dims) ]
      /\ Coord.X Dims * - (Coord.X Spacing * ScaleFactor)
         + Coord.X Spacing * ScaleFactor * Coord.X Dims = 0.
Proof.
  intros until Trig. intros HX HY HXD.
  eexists. split; [apply pGridProt_cmds_angle_0|]. split; [|ring].
  rewrite !relMoves_app, relMoves_triggerCmds, relMoves_pulses_single.
  rewrite !relMoves_iter by discriminate.
  repeat first [ rewrite relMoves_rel | rewrite relMoves_other by reflexivity ].
  cbn [app]. change (relMoves []) with (@nil (Z * Z)).
  rewrite !s64_idem.
  rewrite (s64_small (Coord.X Spacing * ScaleFactor)) by lia.
  rewrite (s64_small (Coord.Y Spacing * ScaleFactor)) by lia.
  rewrite (s64_small (Coord.X Spacing * ScaleFactor * Coord.X Dims)) by lia.
  rewrite s64_small by lia.
  cbn [app].
  repeat (apply f_equal2; [apply f_equal2; [reflexivity | ring] | ]).
  reflexivity.
Qed.

Lemma buildGrid_raster_witness :
  exists p,
    pGridProt 400 200 5 400 10 2000 1 (Coord.mk 5 5) (Coord.mk 40 320)
              (Coord.mk 50 50) 2 (Coord.mk 716 206) T_OUT 0 = Some p
    /\ relMoves p = [ (Chan.X, - (50 * 2)); (Chan.Y, 50 * 2); (Chan.X, 50 * 2 * 5) ]
    /\ 5 * - (50 * 2) + 50 * 2 * 5 = 0.
Proof.
  apply (buildGrid_raster 400 200 5 400 10 2000 1 (Coord.mk 5 5)
           (Coord.mk 40 320) (Coord.mk 50 50) 2 (Coord.mk 716 206) T_OUT);
    simpl; lia.
Defined.

(** X18.  The relative moves of [buildRapidGrid], where the products fit their
    types: the same raster as [buildGrid] with every sign changed, since the
    scaled spacing is negated once when it is computed and once more when X
    steps.  The grid is scanned toward smaller pixel X and larger pixel
    Y. *)
Theorem buildRapidGrid_raster :
  forall Baseline TimeOn ISI EpisodePeriod Reps
         (Dims StartPos Spacing : Coord.t) (ScaleFactor : Z)
         (CenterOffset : Coord.t) (Trig : Trigger) (RotAngle : R),
    - 2 ^ 31 < Coord.X Spacing < 2 ^ 31 ->
    - 2 ^ 31 < Coord.Y Spacing < 2 ^ 31 ->
    - 2 ^ 63 < Coord.X Spacing * ScaleFactor < 2 ^ 63 ->
    - 2 ^ 63 < Coord.Y Spacing * ScaleFactor < 2 ^ 63 ->
    - 2 ^ 63 < Coord.X Spacing * ScaleFactor * Coord.X Dims <= 2 ^ 63 ->
    relMoves (pRapidGridProt Baseline TimeOn ISI EpisodePeriod Reps Dims
                             StartPos Spacing ScaleFactor CenterOffset Trig
                             RotAngle)
    = [ (Chan.X, Coord.X Spacing * ScaleFactor);
        (Chan.Y, - (Coord.Y Spacing * ScaleFactor));
        (Chan.X, - (Coord.X Spacing * ScaleFactor * Coord.X Dims)) ]
    /\ Coord.X Dims * (Coord.X Spacing * ScaleFactor)
       + - (Coord.X Spacing * ScaleFactor * Coord.X Dims) = 0.
Proof.
  intros until RotAngle. intros HSX HSY HX HY HXD. split; [|ring].
  rewrite pRapidGridProt_cmds.
  rewrite !relMoves_app, relMoves_triggerCmds.
  repeat first [ rewrite relMoves_rel | rewrite relMoves_other by reflexivity ].
  cbn [app]. change (relMoves []) with (@nil (Z * Z)).
  rewrite !s64_idem.
  rewrite (s32_small (-1 * Coord.X Spacing)) by lia.
  rewrite (s32_small (-1 * Coord.Y Spacing)) by lia.
  rewrite (s64_small (-1 * Coord.X Spacing * ScaleFactor)) by lia.
  rewrite (s64_small (-1 * Coord.Y Spacing * ScaleFactor)) by lia.
  rewrite (s64_small (-1 * Coord.X Spacing * ScaleFactor * Coord.X Dims)) by lia.
  rewrite s64_small by lia.
  cbn [app].
  repeat (apply f_equal2; [apply f_equal2; [reflexivity | ring] | ]).
  reflexivity.
Qed.

Lemma buildRapidGrid_raster_witness :
  relMoves (pRapidGridProt 400 200 400 2000 1 (Coord.mk 5 5) (Coord.mk 40 320)
                           (Coord.mk 50 50) 2 (Coord.mk 716 206) T_OUT 0)
  = [ (Chan.X, 50 * 2); (Chan.Y, - (50 * 2)); (Chan.X, - (50 * 2 * 5)) ]
  /\ 5 * (50 * 2) + - (50 * 2 * 5) = 0.
Proof.
  apply (buildRapidGrid_raster 400 200 400 2000 1 (Coord.mk 5 5)
           (Coord.mk 40 320) (Coord.mk 50 50) 2 (Coord.mk 716 206) T_OUT 0);
    simpl; lia.
Defined.

(** ** A calibration without two distinct galvo positions *)

Lemma pairsOf_In (l : list CalPoint) (a b : CalPoint) :
  In (a, b) (pairsOf l) -> In a l /\ In b l.
Proof.
  induction l as [|x l IH]; simpl; [contradiction|].
  intros H. apply in_app_or in H. destruct H as [H|H].
  - apply in_map_iff in H. destruct H as [y [E Hy]].
    injection E as <- <-. auto.
  - destruct (IH H). auto.
Qed.

Lemma flat_map_nil {A B : Type} (f : A -> list B) (l : list A) :
  (forall a, In a l -> f a = []) -> flat_map f l = [].
Proof.
  induction l as [|x l IH]; intros H; simpl; [reflexivity|].
  rewrite (H x) by (left; reflexivity). apply IH.
  intros a Ha. apply H. now right.
Qed.

(** X19.  From at least two calibration points none of which differs from
    another in galvo X or in galvo Y, no ratio is taken and [calcScaling]
    returns the scale factor 0, without an error. *)
Theorem calcScaling_without_distinct_galvo :
  forall (NumPoints : Z) (calibrationFile : list CalPoint),
    2 <= NumPoints <= 32768 ->
    NumPoints <= Z.of_nat (List.length calibrationFile) ->
    (forall a b,
        In a (firstn (Z.to_nat NumPoints) calibrationFile) ->
        In b (firstn (Z.to_nat NumPoints) calibrationFile) ->
        fne (galvoX a) (galvoX b) = false /\ fne (galvoY a) (galvoY b) = false) ->
    calcScaling NumPoints calibrationFile = Some 0.
Proof.
  intros NumPoints calibrationFile HN Hfile Hsame. unfold calcScaling.
  assert (calibrationFile <> []) as Hne
    by (destruct calibrationFile; [simpl in Hfile; lia | discriminate]).
  rewrite scalefactor_fold by (lia || exact Hne).
  rewrite pointsRead_enough by exact Hfile.
  rewrite flat_map_nil; [vm_compute; reflexivity|].
  intros [a b] Hab. apply pairsOf_In in Hab. destruct Hab as [Ha Hb].
  destruct (Hsame a b Ha Hb) as [EX EY].
  unfold ratios_galvo. cbn [fst snd]. now rewrite EX, EY.
Qed.

Lemma calcScaling_without_distinct_galvo_witness :
  calcScaling 2 [mkCal 100 100 0 0; mkCal 100 100 50 50] = Some 0.
Proof.
  apply (calcScaling_without_distinct_galvo 2
           [mkCal 100 100 0 0; mkCal 100 100 50 50]).
  - lia.
  - simpl. lia.
  - intros a b Ha Hb. simpl in Ha, Hb.
    destruct Ha as [<-|[<-|[]]]; destruct Hb as [<-|[<-|[]]];
      split; vm_compute; reflexivity.
Defined.

(** ** The coordinates of a grid *)

Lemma storeCoord_length (arr arr' : list Coord.t) (k : Z) (v : Coord.t) :
  storeCoord arr k v = Some arr' -> List.length arr' = List.length arr.
Proof.
  unfold storeCoord.
  destruct ((0 <=? k) && (k <? Z.of_nat (List.length arr))) eqn:E;
    [|discriminate].
  intros H. apply Some_inj in H. subst arr'.
  apply andb_true_iff in E. destruct E as [E0 E1].
  apply Z.leb_le in E0. apply Z.ltb_lt in E1.
  rewrite length_app, length_firstn.
  change (List.length (v :: skipn (S (Z.to_nat k)) arr))
    with (S (List.length (skipn (S (Z.to_nat k)) arr))).
  rewrite length_skipn. lia.
Qed.

Lemma storeCoord_out (arr : list Coord.t) (k : Z) (v : Coord.t) :
  Z.of_nat (List.length arr) <= k -> storeCoord arr k v = None.
Proof.
  intros H. unfold storeCoord.
  replace (k <? Z.of_nat (List.length arr)) with false
    by (symmetry; apply Z.ltb_ge; exact H).
  now rewrite andb_false_r.
Qed.

(** If the store of some later iteration of the row falls outside the
    array, the row does not complete. *)
Lemma expand_inner_out (Dims : Coord.t) (StartX StartY deltaX deltaY j : Z) :
  forall (cnt : nat) (i : Z) (arr : list Coord.t),
    (0 < cnt)%nat ->
    Z.of_nat (List.length arr)
    <= s32 (s32 (j * Coord.X Dims) + s32 (i + Z.of_nat cnt)) ->
    expand_inner cnt Dims StartX StartY deltaX deltaY j i arr = None.
Proof.
  induction cnt as [|cnt IH]; intros i arr Hpos Hout; [lia|].
  cbn [expand_inner].
  destruct (storeCoord arr _ _) as [arr'|] eqn:E; [|reflexivity].
  destruct cnt as [|cnt].
  - exfalso. rewrite storeCoord_out in E; [discriminate|].
    replace (i + 1) with (i + Z.of_nat 1) by lia. exact Hout.
  - apply IH; [lia|].
    rewrite (storeCoord_length _ _ _ _ E).
    replace (i + 1 + Z.of_nat (S cnt)) with (i + Z.of_nat (S (S cnt))) by lia.
    exact Hout.
Qed.

Lemma expand_inner_length (Dims : Coord.t) (StartX StartY deltaX deltaY j : Z) :
  forall (cnt : nat) (i : Z) (arr arr' : list Coord.t),
    expand_inner cnt Dims StartX StartY deltaX deltaY j i arr = Some arr' ->
    List.length arr' = List.length arr.
Proof.
  induction cnt as [|cnt IH]; intros i arr arr' H; cbn [expand_inner] in H.
  - injection H as <-. reflexivity.
  - destruct (storeCoord arr _ _) as [arr1|] eqn:E; [|discriminate].
    rewrite (IH _ _ _ H). apply (storeCoord_length _ _ _ _ E).
Qed.

Lemma expand_outer_out (Dims : Coord.t) (StartX StartY deltaX deltaY : Z) :
  1 <= Coord.X Dims -> 
  forall (cnt : nat) (j : Z) (arr : list Coord.t),
    (0 < cnt)%nat -> 0 <= j ->
    (j + Z.of_nat cnt) * Coord.X Dims < 2 ^ 31 ->
    Z.of_nat (List.length arr) <= (j + Z.of_nat cnt) * Coord.X Dims ->
    expand_outer cnt Dims StartX StartY deltaX deltaY j arr = None.
Proof.
  intros HX. induction cnt as [|cnt IH]; intros j arr Hpos Hj Hfit Hout; [lia|].
  cbn [expand_outer].
  destruct (expand_inner _ _ _ _ _ _ _ _ _) as [arr'|] eqn:E; [|reflexivity].
  destruct cnt as [|cnt].
  - exfalso. rewrite expand_inner_out in E; [discriminate | lia |].
    rewrite Z2Nat.id by lia.
    rewrite (s32_small (j * Coord.X Dims)) by nia.
    rewrite (s32_small (0 + Coord.X Dims)) by nia.
    rewrite s32_small by nia. nia.
  - apply IH; [lia | lia | |].
    + replace (j + 1 + Z.of_nat (S cnt)) with (j + Z.of_nat (S (S cnt))) by lia.
      exact Hfit.
    + rewrite (expand_inner_length _ _ _ _ _ _ _ _ _ _ E).
      replace (j + 1 + Z.of_nat (S cnt)) with (j + Z.of_nat (S (S cnt))) by lia.
      exact Hout.
Qed.

(** X20.  [expandGridCoords] never returns a point of the grid.  For a grid of
    one spot or more (whose number of spots fits an [int]) the slot it
    writes for spot (i, j) is [j * Dims.X + i + 1], so that the last spot is
    stored one slot past the end of the array.  With a dimension that is not
    positive nothing is stored, and the function returns the zeroed first
    slot, or reads an empty array. *)
Theorem expandGridCoords_stores_past_the_end :
  forall Dims StartPos Spacing : Coord.t,
    (1 <= Coord.X Dims -> 1 <= Coord.Y Dims ->
     Coord.X Dims * Coord.Y Dims < 2 ^ 31 ->
     expandGridCoords Dims StartPos Spacing = None)
    /\ (Coord.X Dims <= 0 \/ Coord.Y Dims <= 0 ->
        expandGridCoords Dims StartPos Spacing
        = if u16 (s32 (Coord.X Dims * Coord.Y Dims)) =? 0 then None
          else Some (Coord.mk 0 0)).
Proof.
  intros Dims StartPos Spacing. split.
  - intros HX HY Hfit. unfold expandGridCoords. cbv zeta.
    assert (0 <= u16 (s32 (Coord.X Dims * Coord.Y Dims))
            <= Coord.X Dims * Coord.Y Dims) as Hn.
    { rewrite s32_small by nia. unfold u16. split.
      - apply Z.mod_pos_bound. lia.
      - apply Z.mod_le; nia. }
    rewrite expand_outer_out; [reflexivity | exact HX | lia | lia | |].
    + rewrite Z2Nat.id by lia. lia.
    + rewrite repeat_length, !Z2Nat.id by lia. lia.
  - intros Hdim. unfold expandGridCoords. cbv zeta.
    set (n := u16 (s32 (Coord.X Dims * Coord.Y Dims))).
    assert (0 <= n) as Hn by (unfold n, u16; apply Z.mod_pos_bound; lia).
    assert (forall cnt j arr,
              Coord.X Dims <= 0 ->
              expand_outer cnt Dims (Coord.X StartPos) (Coord.Y StartPos)
                           (Coord.X Spacing) (Coord.Y Spacing) j arr
              = Some arr) as Hrow.
    { induction cnt as [|cnt IH]; intros j arr HX0; [reflexivity|].
      cbn [expand_outer].
      replace (Z.to_nat (Coord.X Dims)) with 0%nat by lia.
      cbn [expand_inner]. now apply IH. }
    assert (expand_outer (Z.to_nat (Coord.Y Dims)) Dims (Coord.X StartPos)
              (Coord.Y StartPos) (Coord.X Spacing) (Coord.Y Spacing) 0
              (repeat (Coord.mk 0 0) (Z.to_nat n))
            = Some (repeat (Coord.mk 0 0) (Z.to_nat n))) as ->.
    { destruct Hdim as [HX0|HY0]; [now apply Hrow|].
      replace (Z.to_nat (Coord.Y Dims)) with 0%nat by lia. reflexivity. }
    destruct (n =? 0) eqn:E.
    + apply Z.eqb_eq in E. rewrite E. reflexivity.
    + apply Z.eqb_neq in E.
      destruct (Z.to_nat n) as [|k] eqn:Ek; [lia | reflexivity].
Qed.

Lemma expandGridCoords_stores_past_the_end_witness :
  expandGridCoords (Coord.mk 5 5) (Coord.mk 40 320) (Coord.mk 50 50) = None
  /\ expandGridCoords (Coord.mk (-1) (-1)) (Coord.mk 40 320) (Coord.mk 50 50)
     = Some (Coord.mk 0 0).
Proof.
  split.
  - apply (proj1 (expandGridCoords_stores_past_the_end (Coord.mk 5 5)
                    (Coord.mk 40 320) (Coord.mk 50 50))); simpl; lia.
  - apply (proj2 (expandGridCoords_stores_past_the_end (Coord.mk (-1) (-1))
                    (Coord.mk 40 320) (Coord.mk 50 50))). simpl. lia.
Defined.

(** ** The output of the test driver *)



(** ** The generators and the buffers of the serializer *)

Lemma emits_ret {A : Type} (P : CmdLine -> Prop) (a : A) : emits P (ret a).
Proof. exists []. split; [apply writes_ret | constructor]. Qed.

Lemma emits_link (P : CmdLine -> Prop) (c : CmdLine) : P c -> emits P (link c).
Proof. intros H. exists [c]. split; [apply writes_link | now constructor]. Qed.

Lemma emits_seq {A B : Type} (P : CmdLine -> Prop) (m1 : M A) (m2 : M B) :
  emits P m1 -> emits P m2 -> emits P (bind m1 (fun _ => m2)).
Proof.
  intros [l1 [W1 F1]] [l2 [W2 F2]]. exists (l1 ++ l2). split.
  - now apply writes_seq.
  - apply Forall_app. split; assumption.
Qed.

Lemma emits_exec {A : Type} (P : CmdLine -> Prop) (m : M A) :
  emits P m -> Forall P (exec m createProtocol).
Proof. intros [l [W F]]. now rewrite (writes_exec _ _ W). Qed.

Lemma fieldsTyped_mk (d s : ascii) (cycle channel value : Z) :
  - 2 ^ 31 <= channel < 2 ^ 31 -> - 2 ^ 63 <= value < 2 ^ 63 ->
  fieldsTyped (mkCmd d s (u32 cycle) channel value).
Proof.
  intros HC HV. unfold fieldsTyped. cbn [Cycle Channel Value].
  split; [apply u32_range | split; assumption].
Qed.

(** A command whose cycle comes from a [uint32_t], whose channel is one of
    the enumeration and whose value is an [int64_t] or a trigger
    configuration. *)
Ltac typed_cmd :=
  apply fieldsTyped_mk;
  [ cbv; split; [discriminate | reflexivity]
  | first [ apply s64_range
          | cbn; first [ apply s64_range
                       | cbv; split; [discriminate | reflexivity] ] ] ].

Lemma typed_triggerAt (Trig : Trigger) (t : Z) :
  emits fieldsTyped (triggerAt Trig t).
Proof.
  destruct Trig; simpl.
  - apply emits_ret.
  - apply emits_link. typed_cmd.
  - apply emits_seq; apply emits_link; typed_cmd.
Qed.

Ltac typed_step IH :=
  lazymatch goal with
  | |- emits _ (bind _ _) => apply emits_seq
  | |- emits _ (ret _) => apply emits_ret
  | |- emits _ (triggerAt _ _) => apply typed_triggerAt
  | |- emits _ (target_loop _ _ _ _ _ _ _ _ _ _) => apply IH
  | |- emits _ (rapid_loop _ _ _ _ _) => apply IH
  | |- emits _ (if true then _ else _) => cbv iota
  | |- emits _ (if false then _ else _) => cbv iota
  | |- emits _ (pulses_single_period _ _ _ _) =>
      unfold pulses_single_period;
      match goal with |- context [?n =? 1] => destruct (n =? 1) end
  | |- emits _ (pulses_whole_train _ _ _ _) =>
      unfold pulses_whole_train;
      match goal with |- context [?n =? 1] => destruct (n =? 1) end
  | |- emits _ _ => apply emits_link; typed_cmd
  end.

Lemma typed_target_loop (gCoordArr : list gCoord.t) :
  forall (k EpisodeStart EpisodePeriod Baseline TimeOn ISI NumPulses
          Iterations : Z) (Trig : Trigger),
    emits fieldsTyped
      (target_loop gCoordArr k EpisodeStart EpisodePeriod Baseline TimeOn ISI
                   NumPulses Iterations Trig).
Proof.
  induction gCoordArr as [|g rest IH]; intros; cbn [target_loop].
  - apply emits_ret.
  - destruct (1 <? Iterations); repeat typed_step IH.
Qed.

Lemma typed_rapid_loop (gCoordArr : list gCoord.t) :
  forall m PulseStart TimeOn ISI : Z,
    emits fieldsTyped (rapid_loop gCoordArr m PulseStart TimeOn ISI).
Proof.
  induction gCoordArr as [|g rest IH]; intros; cbn [rapid_loop].
  - apply emits_ret.
  - repeat typed_step IH.
Qed.

Ltac typed_generator :=
  apply emits_exec;
  repeat first [ typed_step typed_target_loop | typed_step typed_rapid_loop ].

Lemma pSpotProt_typed (Baseline TimeOn NumPulses ISI EpisodePeriod Reps : Z)
    (Pos : Coord.t) (ScaleFactor : Z) (CenterOffset : Coord.t)
    (Trig : Trigger) :
  Forall fieldsTyped
    (pSpotProt Baseline TimeOn NumPulses ISI EpisodePeriod Reps Pos
               ScaleFactor CenterOffset Trig).
Proof. unfold pSpotProt. typed_generator. Qed.

Lemma pRapidGridProt_typed (Baseline TimeOn ISI EpisodePeriod Reps : Z)
    (Dims StartPos Spacing : Coord.t) (ScaleFactor : Z)
    (CenterOffset : Coord.t) (Trig : Trigger) (RotAngle : R) :
  Forall fieldsTyped
    (pRapidGridProt Baseline TimeOn ISI EpisodePeriod Reps Dims StartPos
                    Spacing ScaleFactor CenterOffset Trig RotAngle).
Proof. unfold pRapidGridProt. typed_generator. Qed.

Lemma pGridProt_typed (Baseline TimeOn NumPulses ISI Iterations EpisodePeriod
    Reps : Z) (Dims StartPos Spacing : Coord.t) (ScaleFactor : Z)
    (CenterOffset : Coord.t) (Trig : Trigger) (RotAngle : R) (p : ScanProt) :
  pGridProt Baseline TimeOn NumPulses ISI Iterations EpisodePeriod Reps Dims
            StartPos Spacing ScaleFactor CenterOffset Trig RotAngle = Some p ->
  Forall fieldsTyped p.
Proof.
  unfold pGridProt. cbv zeta.
  destruct (Req_dec_T RotAngle 0).
  - intros H. apply Some_inj in H. subst p.
    destruct (1 <? Iterations); typed_generator.
  - match goal with |- context [getCentroid 4 ?l] =>
      destruct (getCentroid_4 l) as [c Hc]; rewrite Hc end.
    intros H. apply Some_inj in H. subst p.
    destruct (1 <? Iterations); typed_generator.
Qed.

Lemma targetProt_typed (pCoordArr : list Coord.t)
    (Baseline TimeOn NumPulses ISI Iterations EpisodePeriod Reps NumPoints
     ScaleFactor : Z) (CenterOffset : Coord.t) (Trig : Trigger) (RotAngle : R)
    (p : ScanProt) :
  targetProt pCoordArr Baseline TimeOn NumPulses ISI Iterations EpisodePeriod
             Reps NumPoints ScaleFactor CenterOffset Trig RotAngle = Some p ->
  Forall fieldsTyped p.
Proof.
  unfold targetProt. cbv zeta.
  destruct (rotateAll NumPoints pCoordArr RotAngle); intros H;
    [apply Some_inj in H; subst p | discriminate].
  typed_generator.
Qed.

Lemma pRapidTargetProt_typed (TargetFile : list Z)
    (Baseline TimeOn ISI EpisodePeriod Reps NumPoints ScaleFactor : Z)
    (CenterOffset : Coord.t) (Trig : Trigger) (RotAngle : R) (p : ScanProt) :
  pRapidTargetProt TargetFile Baseline TimeOn ISI EpisodePeriod Reps NumPoints
                   ScaleFactor CenterOffset Trig RotAngle = Some p ->
  Forall fieldsTyped p.
Proof.
  unfold pRapidTargetProt. cbv zeta.
  destruct (rotateAll NumPoints _ RotAngle); intros H;
    [apply Some_inj in H; subst p | discriminate].
  typed_generator.
Qed.

Lemma fitsBuffers_intro (p : ScanProt) :
  Forall fieldsTyped p -> NumCmds p <= 2 + 65535 * 10 -> fitsBuffers p.
Proof.
  intros Ht Hn. split.
  - eapply Forall_impl; [|apply lines_within_NextLine; exact Ht].
    cbv beta. intros c H. lia.
  - apply string_within_StrProtocol; [exact Ht|]. unfold MAX_CMD_LEN. lia.
Qed.

Lemma counts_bounds (Trig : Trigger) (NumPulses Iterations : Z) :
  0 <= triggerCount Trig <= 2 /\ 2 <= pulseCount NumPulses <= 4
  /\ 0 <= iterCount Iterations <= 2.
Proof.
  unfold pulseCount, iterCount.
  destruct Trig; destruct (NumPulses =? 1); destruct (1 <? Iterations);
    simpl; lia.
Qed.

(** X22.  Whatever the parameters, and for at most 65535 points (the range of
    [NumPoints]), the protocol of each of the six generators fits the two
    buffers of [ProtToString]: every line fits [NextLine], and the string
    fits the bytes reserved for it. *)
Theorem generators_fit_buffers :
  (forall Baseline TimeOn NumPulses ISI EpisodePeriod Reps Pos ScaleFactor
          CenterOffset Trig,
      fitsBuffers
        (pSpotProt Baseline TimeOn NumPulses ISI EpisodePeriod Reps Pos
                   ScaleFactor CenterOffset Trig))
  /\ (forall Baseline TimeOn NumPulses ISI Iterations EpisodePeriod Reps Dims
             StartPos Spacing ScaleFactor CenterOffset Trig RotAngle,
        exists p,
          pGridProt Baseline TimeOn NumPulses ISI Iterations EpisodePeriod
                    Reps Dims StartPos Spacing ScaleFactor CenterOffset Trig
                    RotAngle = Some p
          /\ fitsBuffers p)
  /\ (forall TargetFile Baseline TimeOn NumPulses ISI Iterations EpisodePeriod
             Reps NumPoints ScaleFactor CenterOffset Trig RotAngle,
        NumPoints <= 65535 ->
        (exists p,
           pTargetProt TargetFile Baseline TimeOn NumPulses ISI Iterations
                       EpisodePeriod Reps NumPoints ScaleFactor CenterOffset
                       Trig RotAngle = Some p
           /\ fitsBuffers p)
        \/ (pTargetProt TargetFile Baseline TimeOn NumPulses ISI Iterations
                        EpisodePeriod Reps NumPoints ScaleFactor CenterOffset
                        Trig RotAngle = None
            /\ NumPoints = 0 /\ RotAngle <> 0%R))
  /\ (forall Baseline TimeOn ISI EpisodePeriod Reps Dims StartPos Spacing
             ScaleFactor CenterOffset Trig RotAngle,
        fitsBuffers
          (pRapidGridProt Baseline TimeOn ISI EpisodePeriod Reps Dims StartPos
                          Spacing ScaleFactor CenterOffset Trig RotAngle))
  /\ (forall TargetFile Baseline TimeOn ISI EpisodePeriod Reps NumPoints
             ScaleFactor CenterOffset Trig RotAngle,
        NumPoints <= 65535 ->
        (exists p,
           pRapidTargetProt TargetFile Baseline TimeOn ISI EpisodePeriod Reps
                            NumPoints ScaleFactor CenterOffset Trig RotAngle
           = Some p
           /\ fitsBuffers p)
        \/ (pRapidTargetProt TargetFile Baseline TimeOn ISI EpisodePeriod Reps
                             NumPoints ScaleFactor CenterOffset Trig RotAngle
            = None
            /\ NumPoints = 0 /\ RotAngle <> 0%R))
  /\ (forall PatternFile Baseline TimeOn NumPulses ISI Iterations
             EpisodePeriod Reps StartPos Spacing ScaleFactor CenterOffset Trig
             RotAngle,
        (exists p,
           pPatternProt PatternFile Baseline TimeOn NumPulses ISI Iterations
                        EpisodePeriod Reps StartPos Spacing ScaleFactor
                        CenterOffset Trig RotAngle = Some p
           /\ fitsBuffers p)
        \/ (pPatternProt PatternFile Baseline TimeOn NumPulses ISI Iterations
                         EpisodePeriod Reps StartPos Spacing ScaleFactor
                         CenterOffset Trig RotAngle = None
            /\ u16 (getNumPoints PatternFile) = 0 /\ RotAngle <> 0%R)).
Proof.
  split; [|split; [|split; [|split; [|split]]]]; intros.
  - apply fitsBuffers_intro; [apply pSpotProt_typed|].
    rewrite pSpotProt_size.
    pose proof (counts_bounds Trig NumPulses 0). lia.
  - destruct (pGridProt_size Baseline TimeOn NumPulses ISI Iterations
                EpisodePeriod Reps Dims StartPos Spacing ScaleFactor
                CenterOffset Trig RotAngle) as [p [Hp Hn]].
    exists p. split; [exact Hp|].
    apply fitsBuffers_intro; [eapply pGridProt_typed, Hp|].
    rewrite Hn. pose proof (counts_bounds Trig NumPulses Iterations).
    destruct (Req_dec_T RotAngle 0); lia.
  - destruct (pTargetProt_size TargetFile Baseline TimeOn NumPulses ISI
                Iterations EpisodePeriod Reps NumPoints ScaleFactor
                CenterOffset Trig RotAngle) as [[p [Hp Hn]] | Hnone];
      [left | right; exact Hnone].
    exists p. split; [exact Hp|].
    apply fitsBuffers_intro; [eapply targetProt_typed, Hp|].
    rewrite Hn. pose proof (counts_bounds Trig NumPulses Iterations). nia.
  - apply fitsBuffers_intro; [apply pRapidGridProt_typed|].
    rewrite pRapidGridProt_size.
    pose proof (counts_bounds Trig 0 0). lia.
  - destruct (pRapidTargetProt_size TargetFile Baseline TimeOn ISI
                EpisodePeriod Reps NumPoints ScaleFactor CenterOffset Trig
                RotAngle) as [[p [Hp Hn]] | Hnone];
      [left | right; exact Hnone].
    exists p. split; [exact Hp|].
    apply fitsBuffers_intro; [eapply pRapidTargetProt_typed, Hp|].
    rewrite Hn. pose proof (counts_bounds Trig 0 0). nia.
  - destruct (pPatternProt_size PatternFile Baseline TimeOn NumPulses ISI
                Iterations EpisodePeriod Reps StartPos Spacing ScaleFactor
                CenterOffset Trig RotAngle) as [[p [Hp Hn]] | Hnone];
      [left | right; exact Hnone].
    exists p. split; [exact Hp|].
    apply fitsBuffers_intro; [eapply targetProt_typed, Hp|].
    rewrite Hn. pose proof (counts_bounds Trig NumPulses Iterations).
    assert (0 <= u16 (getNumPoints PatternFile) < 2 ^ 16)
      by (unfold u16; apply Z.mod_pos_bound; lia).
    nia.
Qed.

Lemma generators_fit_buffers_witness :
  (exists p,
     pTargetProt [100; 200] 400 200 5 400 10 2000 1 1 2 (Coord.mk 716 206)
                 T_OUT 0 = Some p
     /\ fitsBuffers p)
  \/ (pTargetProt [100; 200] 400 200 5 400 10 2000 1 1 2 (Coord.mk 716 206)
                  T_OUT 0 = None
      /\ 1 = 0 /\ 0%R <> 0%R).
Proof.
  apply (proj1 (proj2 (proj2 generators_fit_buffers))). lia.
Defined.

(** ** Every pulse is switched off *)

Lemma pulsesPaired_app (T : Z) (b : ScanProt) :
  pulsesPaired T b ->
  forall (n : nat) (a : ScanProt),
    (List.length a <= n)%nat -> pulsesPaired T a -> pulsesPaired T (a ++ b).
Proof.
  intros Hb. induction n as [|n IH]; intros a Hlen Ha.
  - destruct a; [exact Hb | simpl in Hlen; lia].
  - destruct a as [|c a]; [exact Hb|].
    cbn [app pulsesPaired] in *.
    destruct (isPulseOn c).
    + destruct a as [|off a]; [contradiction|].
      destruct Ha as [Hoff Ha]. cbn [app]. split; [exact Hoff|].
      apply IH; [simpl in Hlen; lia | exact Ha].
    + apply IH; [simpl in Hlen; lia | exact Ha].
Qed.

Lemma pairs_ret {A : Type} (T : Z) (a : A) : pairs T (ret a).
Proof. exists []. split; [apply writes_ret | exact I]. Qed.

Lemma pairs_link (T : Z) (c : CmdLine) :
  isPulseOn c = false -> pairs T (link c).
Proof.
  intros H. exists [c]. split; [apply writes_link|].
  cbn [pulsesPaired]. now rewrite H.
Qed.

Lemma pairs_seq {A B : Type} (T : Z) (m1 : M A) (m2 : M B) :
  pairs T m1 -> pairs T m2 -> pairs T (bind m1 (fun _ => m2)).
Proof.
  intros [l1 [W1 P1]] [l2 [W2 P2]]. exists (l1 ++ l2). split.
  - now apply writes_seq.
  - now apply (pulsesPaired_app T l2 P2 (List.length l1)).
Qed.

Lemma pairs_pulse_then {B : Type} (T t : Z) (m : M B) :
  pairs T m ->
  pairs T (bind (appendTrigOut t TL_DH)
                (fun _ => bind (appendTrigOut (u32 (t + T)) TL_DL)
                               (fun _ => m))).
Proof.
  intros [l [W P]].
  exists (cmdTrigOut t TL_DH :: cmdTrigOut (u32 (t + T)) TL_DL :: l). split.
  - apply writes_cons. apply writes_cons. exact W.
  - cbn [pulsesPaired]. change (isPulseOn (cmdTrigOut t TL_DH)) with true.
    cbv iota. split; [|exact P].
    unfold cmdTrigOut. cbn [Cycle]. now rewrite u32_idem, u32_add_l.
Qed.

Lemma pairs_pulse (T t : Z) :
  pairs T (bind (appendTrigOut t TL_DH)
                (fun _ => appendTrigOut (u32 (t + T)) TL_DL)).
Proof.
  exists [cmdTrigOut t TL_DH; cmdTrigOut (u32 (t + T)) TL_DL]. split.
  - apply writes_cons. apply writes_link.
  - cbn [pulsesPaired]. change (isPulseOn (cmdTrigOut t TL_DH)) with true.
    cbv iota. split; [|exact I].
    unfold cmdTrigOut. cbn [Cycle]. now rewrite u32_idem, u32_add_l.
Qed.

Lemma pairs_triggerAt (T : Z) (Trig : Trigger) (t : Z) :
  pairs T (triggerAt Trig t).
Proof.
  destruct Trig; simpl.
  - apply pairs_ret.
  - apply pairs_link. reflexivity.
  - apply pairs_seq; apply pairs_link; reflexivity.
Qed.

Lemma pairs_exec {A : Type} (T : Z) (m : M A) :
  pairs T m -> pulsesPaired T (exec m createProtocol).
Proof. intros [l [W P]]. now rewrite (writes_exec _ _ W). Qed.

Ltac pairs_step IH :=
  lazymatch goal with
  | |- pairs _ (bind (appendTrigOut _ TL_DH)
                     (fun _ => bind (appendTrigOut _ TL_DL) _)) =>
      apply pairs_pulse_then
  | |- pairs _ (bind (appendTrigOut _ TL_DH)
                     (fun _ => appendTrigOut _ TL_DL)) =>
      apply pairs_pulse
  | |- pairs _ (bind _ _) => apply pairs_seq
  | |- pairs _ (ret _) => apply pairs_ret
  | |- pairs _ (triggerAt _ _) => apply pairs_triggerAt
  | |- pairs _ (target_loop _ _ _ _ _ _ _ _ _ _) => apply IH
  | |- pairs _ (rapid_loop _ _ _ _ _) => apply IH
  | |- pairs _ (if true then _ else _) => cbv iota
  | |- pairs _ (if false then _ else _) => cbv iota
  | |- pairs _ (pulses_single_period _ _ _ _) =>
      unfold pulses_single_period;
      match goal with |- context [?n =? 1] => destruct (n =? 1) end
  | |- pairs _ (pulses_whole_train _ _ _ _) =>
      unfold pulses_whole_train;
      match goal with |- context [?n =? 1] => destruct (n =? 1) end
  | |- pairs _ _ => apply pairs_link; reflexivity
  end.

Lemma pairs_target_loop (T : Z) (gCoordArr : list gCoord.t) :
  forall (k EpisodeStart EpisodePeriod Baseline ISI NumPulses
          Iterations : Z) (Trig : Trigger),
    pairs T (target_loop gCoordArr k EpisodeStart EpisodePeriod Baseline T ISI
                         NumPulses Iterations Trig).
Proof.
  induction gCoordArr as [|g rest IH]; intros; cbn [target_loop].
  - apply pairs_ret.
  - destruct (1 <? Iterations); repeat pairs_step IH.
Qed.

Lemma pairs_rapid_loop (T : Z) (gCoordArr : list gCoord.t) :
  forall m PulseStart ISI : Z,
    pairs T (rapid_loop gCoordArr m PulseStart T ISI).
Proof.
  induction gCoordArr as [|g rest IH]; intros; cbn [rapid_loop].
  - apply pairs_ret.
  - repeat pairs_step IH.
Qed.

Ltac pairs_generator :=
  apply pairs_exec;
  repeat first [ pairs_step pairs_target_loop | pairs_step pairs_rapid_loop ].

Lemma targetProt_pairs (pCoordArr : list Coord.t)
    (Baseline TimeOn NumPulses ISI Iterations EpisodePeriod Reps NumPoints
     ScaleFactor : Z) (CenterOffset : Coord.t) (Trig : Trigger) (RotAngle : R)
    (p : ScanProt) :
  targetProt pCoordArr Baseline TimeOn NumPulses ISI Iterations EpisodePeriod
             Reps NumPoints ScaleFactor CenterOffset Trig RotAngle = Some p ->
  pulsesPaired (toCycles TimeOn) p.
Proof.
  unfold targetProt. cbv zeta.
  destruct (rotateAll NumPoints pCoordArr RotAngle); intros H;
    [apply Some_inj in H; subst p | discriminate].
  pairs_generator.
Qed.

(** X23.  In the protocol of each of the six generators, whatever the parameters,
    every command that switches the laser on (trigger output, digital line
    high) is followed at once by the command that switches it off, one
    pulse width later (in cycles, modulo 2^32). *)
Theorem generators_switch_every_pulse_off :
  (forall Baseline TimeOn NumPulses ISI EpisodePeriod Reps Pos ScaleFactor
          CenterOffset Trig,
      pulsesPaired (toCycles TimeOn)
        (pSpotProt Baseline TimeOn NumPulses ISI EpisodePeriod Reps Pos
                   ScaleFactor CenterOffset Trig))
  /\ (forall Baseline TimeOn NumPulses ISI Iterations EpisodePeriod Reps Dims
             StartPos Spacing ScaleFactor CenterOffset Trig RotAngle,
        exists p,
          pGridProt Baseline TimeOn NumPulses ISI Iterations EpisodePeriod
                    Reps Dims StartPos Spacing ScaleFactor CenterOffset Trig
                    RotAngle = Some p
          /\ pulsesPaired (toCycles TimeOn) p)
  /\ (forall TargetFile Baseline TimeOn NumPulses ISI Iterations EpisodePeriod
             Reps NumPoints ScaleFactor CenterOffset Trig RotAngle,
        (exists p,
           pTargetProt TargetFile Baseline TimeOn NumPulses ISI Iterations
                       EpisodePeriod Reps NumPoints ScaleFactor CenterOffset
                       Trig RotAngle = Some p
           /\ pulsesPaired (toCycles TimeOn) p)
        \/ (pTargetProt TargetFile Baseline TimeOn NumPulses ISI Iterations
                        EpisodePeriod Reps NumPoints ScaleFactor CenterOffset
                        Trig RotAngle = None
            /\ NumPoints = 0 /\ RotAngle <> 0%R))
  /\ (forall Baseline TimeOn ISI EpisodePeriod Reps Dims StartPos Spacing
             ScaleFactor CenterOffset Trig RotAngle,
        pulsesPaired (toCycles TimeOn)
          (pRapidGridProt Baseline TimeOn ISI EpisodePeriod Reps Dims StartPos
                          Spacing ScaleFactor CenterOffset Trig RotAngle))
  /\ (forall TargetFile Baseline TimeOn ISI EpisodePeriod Reps NumPoints
             ScaleFactor CenterOffset Trig RotAngle,
        (exists p,
           pRapidTargetProt TargetFile Baseline TimeOn ISI EpisodePeriod Reps
                            NumPoints ScaleFactor CenterOffset Trig RotAngle
           = Some p
           /\ pulsesPaired (toCycles TimeOn) p)
        \/ (pRapidTargetProt TargetFile Baseline TimeOn ISI EpisodePeriod Reps
                             NumPoints ScaleFactor CenterOffset Trig RotAngle
            = None
            /\ NumPoints = 0 /\ RotAngle <> 0%R))
  /\ (forall PatternFile Baseline TimeOn NumPulses ISI Iterations
             EpisodePeriod Reps StartPos Spacing ScaleFactor CenterOffset Trig
             RotAngle,
        (exists p,
           pPatternProt PatternFile Baseline TimeOn NumPulses ISI Iterations
                        EpisodePeriod Reps StartPos Spacing ScaleFactor
                        CenterOffset Trig RotAngle = Some p
           /\ pulsesPaired (toCycles TimeOn) p)
        \/ (pPatternProt PatternFile Baseline TimeOn NumPulses ISI Iterations
                         EpisodePeriod Reps StartPos Spacing ScaleFactor
                         CenterOffset Trig RotAngle = None
            /\ u16 (getNumPoints PatternFile) = 0 /\ RotAngle <> 0%R)).
Proof.
  split; [|split; [|split; [|split; [|split]]]]; intros.
  - unfold pSpotProt. pairs_generator.
  - unfold pGridProt. cbv zeta.
    destruct (Req_dec_T RotAngle 0).
    + eexists. split; [reflexivity|].
      destruct (1 <? Iterations); pairs_generator.
    + match goal with |- context [getCentroid 4 ?l] =>
        destruct (getCentroid_4 l) as [c Hc]; rewrite Hc end.
      eexists. split; [reflexivity|].
      destruct (1 <? Iterations); pairs_generator.
  - unfold pTargetProt.
    destruct (targetProt_loopsOK (getCoords TargetFile NumPoints) Baseline
                TimeOn NumPulses ISI Iterations EpisodePeriod Reps NumPoints
                ScaleFactor CenterOffset Trig RotAngle)
      as [[p [Hp _]] | Hnone]; [left | right; exact Hnone].
    exists p. split; [exact Hp | eapply targetProt_pairs, Hp].
  - unfold pRapidGridProt. pairs_generator.
  - unfold pRapidTargetProt. cbv zeta.
    destruct (rotateAll_cases NumPoints (getCoords TargetFile NumPoints)
                              RotAngle)
      as [[arr Harr] | [Hnone Hwhy]]; [rewrite Harr | rewrite Hnone].
    + left. eexists. split; [reflexivity|]. pairs_generator.
    + right. auto.
  - unfold pPatternProt.
    destruct (targetProt_loopsOK
                (getPattern PatternFile (u16 (getNumPoints PatternFile))
                            StartPos Spacing)
                Baseline TimeOn NumPulses ISI Iterations EpisodePeriod Reps
                (u16 (getNumPoints PatternFile)) ScaleFactor CenterOffset Trig
                RotAngle)
      as [[p [Hp _]] | Hnone]; [left | right; exact Hnone].
    exists p. split; [exact Hp | eapply targetProt_pairs, Hp].
Qed.
